(** * CodeCraft: the authentication and session-token subsystem

    A shallow embedding of the server's password policy
    (password-validation), password hasher and request handlers (jwt-auth),
    token helpers (jwt) and token storage (storage.ts), with the properties
    the specification states about them.  It is followed by the planner,
    class and chat-session operations of storage.ts, the study-assistant
    route, the grade points, and the form state of the client that goes
    with them.

    Conventions of the embedding.
    - A JavaScript string is the list of its UTF-16 code units ([jsstring]);
      [String.length], the zod length checks and regular expressions without
      the [u] flag all work on code units.
    - Time is the number of milliseconds since the epoch, an integer; a
      handler runs at one instant [now].
    - The relational tables are lists of rows in insertion order. *)

From Stdlib Require Import String Ascii.
From Stdlib Require Import List Bool Arith NArith ZArith Lia.
From Stdlib Require Import Permutation Sorted.
From Stdlib Require Strings.Byte.
From Stdlib Require QArith.
Import ListNotations.

Set Implicit Arguments.

(** ** JavaScript strings *)

Definition jsstring := list N.

(** The code units of an ASCII literal. *)
Definition js (s : string) : jsstring :=
  map N_of_ascii (list_ascii_of_string s).

Definition str_eqb (a b : jsstring) : bool :=
  if list_eq_dec N.eq_dec a b then true else false.

(** [s.startsWith(p)] *)
Fixpoint startsWith (p s : jsstring) : bool :=
  match p, s with
  | [], _ => true
  | _ :: _, [] => false
  | x :: p', y :: s' => (x =? y)%N && startsWith p' s'
  end.

(** [s.endsWith(p)] *)
Definition endsWith (p s : jsstring) : bool :=
  startsWith (rev p) (rev s).

(** [s.split(sep)] for a separator of one code unit: never the empty array. *)
Fixpoint split (sep : N) (s : jsstring) : list jsstring :=
  match s with
  | [] => [[]]
  | c :: s' =>
      if (c =? sep)%N then [] :: split sep s'
      else match split sep s' with
           | [] => [[c]]
           | w :: ws => (c :: w) :: ws
           end
  end.

(** JavaScript truthiness of a value that is a string or [undefined]. *)
Definition truthy (v : option jsstring) : bool :=
  match v with
  | Some (_ :: _) => true
  | _ => false
  end.

(** [a || b] on such values. *)
Definition js_or (a b : option jsstring) : option jsstring :=
  if truthy a then a else b.

(** ** Regular expressions

    The patterns of the source are matched by a few combinators.  A matcher
    of type [jsstring -> bool] says whether the pattern matches at the start
    of its argument; [search] tries every start position, which is what
    [RegExp.prototype.test] does for a pattern without the [g] and [y]
    flags. *)

Fixpoint search (here : jsstring -> bool) (s : jsstring) : bool :=
  here s ||
  match s with
  | [] => false
  | _ :: s' => search here s'
  end.

(** A character class [[...]]: one code unit satisfying [cls]. *)
Definition one_of (cls : N -> bool) (s : jsstring) : bool :=
  match s with
  | c :: _ => cls c
  | [] => false
  end.

Definition is_lower (c : N) : bool := ((97 <=? c) && (c <=? 122))%N.
Definition is_upper (c : N) : bool := ((65 <=? c) && (c <=? 90))%N.
Definition is_digit (c : N) : bool := ((48 <=? c) && (c <=? 57))%N.
Definition is_alnum (c : N) : bool := is_lower c || is_upper c || is_digit c.

(** LineTerminator: the code units that [.] does not match (no [s] flag). *)
Definition is_line_terminator (c : N) : bool :=
  ((c =? 10) || (c =? 13) || (c =? 8232) || (c =? 8233))%N.

(** [.] *)
Definition dot (c : N) : bool := negb (is_line_terminator c).

(** The [\s] class: WhiteSpace and LineTerminator code units. *)
Definition is_space (c : N) : bool :=
  (((9 <=? c) && (c <=? 13)) || (c =? 32) || (c =? 160) || (c =? 5760)
   || ((8192 <=? c) && (c <=? 8202)) || (c =? 8232) || (c =? 8233)
   || (c =? 8239) || (c =? 8287) || (c =? 12288) || (c =? 65279))%N.

(** Canonicalize of the [i] flag (no [u] flag), restricted to what decides
    a comparison with an ASCII pattern character: a code unit above 127 is
    never canonicalized to an ASCII one, so only the ASCII lower-case
    letters are folded. *)
Definition canonicalize (c : N) : N :=
  if is_lower c then (c - 32)%N else c.

(** A literal, matched code unit by code unit. *)
Definition lit (p : jsstring) : jsstring -> bool := startsWith p.

(** A literal under the [i] flag. *)
Fixpoint lit_i (p s : jsstring) : bool :=
  match p, s with
  | [], _ => true
  | _ :: _, [] => false
  | x :: p', y :: s' => (canonicalize x =? canonicalize y)%N && lit_i p' s'
  end.

(** An alternation [(?:a|b|...)]. *)
Definition alt (ms : list (jsstring -> bool)) (s : jsstring) : bool :=
  existsb (fun m => m s) ms.

(** [(.)\1{2,}]: a code unit that [.] matches, then at least two more
    copies of it. *)
Definition repeated_here (s : jsstring) : bool :=
  match s with
  | c :: rest => dot c && startsWith [c; c] rest
  | [] => false
  end.

(** The pattern tests of password-validation. *)

(** [/[a-z]/], [/[A-Z]/], [/[0-9]/], [/[^a-zA-Z0-9]/] *)
Definition hasLower : jsstring -> bool := search (one_of is_lower).
Definition hasUpper : jsstring -> bool := search (one_of is_upper).
Definition hasDigit : jsstring -> bool := search (one_of is_digit).
Definition hasSpecial : jsstring -> bool :=
  search (one_of (fun c => negb (is_alnum c))).

(** [commonPatterns]: [/123456/], [/password/i], [/qwerty/i], [/admin/i],
    [/user/i], [/login/i]. *)
Definition commonPatterns : list (jsstring -> bool) :=
  [ search (lit (js "123456"));
    search (lit_i (js "password"));
    search (lit_i (js "qwerty"));
    search (lit_i (js "admin"));
    search (lit_i (js "user"));
    search (lit_i (js "login")) ].

(** [commonPatterns.some(pattern => pattern.test(password))] *)
Definition hasCommonPattern (password : jsstring) : bool :=
  existsb (fun pattern => pattern password) commonPatterns.

(** The alternatives of the sequential-characters pattern, in source
    order. *)
Definition sequentialAlternatives : list string :=
  [ "abc"; "bcd"; "cde"; "def"; "efg"; "fgh"; "ghi"; "hij"; "ijk"; "jkl";
    "klm"; "lmn"; "mno"; "nop"; "opq"; "pqr"; "qrs"; "rst"; "stu"; "tuv";
    "uvw"; "vwx"; "wxy"; "xyz"; "012"; "123"; "234"; "345"; "456"; "567";
    "678"; "789" ]%string.

(** [/(?:abc|bcd|...|789)/i] *)
Definition hasSequential : jsstring -> bool :=
  search (alt (map (fun a => lit_i (js a)) sequentialAlternatives)).

(** [/(.)\1{2,}/] *)
Definition hasRepeated : jsstring -> bool := search repeated_here.

(** ** password-validation: the zod schemas

    A schema is modelled by the list of the messages of the issues it
    reports, in the order of its checks; [safeParse(...).success] holds
    when there is none.  The string checks ([min], [max], [regex]) do not
    stop the parse, so every check and every refinement reports. *)

Definition check (ok : bool) (message : string) : list string :=
  if ok then [] else [message].

Definition success (issues : list string) : bool :=
  match issues with
  | [] => true
  | _ :: _ => false
  end.

Definition passwordValidationSchema (password : jsstring) : list string :=
  check (8 <=? length password)
        "Password must be at least 8 characters long"
  ++ check (length password <=? 128)
        "Password must not exceed 128 characters"
  ++ check (hasLower password)
        "Password must contain at least one lowercase letter"
  ++ check (hasUpper password)
        "Password must contain at least one uppercase letter"
  ++ check (hasDigit password)
        "Password must contain at least one number"
  ++ check (hasSpecial password)
        "Password must contain at least one special character"
  ++ check (negb (hasCommonPattern password))
        "Password contains common patterns and is not secure"
  ++ check (let hasSequential := hasSequential password in
            negb hasSequential)
        "Password should not contain sequential characters"
  ++ check (let hasRepeated := hasRepeated password in
            negb hasRepeated)
        "Password should not contain more than 2 consecutive identical characters".

(** [/^[a-zA-Z\s'-]+$/] *)
Definition nameCharsOnly (name : jsstring) : bool :=
  match name with
  | [] => false
  | _ :: _ =>
      forallb (fun c => is_lower c || is_upper c || is_space c
                        || (c =? 39)%N || (c =? 45)%N) name
  end.

(** The class [[-'\s]]. *)
Definition is_name_special (c : N) : bool :=
  (c =? 45)%N || (c =? 39)%N || is_space c.

(** [name.match(/^[-'\s]|[-'\s]$/)] is not null. *)
Definition nameEdgeSpecial (name : jsstring) : bool :=
  one_of is_name_special name || one_of is_name_special (rev name).

(** [name.match(/\s{4,}/)] is not null. *)
Definition nameManySpaces : jsstring -> bool :=
  search (fun s => match s with
                   | a :: b :: c :: d :: _ =>
                       is_space a && is_space b && is_space c && is_space d
                   | _ => false
                   end).

Definition nameValidationSchema (name : jsstring) : list string :=
  check (2 <=? length name) "Name must be at least 2 characters long"
  ++ check (length name <=? 50) "Name must not exceed 50 characters"
  ++ check (nameCharsOnly name)
        "Name can only contain letters, spaces, hyphens, and apostrophes"
  ++ check (negb (nameEdgeSpecial name))
        "Name cannot start or end with special characters"
  ++ check (negb (nameManySpaces name))
        "Name contains too many consecutive spaces".

(** The refinement of [emailValidationSchema]. *)
Definition emailRefinement (email : jsstring) : bool :=
  let emailParts := split 64 email in
  match emailParts with
  | [localPart; domain] =>
      if 64 <? length localPart then false
      else if startsWith (js ".") localPart || endsWith (js ".") localPart
      then false
      else if search (lit (js "..")) localPart then false
      else if 253 <? length domain then false
      else if startsWith (js "-") domain || endsWith (js "-") domain
      then false
      else true
  | _ => false
  end.

(** ** password-validation: the strength scorer *)

Inductive Strength := very_weak | weak | fair | good | strong.

Record PasswordStrength := {
  score : nat;
  strength : Strength;
  feedback : list string
}.

(** The two mutable locals of [calculatePasswordStrength]. *)
Definition ScoreState := (nat * list string)%type.

(** [score += 1] *)
Definition bump (st : ScoreState) : ScoreState := (S (fst st), snd st).

(** [feedback.push(message)] *)
Definition push (message : string) (st : ScoreState) : ScoreState :=
  (fst st, snd st ++ [message]).

Definition calculatePasswordStrength (password : jsstring) : PasswordStrength :=
  let st : ScoreState := (0, []) in
  (* Length scoring *)
  let st := if 8 <=? length password then bump st else st in
  let st := if 12 <=? length password then bump st else st in
  let st := if 16 <=? length password then bump st
            else if length password <? 8
                 then push "Use at least 8 characters" st else st in
  (* Character variety scoring *)
  let st := if hasLower password then bump st
            else push "Add lowercase letters" st in
  let st := if hasUpper password then bump st
            else push "Add uppercase letters" st in
  let st := if hasDigit password then bump st
            else push "Add numbers" st in
  let st := if hasSpecial password then bump st
            else push "Add special characters" st in
  (* Pattern checks *)
  let st := if negb (hasRepeated password) then bump st
            else push "Avoid repeated characters" st in
  let st := if negb (hasSequential password) then bump st
            else push "Avoid sequential characters" st in
  (* Determine strength level *)
  let score := fst st in
  let strength :=
    if score <=? 2 then very_weak
    else if score <=? 4 then weak
    else if score <=? 6 then fair
    else if score <=? 8 then good
    else strong in
  {| score := score; strength := strength; feedback := snd st |}.

(** ** Exceptions

    Code that can throw returns a [result]; [try]/[catch] is [catch]. *)

Inductive Error :=
| TypeError            (* an argument of the wrong type *)
| RangeError           (* timingSafeEqual on buffers of different length *)
| JsonWebTokenError    (* malformed token or wrong signature *)
| TokenExpiredError.   (* the [exp] claim has passed *)

Inductive result (A : Type) :=
| Ok (a : A)
| Throw (e : Error).

Arguments Ok {A} a.
Arguments Throw {A} e.

Definition bind {A B} (m : result A) (k : A -> result B) : result B :=
  match m with
  | Ok a => k a
  | Throw e => Throw e
  end.

Notation "x <- m ;; k" := (bind m (fun x => k))
  (at level 61, m at next level, right associativity).

Definition catch {A} (m : result A) (handler : Error -> A) : A :=
  match m with
  | Ok a => a
  | Throw e => handler e
  end.

(** ** Buffers and randomness *)

Definition Buffer := list Byte.byte.

Definition hexDigit (d : N) : N :=
  if (d <? 10)%N then (48 + d)%N else (87 + d)%N.

(** [buf.toString("hex")]: two lower-case digits for each byte. *)
Definition toHex (buf : Buffer) : jsstring :=
  flat_map (fun b => let n := Byte.to_N b in
                     [hexDigit (n / 16); hexDigit (n mod 16)]) buf.

Definition unhex (c : N) : option N :=
  if is_digit c then Some (c - 48)%N
  else if ((97 <=? c) && (c <=? 102))%N then Some (c - 87)%N
  else if ((65 <=? c) && (c <=? 70))%N then Some (c - 55)%N
  else None.

(** [Buffer.from(s, "hex")]: the bytes of the pairs of hexadecimal digits,
    up to the first pair that is not one; a last single character is
    dropped.  It never throws. *)
Fixpoint fromHex (s : jsstring) : Buffer :=
  match s with
  | a :: b :: s' =>
      match unhex a, unhex b with
      | Some x, Some y =>
          match Byte.of_N (16 * x + y) with
          | Some v => v :: fromHex s'
          | None => []
          end
      | _, _ => []
      end
  | _ => []
  end.

Definition buffer_eqb (a b : Buffer) : bool :=
  if list_eq_dec Byte.byte_eq_dec a b then true else false.

(** [crypto.timingSafeEqual(a, b)] throws on buffers of different byte
    length. *)
Definition timingSafeEqual (a b : Buffer) : result bool :=
  if length a =? length b then Ok (buffer_eqb a b) else Throw RangeError.

(** The operating system's random bytes, as a stream the caller passes
    in. *)
Definition Entropy := nat -> Byte.byte.

(** [crypto.randomBytes(n)] *)
Definition randomBytes (e : Entropy) (n : nat) : Buffer := map e (seq 0 n).

(** The stream after [n] bytes were drawn. *)
Definition drawn (n : nat) (e : Entropy) : Entropy := fun i => e (n + i).

(** ** The data model *)

(** A row of the users table, with the columns the subsystem reads. *)
Module User.
Record t := {
  id : jsstring;
  name : jsstring;
  email : jsstring;
  password : jsstring;
  role : jsstring
}.
End User.

(** [InsertUser]: the argument of [createUser]. *)
Module InsertUser.
Record t := {
  name : jsstring;
  email : jsstring;
  password : jsstring;
  role : jsstring
}.
End InsertUser.

(** A row of refreshTokens; [token] holds the tokenId. *)
Module RefreshToken.
Record t := {
  userId : jsstring;
  token : jsstring;
  expiresAt : Z
}.
End RefreshToken.

(** A row of blacklistedTokens; [token] holds the signed access token. *)
Module BlacklistedToken.
Record t := {
  token : jsstring;
  expiresAt : Z
}.
End BlacklistedToken.

(** The claims of an access token; [iat] and [exp] are in seconds. *)
Module JWTPayload.
Record t := {
  userId : jsstring;
  email : jsstring;
  role : jsstring;
  iat : option Z;
  exp : option Z
}.
End JWTPayload.

(** The claims of a refresh token. *)
Module RefreshTokenPayload.
Record t := {
  userId : jsstring;
  tokenId : jsstring;
  iat : option Z;
  exp : option Z
}.
End RefreshTokenPayload.

(** The tables behind [storage]. *)
Record Database := {
  users : list User.t;
  refreshTokens : list RefreshToken.t;
  blacklistedTokens : list BlacklistedToken.t
}.

(** [req.cookies] *)
Record Cookies := {
  accessToken : option jsstring;
  refreshToken : option jsstring
}.

(** An incoming request: [req.headers.authorization], [req.cookies] and
    the string fields of the JSON object [req.body]. *)
Record Request := {
  authorization : option jsstring;
  cookies : option Cookies;
  body : list (string * jsstring)
}.

(** [req.cookies?.accessToken] and [req.cookies?.refreshToken] *)
Definition cookie (field : Cookies -> option jsstring) (req : Request)
  : option jsstring :=
  match cookies req with
  | Some c => field c
  | None => None
  end.

(** [req.body.field]: the value, or [undefined]. *)
Fixpoint body_field (field : string) (b : list (string * jsstring))
  : option jsstring :=
  match b with
  | [] => None
  | (k, v) :: b' => if String.eqb k field then Some v else body_field field b'
  end.

(** JSON values sent by [res.json]. *)
Unset Elimination Schemes.
Inductive Json :=
| JString (s : jsstring)
| JNumber (n : Z)
| JArray (items : list Json)
| JObject (fields : list (string * Json)).
Set Elimination Schemes.

(** [res.cookie(name, value, {maxAge, ...})] and [res.clearCookie(name)] *)
Inductive CookieOp :=
| SetCookie (name : string) (value : jsstring) (maxAge : Z)
| ClearCookie (name : string).

Record Response := {
  status : nat;
  json : Json;
  setCookies : list CookieOp
}.

(** [res.status(s).json({error, code})] *)
Definition error_response (s : nat) (error code : string) : Response :=
  {| status := s;
     json := JObject [("error"%string, JString (js error));
                      ("code"%string, JString (js code))];
     setCookies := [] |}.

(** What a middleware does with a request: call [next()] with [req.user]
    set, or answer it. *)
Inductive Gate :=
| Next (user : User.t)
| Reject (res : Response).

(** [const { password: _, ...userWithoutPassword } = user] *)
Definition userWithoutPassword (user : User.t) : Json :=
  JObject [("id"%string, JString (User.id user));
           ("name"%string, JString (User.name user));
           ("email"%string, JString (User.email user));
           ("role"%string, JString (User.role user))].

Definition setTokenCookies (accessToken refreshToken : jsstring)
  : list CookieOp :=
  [SetCookie "accessToken" accessToken (15 * 60 * 1000);
   SetCookie "refreshToken" refreshToken (7 * 24 * 60 * 60 * 1000)].

Definition clearTokenCookies : list CookieOp :=
  [ClearCookie "accessToken"; ClearCookie "refreshToken"].

(** ** password-validation: the results of the object schemas *)

(** An issue: [issue.path.join('.')] and [issue.message]. *)
Definition Issue := (string * string)%type.

(** The issues of one field of an object schema: those of its schema, or
    zod's "Required" when the field is missing. *)
Definition field_issues (field : string) (schema : jsstring -> list string)
  (value : option jsstring) : list Issue :=
  match value with
  | Some v => map (fun message => (field, message)) (schema v)
  | None => [(field, "Required"%string)]
  end.

Definition no_issues {A} (issues : list A) : bool :=
  match issues with
  | [] => true
  | _ :: _ => false
  end.

(** [schema.safeParse(req.body)]: the parsed data, or the issues. *)
Inductive SafeParse (A : Type) :=
| ParseSuccess (data : A)
| ParseFailure (issues : list Issue).

Arguments ParseSuccess {A} data.
Arguments ParseFailure {A} issues.

Record RegistrationData := {
  reg_name : jsstring;
  reg_email : jsstring;
  reg_password : jsstring;
  reg_confirmPassword : jsstring
}.

Record LoginData := {
  login_email : jsstring;
  login_password : jsstring
}.

(** [issues.map(issue => ({ field, message }))] *)
Definition details (issues : list Issue) : Json :=
  JArray (map (fun issue =>
                 JObject [("field"%string, JString (js (fst issue)));
                          ("message"%string, JString (js (snd issue)))])
              issues).

(** ** The password rules in the words of the specification

    Independent of the patterns above: the conditions of the specification
    on a candidate password, stated on the code units.  Letters and digits
    are the ASCII ones; a letter run is read on the positions in the
    alphabet, so upper and lower case mix.  The specification speaks of
    characters and of length: on a string of ASCII characters these are
    the code units and their number, and the rules below are the rules of
    the specification; on other strings (a character outside the Basic
    Multilingual Plane is two code units) they are the reading on code
    units, which is what the code tests. *)

Definition contains_class (cls : N -> bool) (p : jsstring) : Prop :=
  exists c, In c p /\ cls c = true.

(** Lower-casing of the ASCII letters. *)
Definition fold_case (c : N) : N :=
  if is_upper c then (c + 32)%N else c.

Definition same_ignoring_case (a b : N) : Prop := fold_case a = fold_case b.

(** [w] occurs in [p], case-insensitively. *)
Definition contains_ignoring_case (w p : jsstring) : Prop :=
  exists before mid after,
    p = before ++ mid ++ after /\ Forall2 same_ignoring_case w mid.

Definition denylist : list string :=
  ["123456"; "password"; "qwerty"; "admin"; "user"; "login"]%string.

(** The position of a letter in the alphabet, the value of a digit. *)
Definition letter_index (c : N) : option N :=
  if is_lower c then Some (c - 97)%N
  else if is_upper c then Some (c - 65)%N
  else None.

Definition digit_value (c : N) : option N :=
  if is_digit c then Some (c - 48)%N else None.

(** Three letters, or three digits, each the successor of the one
    before. *)
Definition ascending3 (a b c : N) : Prop :=
  (exists i, letter_index a = Some i /\ letter_index b = Some (i + 1)%N
             /\ letter_index c = Some (i + 2)%N)
  \/ (exists i, digit_value a = Some i /\ digit_value b = Some (i + 1)%N
                /\ digit_value c = Some (i + 2)%N).

Definition has_ascending_run (p : jsstring) : Prop :=
  exists before a b c after,
    p = before ++ [a; b; c] ++ after /\ ascending3 a b c.

(** Some character three times in a row. *)
Definition has_repeated_run (p : jsstring) : Prop :=
  exists before c after, p = before ++ [c; c; c] ++ after.

(** The same for a character that is not a line terminator. *)
Definition has_repeated_visible_run (p : jsstring) : Prop :=
  exists before c after,
    p = before ++ [c; c; c] ++ after /\ is_line_terminator c = false.

Record password_rules (repeated : jsstring -> Prop) (p : jsstring)
  : Prop := {
  rule_length : 8 <= length p <= 128;
  rule_lower : contains_class is_lower p;
  rule_upper : contains_class is_upper p;
  rule_digit : contains_class is_digit p;
  rule_special : contains_class (fun c => negb (is_alnum c)) p;
  rule_denylist :
    forall w, In w denylist -> ~ contains_ignoring_case (js w) p;
  rule_sequential : ~ has_ascending_run p;
  rule_repeated : ~ repeated p
}.

(** Acceptance as the specification states it. *)
Definition spec_accepts : jsstring -> Prop :=
  password_rules has_repeated_run.

(** The characters a run of three can start with: a to x, 0 to 7. *)
Definition run_start (k : N) : Prop :=
  (97 <= k <= 120 \/ 48 <= k <= 55)%N.

(** The characters a run can start with, listed. *)
Definition run_starts : list N :=
  map N.of_nat (seq 97 24 ++ seq 48 8).

(** The four kinds of code unit the rules tell apart. *)
Inductive char_kind (c : N) : Prop :=
| KLower : (97 <= c <= 122)%N -> fold_case c = c ->
    letter_index c = Some (c - 97)%N -> digit_value c = None -> char_kind c
| KUpper : (65 <= c <= 90)%N -> fold_case c = (c + 32)%N ->
    letter_index c = Some (c - 65)%N -> digit_value c = None -> char_kind c
| KDigit : (48 <= c <= 57)%N -> fold_case c = c ->
    letter_index c = None -> digit_value c = Some (c - 48)%N -> char_kind c
| KOther : (c < 48 \/ 57 < c < 65 \/ 90 < c < 97 \/ 122 < c)%N ->
    fold_case c = c ->
    letter_index c = None -> digit_value c = None -> char_kind c.

(** A password with three line feeds in a row. *)
Definition line_feeds_password : jsstring :=
  js "Aa1!" ++ [10; 10; 10]%N ++ js "qq".

(** One point for a criterion that holds. *)
Definition point (b : bool) : nat := if b then 1 else 0.

(** The band of a score. *)
Definition band (score : nat) : Strength :=
  if score <=? 2 then very_weak
  else if score <=? 4 then weak
  else if score <=? 6 then fair
  else if score <=? 8 then good
  else strong.

(** ** Stand-ins for the libraries

    Concrete functions in place of [jsonwebtoken], [scrypt], zod's e-mail
    check, the id default and the random source, to run the model on
    examples. *)

Module Toy.

Definition byte_sum (s : jsstring) : N := fold_right N.add 0%N s.

Definition byte_of (n : N) : Byte.byte :=
  match Byte.of_N (n mod 256) with
  | Some b => b
  | None => Byte.x00
  end.

Definition scrypt (password salt : jsstring) (keylen : nat) : Buffer :=
  map (fun i => byte_of (byte_sum password + 7 * byte_sum salt
                         + N.of_nat i))
      (seq 0 keylen).

Definition entropy : Entropy := fun i => byte_of (N.of_nat (3 * i + 1)).

Definition zod_email (email : jsstring) : bool := existsb (N.eqb 64) email.

Definition newUserId (db : Database) : jsstring :=
  js "user-" ++ repeat 120%N (length (users db)).

(** A server whose local clock never changes: seven calendar days are
    seven days of 24 hours. *)
Definition sevenDaysLater (now : Z) : Z :=
  (now + 7 * 24 * 60 * 60 * 1000)%Z.

(** One access token and one refresh token are well-formed and signed. *)
Definition ada_access : JWTPayload.t :=
  {| JWTPayload.userId := js "user-";
     JWTPayload.email := js "ada@example.com";
     JWTPayload.role := js "student";
     JWTPayload.iat := Some 1000%Z;
     JWTPayload.exp := Some 1900%Z |}.

Definition ada_refresh : RefreshTokenPayload.t :=
  {| RefreshTokenPayload.userId := js "user-";
     RefreshTokenPayload.tokenId := js "c0ffee";
     RefreshTokenPayload.iat := Some 1000%Z;
     RefreshTokenPayload.exp := Some 700000%Z |}.

Definition jwt_sign_access (payload : JWTPayload.t) : jsstring :=
  js "access." ++ JWTPayload.userId payload.

Definition jwt_sign_refresh (payload : RefreshTokenPayload.t) : jsstring :=
  js "refresh." ++ RefreshTokenPayload.userId payload
  ++ js "." ++ RefreshTokenPayload.tokenId payload.

Definition jwt_open_access (token : jsstring) : option JWTPayload.t :=
  if str_eqb token (jwt_sign_access ada_access) then Some ada_access
  else None.

Definition jwt_open_refresh (token : jsstring)
  : option RefreshTokenPayload.t :=
  if str_eqb token (jwt_sign_refresh ada_refresh) then Some ada_refresh
  else None.

(** Ada's credential: what [hashPassword] stores for "Str0ng!Pass9". *)
Definition ada_salt : jsstring := toHex (randomBytes entropy 16).

Definition ada_stored : jsstring :=
  toHex (scrypt (js "Str0ng!Pass9") ada_salt 64) ++ js "." ++ ada_salt.

Definition ada : User.t :=
  {| User.id := js "user-";
     User.name := js "Ada Lovelace";
     User.email := js "ada@example.com";
     User.password := ada_stored;
     User.role := js "student" |}.

Definition empty_db : Database :=
  {| users := []; refreshTokens := []; blacklistedTokens := [] |}.

(** Ada registered, with a live refresh record. *)
Definition ada_db : Database :=
  {| users := [ada];
     refreshTokens :=
       [{| RefreshToken.userId := js "user-";
           RefreshToken.token := js "c0ffee";
           RefreshToken.expiresAt := 605800000%Z |}];
     blacklistedTokens := [] |}.

Definition no_cookies : Cookies :=
  {| accessToken := None; refreshToken := None |}.

(** A request that carries [token] in the Authorization header. *)
Definition with_bearer (token : jsstring) : Request :=
  {| authorization := Some (js "Bearer " ++ token);
     cookies := Some no_cookies;
     body := [] |}.

Definition login_request (email password : string) : Request :=
  {| authorization := None;
     cookies := Some no_cookies;
     body := [("email"%string, js email); ("password"%string, js password)] |}.

(** The two signed tokens. *)
Definition ada_access_token : jsstring := jwt_sign_access ada_access.
Definition ada_refresh_token : jsstring := jwt_sign_refresh ada_refresh.

(** [ada_db] after Ada's access token was blacklisted. *)
Definition revoked_db : Database :=
  {| users := users ada_db;
     refreshTokens := refreshTokens ada_db;
     blacklistedTokens :=
       [{| BlacklistedToken.token := ada_access_token;
           BlacklistedToken.expiresAt := 1900000%Z |}] |}.

(** A logout request: a good access token in the header, stale cookies. *)
Definition logout_request : Request :=
  {| authorization := Some (js "Bearer " ++ ada_access_token);
     cookies := Some {| accessToken := Some (js "stale");
                        refreshToken := Some (js "junk") |};
     body := [] |}.

(** The registration of the end-to-end scenario. *)
Definition register_request : Request :=
  {| authorization := None;
     cookies := Some no_cookies;
     body := [("name"%string, js "Ada Lovelace");
              ("email"%string, js "ada@example.com");
              ("password"%string, js "Str0ng!Pass9");
              ("confirmPassword"%string, js "Str0ng!Pass9")] |}.

(** A refresh request with Ada's refresh token in the cookie. *)
Definition refresh_request : Request :=
  {| authorization := None;
     cookies := Some {| accessToken := None;
                        refreshToken := Some ada_refresh_token |};
     body := [] |}.

End Toy.

(** ** The name and e-mail rules, stated on the code units *)

(** An ASCII letter. *)
Definition is_letter (c : N) : bool := is_lower c || is_upper c.

(** Four white-space characters in a row. *)
Definition has_space_run (name : jsstring) : Prop :=
  exists before a b c d after,
    name = before ++ [a; b; c; d] ++ after
    /\ is_space a = true /\ is_space b = true
    /\ is_space c = true /\ is_space d = true.

Record name_rules (name : jsstring) : Prop := {
  name_length : 2 <= length name <= 50;
  name_chars :
    Forall (fun c => is_letter c = true \/ is_space c = true
                     \/ c = 39%N \/ c = 45%N) name;
  name_first : exists c rest, name = c :: rest /\ is_letter c = true;
  name_last : exists init c, name = init ++ [c] /\ is_letter c = true;
  name_spaces : ~ has_space_run name
}.

(** [s] neither starts nor ends with the code unit [c]. *)
Definition no_edge (c : N) (s : jsstring) : Prop :=
  (forall rest, s <> c :: rest) /\ (forall init, s <> init ++ [c]).

(** One "@"; at most 64 code units before it, not starting or ending with
    a dot and without two dots in a row; at most 253 after it, not
    starting or ending with a hyphen. *)
Definition email_rules (email : jsstring) : Prop :=
  exists localPart domain,
    email = localPart ++ 64%N :: domain
    /\ ~ In 64%N localPart /\ ~ In 64%N domain
    /\ length localPart <= 64
    /\ no_edge 46 localPart
    /\ ~ (exists before after, localPart = before ++ [46; 46]%N ++ after)
    /\ length domain <= 253
    /\ no_edge 45 domain.

(** ** storage.ts: the planner, the classes and the grade points

    Each table is the list of its rows.  [ORDER BY column DESC] is an
    insertion sort; the order among rows with equal keys, which SQL leaves
    open, is the table order here.  No property below depends on it: what
    is said of a sorted answer is said of its rows, of its being sorted,
    or of every answer the database may give ([may_answer]). *)

Fixpoint insert_desc {A} (key : A -> Z) (row : A) (sorted : list A)
  : list A :=
  match sorted with
  | [] => [row]
  | r :: rest =>
      if (key r <=? key row)%Z then row :: sorted
      else r :: insert_desc key row rest
  end.

Definition orderBy_desc {A} (key : A -> Z) (rows : list A) : list A :=
  fold_right (insert_desc key) [] rows.

(** A row of the tasks table; [completed] and [notes] are nullable. *)
Module Task.
Record t := {
  id : jsstring;
  userId : jsstring;
  title : jsstring;
  type : jsstring;
  dueAt : Z;
  completed : option bool;
  notes : option jsstring
}.
End Task.

(** SQL [column = value] on a nullable boolean column: NULL equals
    nothing. *)
Definition sql_eq (column : option bool) (value : bool) : bool :=
  match column with
  | Some b => Bool.eqb b value
  | None => false
  end.

(** [filter] is [undefined] when the query string has none; the default
    of the parameter is then 'all'. *)
Definition getTasks (userId : jsstring) (filter : option jsstring)
  (tasks : list Task.t) : list Task.t :=
  let filter := match filter with
                | Some f => f
                | None => js "all"
                end in
  let baseQuery := fun where_ =>
    orderBy_desc Task.dueAt (List.filter where_ tasks) in
  if str_eqb filter (js "pending") then
    baseQuery (fun task => str_eqb (Task.userId task) userId
                           && sql_eq (Task.completed task) false)
  else if str_eqb filter (js "completed") then
    baseQuery (fun task => str_eqb (Task.userId task) userId
                           && sql_eq (Task.completed task) true)
  else
    baseQuery (fun task => str_eqb (Task.userId task) userId).

(** The result and the table after the [delete]. *)
Definition deleteTask (id userId : jsstring) (tasks : list Task.t)
  : bool * list Task.t :=
  let where_ := fun task =>
    str_eqb (Task.id task) id && str_eqb (Task.userId task) userId in
  let rowCount := length (List.filter where_ tasks) in
  (0 <? rowCount, List.filter (fun task => negb (where_ task)) tasks).

(** tools-sidebar: the client filters the tasks it fetched by the
    truthiness of [task.completed]. *)
Definition filteredTasks (taskFilter : jsstring) (tasks : list Task.t)
  : list Task.t :=
  List.filter
    (fun task =>
       let completed := match Task.completed task with
                        | Some b => b
                        | None => false
                        end in
       if str_eqb taskFilter (js "pending") then negb completed
       else if str_eqb taskFilter (js "completed") then completed
       else true)
    tasks.

(** A row of the classes table; [description] and [participants] are
    nullable. *)
Module Class.
Record t := {
  id : jsstring;
  teacherId : jsstring;
  title : jsstring;
  description : option jsstring;
  meetingLink : jsstring;
  startsAt : Z;
  durationMins : Z;
  participants : option (list jsstring)
}.
End Class.

(** [array.includes(x)] on strings *)
Definition includes (x : jsstring) (array : list jsstring) : bool :=
  existsb (str_eqb x) array.

(** [participants || []] *)
Definition or_empty (participants : option (list jsstring))
  : list jsstring :=
  match participants with
  | Some l => l
  | None => []
  end.

Definition getClasses (userId : jsstring) (classes : list Class.t)
  : list Class.t :=
  let allClasses := orderBy_desc Class.startsAt classes in
  List.filter
    (fun cls => str_eqb (Class.teacherId cls) userId
                || includes userId (or_empty (Class.participants cls)))
    allClasses.

(** [.set({ participants })] on a row. *)
Definition set_participants (participants : list jsstring) (cls : Class.t)
  : Class.t :=
  {| Class.id := Class.id cls;
     Class.teacherId := Class.teacherId cls;
     Class.title := Class.title cls;
     Class.description := Class.description cls;
     Class.meetingLink := Class.meetingLink cls;
     Class.startsAt := Class.startsAt cls;
     Class.durationMins := Class.durationMins cls;
     Class.participants := Some participants |}.

(** The result and the table after the call. *)
Definition joinClass (classId userId : jsstring) (classes : list Class.t)
  : bool * list Class.t :=
  match find (fun cls => str_eqb (Class.id cls) classId) classes with
  | None => (false, classes)
  | Some classData =>
      if includes userId (or_empty (Class.participants classData))
      then (false, classes)
      else
        let updatedParticipants :=
          or_empty (Class.participants classData) ++ [userId] in
        (true,
         map (fun cls => if str_eqb (Class.id cls) classId
                         then set_participants updatedParticipants cls
                         else cls)
             classes)
  end.

(** A finite JavaScript number is a rational, and its comparisons with
    the integer thresholds are exact. *)
Definition number : Set := QArith_base.Q.

(** [a >= b] on finite numbers *)
Definition number_ge (a b : number) : bool := QArith_base.Qle_bool b a.

Definition of_int (z : Z) : number := QArith_base.inject_Z z.

(** The grade points of a subject: 4.0, 3.0, 2.0, 1.0 or 0.0. *)
Definition calculateSubjectGPA (marks : number) : Z :=
  if number_ge marks (of_int 80) then 4
  else if number_ge marks (of_int 70) then 3
  else if number_ge marks (of_int 60) then 2
  else if number_ge marks (of_int 50) then 1
  else 0.

(** GPAPage: the label next to the marks field. *)
Definition getGradeFromMarks (marks : number) : string :=
  (if number_ge marks (of_int 80) then "A (4.0)"
   else if number_ge marks (of_int 70) then "B (3.0)"
   else if number_ge marks (of_int 60) then "C (2.0)"
   else if number_ge marks (of_int 50) then "D (1.0)"
   else "F (0.0)")%string.

(** The label of each number of grade points. *)
Definition grade_label (points : Z) : string :=
  match points with
  | 4%Z => "A (4.0)"%string
  | 3%Z => "B (3.0)"%string
  | 2%Z => "C (2.0)"%string
  | 1%Z => "D (1.0)"%string
  | _ => "F (0.0)"%string
  end.

(** ** The client's form state *)

(** tools-sidebar: [toggleInterest] applied to the selection [prev]. *)
Definition toggleInterest (interest : jsstring) (prev : list jsstring)
  : list jsstring :=
  if includes interest prev
  then List.filter (fun i => negb (str_eqb i interest)) prev
  else prev ++ [interest].

(** GPAPage: a subject row of the semester form. *)
Module Subject.
Record t := {
  name : jsstring;
  marks : number;
  creditHours : number
}.
End Subject.

(** The row the form starts with and [addSubject] appends. *)
Definition blank_subject : Subject.t :=
  {| Subject.name := [];
     Subject.marks := of_int 0;
     Subject.creditHours := of_int 1 |}.

Definition addSubject (subjects : list Subject.t) : list Subject.t :=
  subjects ++ [blank_subject].

(** [array.filter((_, i) => i !== index)] *)
Fixpoint remove_at {A} (index : nat) (l : list A) {struct l} : list A :=
  match l, index with
  | [], _ => []
  | _ :: l', 0 => l'
  | x :: l', S i => x :: remove_at i l'
  end.

Definition removeSubject (index : nat) (subjects : list Subject.t)
  : list Subject.t :=
  if 1 <? length subjects then remove_at index subjects else subjects.

(** [array.map((x, i) => i === index ? f(x) : x)] *)
Fixpoint map_at {A} (index : nat) (f : A -> A) (l : list A) {struct l}
  : list A :=
  match l, index with
  | [], _ => []
  | x :: l', 0 => f x :: l'
  | x :: l', S i => x :: map_at i f l'
  end.

(** [updateSubject(index, field, value)], with the field update as a
    function on the row. *)
Definition updateSubject (index : nat) (set_field : Subject.t -> Subject.t)
  (subjects : list Subject.t) : list Subject.t :=
  map_at index set_field subjects.

(** The states of the subject list the form reaches. *)
Inductive form_state : list Subject.t -> Prop :=
| form_initial : form_state [blank_subject]
| form_add subjects :
    form_state subjects -> form_state (addSubject subjects)
| form_remove index subjects :
    form_state subjects -> form_state (removeSubject index subjects)
| form_update index set_field subjects :
    form_state subjects ->
    form_state (updateSubject index set_field subjects).

(** [name.trim()] is not empty: some character is not white space. *)
Definition trimmed_nonempty (name : jsstring) : bool :=
  existsb (fun c => negb (is_space c)) name.

(** [handleSubmit]: the subjects that are sent. *)
Definition validSubjects (subjects : list Subject.t) : list Subject.t :=
  List.filter
    (fun s => trimmed_nonempty (Subject.name s)
              && number_ge (Subject.marks s) (of_int 0)
              && number_ge (of_int 100) (Subject.marks s)
              && negb (number_ge (of_int 0) (Subject.creditHours s)))
    subjects.

(** routes: the marks check of POST /api/gpa/semester; [true] when the
    loop finds a subject to refuse. *)
Definition marks_refused (subjects : list Subject.t) : bool :=
  existsb (fun subject =>
             negb (number_ge (Subject.marks subject) (of_int 0))
             || negb (number_ge (of_int 100) (Subject.marks subject)))
          subjects.

(** ** Notions used to state the properties of the planner and the
    classes *)

(** Largest key first. *)
Definition descending {A} (key : A -> Z) : list A -> Prop :=
  StronglySorted (fun a b => (key b <= key a)%Z).

(** An answer the database may give to a query that the model answers
    with [listed]: the same rows, largest key first, in any order among
    rows with equal keys. *)
Definition may_answer {A} (key : A -> Z) (listed answer : list A) : Prop :=
  Permutation listed answer /\ descending key answer.

(** The rows a call of [getTasks] asks for. *)
Definition task_selected (userId : jsstring) (filter : option jsstring)
  (task : Task.t) : Prop :=
  Task.userId task = userId
  /\ (filter = Some (js "pending") -> Task.completed task = Some false)
  /\ (filter = Some (js "completed") -> Task.completed task = Some true).

(** The row [deleteTask] aims at. *)
Definition task_targeted (id userId : jsstring) (task : Task.t) : Prop :=
  Task.id task = id /\ Task.userId task = userId.

(** [userId] is among the participants of the class. *)
Definition participates (userId : jsstring) (cls : Class.t) : Prop :=
  In userId (or_empty (Class.participants cls)).

(** ** routes: the study assistant

    The handler of POST /api/ai/chat after [requireAuth] set [req.user].
    The language model, the id default of the chat_sessions table and
    [toISOString] are arguments of the model; [sessionId] and [message]
    are the string fields of the body. *)

Inductive ChatRole := role_user | role_assistant.

Module ChatMessage.
Record t := {
  role : ChatRole;
  content : jsstring;
  timestamp : jsstring
}.
End ChatMessage.

(** A row of the chat_sessions table. *)
Module ChatSession.
Record t := {
  id : jsstring;
  userId : jsstring;
  title : jsstring;
  messages : list ChatMessage.t;
  updatedAt : Z
}.
End ChatSession.

Definition sessionMatches (id userId : jsstring) (row : ChatSession.t)
  : bool :=
  str_eqb (ChatSession.id row) id && str_eqb (ChatSession.userId row) userId.

Definition getChatSession (id userId : jsstring)
  (chatSessions : list ChatSession.t) : option ChatSession.t :=
  find (sessionMatches id userId) chatSessions.

Definition getChatSessions (userId : jsstring)
  (chatSessions : list ChatSession.t) : list ChatSession.t :=
  orderBy_desc ChatSession.updatedAt
    (List.filter (fun row => str_eqb (ChatSession.userId row) userId)
                 chatSessions).

(** The insert: [newId] and [now] are the defaults of the id and
    updatedAt columns. *)
Definition createChatSession (newId : jsstring) (now : Z)
  (userId title : jsstring) (messages : list ChatMessage.t)
  (chatSessions : list ChatSession.t)
  : ChatSession.t * list ChatSession.t :=
  let session := {| ChatSession.id := newId;
                    ChatSession.userId := userId;
                    ChatSession.title := title;
                    ChatSession.messages := messages;
                    ChatSession.updatedAt := now |} in
  (session, chatSessions ++ [session]).

(** [.set({ messages, updatedAt: new Date() })], the update the chat
    route asks for. *)
Definition updateChatSession (id userId : jsstring)
  (messages : list ChatMessage.t) (now : Z)
  (chatSessions : list ChatSession.t) : list ChatSession.t :=
  map (fun row =>
         if sessionMatches id userId row
         then {| ChatSession.id := ChatSession.id row;
                 ChatSession.userId := ChatSession.userId row;
                 ChatSession.title := ChatSession.title row;
                 ChatSession.messages := messages;
                 ChatSession.updatedAt := now |}
         else row)
      chatSessions.

(** [array.slice(-n)]: the last [n] elements. *)
Definition slice_last {A} (n : nat) (array : list A) : list A :=
  skipn (length array - n) array.

(** [message.slice(0, 50) + (message.length > 50 ? '...' : '')] *)
Definition chatTitle (message : jsstring) : jsstring :=
  firstn 50 message ++ (if 50 <? length message then js "..." else []).

Definition message_json (m : ChatMessage.t) : Json :=
  JObject [("role"%string,
            JString (js match ChatMessage.role m with
                        | role_user => "user"
                        | role_assistant => "assistant"
                        end));
           ("content"%string, JString (ChatMessage.content m));
           ("timestamp"%string, JString (ChatMessage.timestamp m))].

(** [res.status(s).json({ message })] *)
Definition message_response (s : nat) (message : string) : Response :=
  {| status := s;
     json := JObject [("message"%string, JString (js message))];
     setCookies := [] |}.

(** POST /api/ai/chat *)
Definition post_api_ai_chat
  (getChatResponse : jsstring -> list ChatMessage.t -> jsstring)
  (newId : jsstring) (toISOString : Z -> jsstring) (now : Z)
  (userId : jsstring) (body : list (string * jsstring))
  (chatSessions : list ChatSession.t)
  : Response * list ChatSession.t :=
  let sessionId := body_field "sessionId" body in
  let message := body_field "message" body in
  match message with
  | Some ((_ :: _) as message) =>
      let found :=
        match sessionId with
        | Some ((_ :: _) as sessionId) =>
            match getChatSession sessionId userId chatSessions with
            | Some session => Some (session, chatSessions)
            | None => None
            end
        | _ =>
            (* Create new session *)
            Some (createChatSession newId now userId (chatTitle message) []
                                    chatSessions)
        end in
      match found with
      | None => (message_response 404 "Chat session not found", chatSessions)
      | Some (session, chatSessions) =>
          (* Last 10 messages for context *)
          let conversationHistory :=
            slice_last 10 (ChatSession.messages session) in
          let aiResponse := getChatResponse message conversationHistory in
          let updatedMessages :=
            ChatSession.messages session
            ++ [{| ChatMessage.role := role_user;
                   ChatMessage.content := message;
                   ChatMessage.timestamp := toISOString now |};
                {| ChatMessage.role := role_assistant;
                   ChatMessage.content := aiResponse;
                   ChatMessage.timestamp := toISOString now |}] in
          let chatSessions :=
            updateChatSession (ChatSession.id session) userId updatedMessages
                              now chatSessions in
          ({| status := 200;
              json := JObject
                        [("sessionId"%string,
                          JString (ChatSession.id session));
                         ("reply"%string, JString aiResponse);
                         ("messages"%string,
                          JArray (map message_json updatedMessages))];
              setCookies := [] |}, chatSessions)
      end
  | _ => (message_response 400 "Message is required", chatSessions)
  end.

(** ** Sample rows

    Concrete requests and rows of the other tables, to run the model on
    examples. *)

Module Sample.

(** The claims of the refresh token minted for Ada at 1000000 ms with
    the random bytes of [Toy.entropy], and an opener that knows this one
    token. *)
Definition minted_refresh : RefreshTokenPayload.t :=
  {| RefreshTokenPayload.userId := js "user-";
     RefreshTokenPayload.tokenId := toHex (randomBytes Toy.entropy 32);
     RefreshTokenPayload.iat := Some 1000%Z;
     RefreshTokenPayload.exp := Some 605800%Z |}.

Definition open_minted_refresh (token : jsstring)
  : option RefreshTokenPayload.t :=
  if str_eqb token (Toy.jwt_sign_refresh minted_refresh)
  then Some minted_refresh else None.

(** A server in whose zone the clocks go forward an hour during the
    week: seven calendar days are an hour short of seven days of 24
    hours. *)
Definition short_week (now : Z) : Z := (now + 7 * 24 * 60 * 60 * 1000 - 3600000)%Z.

(** A registration whose confirmation differs from the password. *)
Definition mismatch_request : Request :=
  {| authorization := None;
     cookies := Some Toy.no_cookies;
     body := [("name"%string, js "Ada Lovelace");
              ("email"%string, js "ada@example.com");
              ("password"%string, js "Str0ng!Pass9");
              ("confirmPassword"%string, js "Str0ng!Pass8")] |}.

Definition task (id userId : string) (dueAt : Z) (completed : option bool)
  : Task.t :=
  {| Task.id := js id; Task.userId := js userId;
     Task.title := js "Read chapter 3"; Task.type := js "assignment";
     Task.dueAt := dueAt; Task.completed := completed;
     Task.notes := None |}.

(** Three tasks of u1, one of them with a NULL [completed], and one task
    of u2. *)
Definition undecided : Task.t := task "t3" "u1" 400 None.

Definition tasks : list Task.t :=
  [task "t1" "u1" 300 (Some false); task "t2" "u1" 500 (Some true);
   undecided; task "t4" "u2" 100 (Some false)].

(** A class of teacher u9 with one participant. *)
Definition classes : list Class.t :=
  [{| Class.id := js "c1"; Class.teacherId := js "u9";
      Class.title := js "Algebra"; Class.description := None;
      Class.meetingLink := js "https://meet.example.com/c1";
      Class.startsAt := 5000; Class.durationMins := 60;
      Class.participants := Some [js "u1"] |}].

(** A chat session of u1. *)
Definition chatSessions : list ChatSession.t :=
  [{| ChatSession.id := js "s1"; ChatSession.userId := js "u1";
      ChatSession.title := js "Hello"; ChatSession.messages := [];
      ChatSession.updatedAt := 1000 |}].

Definition getChatResponse (message : jsstring)
  (history : list ChatMessage.t) : jsstring := js "ok".

Definition toISOString (now : Z) : jsstring := js "1970-01-01T00:16:40.000Z".

End Sample.

(** ** storage.ts: the token and user operations

    A [select] returns the matching rows in table order and the code takes
    the first; a [delete] removes every matching row; an [insert] adds the
    row at the end. *)

Definition getUser (id : jsstring) (db : Database) : option User.t :=
  find (fun u => str_eqb (User.id u) id) (users db).

Definition getUserByEmail (email : jsstring) (db : Database)
  : option User.t :=
  find (fun u => str_eqb (User.email u) email) (users db).

Definition createRefreshToken (tokenData : RefreshToken.t) (db : Database)
  : Database :=
  {| users := users db;
     refreshTokens := refreshTokens db ++ [tokenData];
     blacklistedTokens := blacklistedTokens db |}.

Definition refreshTokenMatches (tokenId userId : jsstring)
  (row : RefreshToken.t) : bool :=
  str_eqb (RefreshToken.token row) tokenId
  && str_eqb (RefreshToken.userId row) userId.

Definition getRefreshToken (tokenId userId : jsstring) (db : Database)
  : option RefreshToken.t :=
  find (refreshTokenMatches tokenId userId) (refreshTokens db).

Module storage.

Definition revokeRefreshToken (tokenId userId : jsstring) (db : Database)
  : Database :=
  {| users := users db;
     refreshTokens :=
       filter (fun row => negb (refreshTokenMatches tokenId userId row))
              (refreshTokens db);
     blacklistedTokens := blacklistedTokens db |}.

Definition revokeAllRefreshTokens (userId : jsstring) (db : Database)
  : Database :=
  {| users := users db;
     refreshTokens :=
       filter (fun row => negb (str_eqb (RefreshToken.userId row) userId))
              (refreshTokens db);
     blacklistedTokens := blacklistedTokens db |}.

Definition blacklistToken (tokenData : BlacklistedToken.t) (db : Database)
  : Database :=
  {| users := users db;
     refreshTokens := refreshTokens db;
     blacklistedTokens := blacklistedTokens db ++ [tokenData] |}.

Definition isTokenBlacklisted (token : jsstring) (db : Database) : bool :=
  match find (fun row => str_eqb (BlacklistedToken.token row) token)
             (blacklistedTokens db) with
  | Some _ => true
  | None => false
  end.

Definition cleanupExpiredTokens (now : Z) (db : Database) : Database :=
  {| users := users db;
     refreshTokens :=
       filter (fun row => negb (RefreshToken.expiresAt row <? now)%Z)
              (refreshTokens db);
     blacklistedTokens :=
       filter (fun row => negb (BlacklistedToken.expiresAt row <? now)%Z)
              (blacklistedTokens db) |}.

End storage.

Section Server.

Set Default Proof Using "Type".

(** *** The libraries the server calls

    [jsonwebtoken], Node's [scrypt], zod's e-mail pattern and the id
    default of the users table are not code of the repository: they are
    parameters of the model. *)

(** The payload of a well-formed token whose signature verifies under
    [JWT_SECRET], respectively [REFRESH_SECRET]; [None] for any other
    string. *)
Variable jwt_open_access : jsstring -> option JWTPayload.t.
Variable jwt_open_refresh : jsstring -> option RefreshTokenPayload.t.

(** [jwt.sign(payload, JWT_SECRET)] and [jwt.sign(payload, REFRESH_SECRET)]
    on a payload that already carries [iat] and [exp]. *)
Variable jwt_sign_access : JWTPayload.t -> jsstring.
Variable jwt_sign_refresh : RefreshTokenPayload.t -> jsstring.

(** [scrypt(password, salt, keylen)]: a key of [keylen] bytes. *)
Variable scrypt : jsstring -> jsstring -> nat -> Buffer.
Hypothesis scrypt_length :
  forall password salt keylen, length (scrypt password salt keylen) = keylen.

(** zod's [.email()] check. *)
Variable zod_email : jsstring -> bool.

(** The id the users table gives to a new row. *)
Variable newUserId : Database -> jsstring.

(** [d.setDate(d.getDate() + 7)] on the instant [d]: the same local time
    seven calendar days later, in the time zone of the server.  The
    calendar and the rules of the zone are the runtime's; the result is
    seven days of 24 hours later unless the local clock changes in
    between. *)
Variable sevenDaysLater : Z -> Z.

Definition createUser (insertUser : InsertUser.t) (db : Database)
  : User.t * Database :=
  let user := {| User.id := newUserId db;
                 User.name := InsertUser.name insertUser;
                 User.email := InsertUser.email insertUser;
                 User.password := InsertUser.password insertUser;
                 User.role := InsertUser.role insertUser |} in
  (user, {| users := users db ++ [user];
            refreshTokens := refreshTokens db;
            blacklistedTokens := blacklistedTokens db |}).

(** *** jwt.ts *)

(** The clock of [jsonwebtoken]: [Math.floor(Date.now() / 1000)]. *)
Definition clockTimestamp (now : Z) : Z := (now / 1000)%Z.

(** [jwt.verify(token, secret)]: the signature, then the [exp] claim when
    the payload has one. *)
Definition jwt_verify {P : Type} (open : jsstring -> option P)
  (exp : P -> option Z) (now : Z) (token : jsstring) : result P :=
  match open token with
  | None => Throw JsonWebTokenError
  | Some payload =>
      match exp payload with
      | Some e => if (e <=? clockTimestamp now)%Z
                  then Throw TokenExpiredError else Ok payload
      | None => Ok payload
      end
  end.

(** [expiresIn: "15m"] and [expiresIn: "7d"], in seconds. *)
Definition ACCESS_TOKEN_EXPIRES_IN : Z := 15 * 60.
Definition REFRESH_TOKEN_EXPIRES_IN : Z := 7 * 24 * 60 * 60.

Definition generateAccessToken (now : Z) (user : User.t) : jsstring :=
  jwt_sign_access
    {| JWTPayload.userId := User.id user;
       JWTPayload.email := User.email user;
       JWTPayload.role := User.role user;
       JWTPayload.iat := Some (clockTimestamp now);
       JWTPayload.exp :=
         Some (clockTimestamp now + ACCESS_TOKEN_EXPIRES_IN)%Z |}.

(** The expiry of the record is seven calendar days from now, the [exp]
    claim of the token seven days of 24 hours. *)
Definition generateRefreshToken (e : Entropy) (now : Z) (userId : jsstring)
  (db : Database) : (jsstring * jsstring) * Database :=
  let tokenId := toHex (randomBytes e 32) in
  let expiresAt := sevenDaysLater now in
  let token :=
    jwt_sign_refresh
      {| RefreshTokenPayload.userId := userId;
         RefreshTokenPayload.tokenId := tokenId;
         RefreshTokenPayload.iat := Some (clockTimestamp now);
         RefreshTokenPayload.exp :=
           Some (clockTimestamp now + REFRESH_TOKEN_EXPIRES_IN)%Z |} in
  let db := createRefreshToken
              {| RefreshToken.userId := userId;
                 RefreshToken.token := tokenId;
                 RefreshToken.expiresAt := expiresAt |} db in
  ((token, tokenId), db).

Definition verifyAccessToken (now : Z) (token : jsstring)
  : option JWTPayload.t :=
  catch (payload <- jwt_verify jwt_open_access JWTPayload.exp now token ;;
         Ok (Some payload))
        (fun error => None).

Definition verifyRefreshToken (now : Z) (token : jsstring) (db : Database)
  : option RefreshTokenPayload.t :=
  catch (payload <- jwt_verify jwt_open_refresh RefreshTokenPayload.exp
                               now token ;;
         let storedToken :=
           getRefreshToken (RefreshTokenPayload.tokenId payload)
                           (RefreshTokenPayload.userId payload) db in
         match storedToken with
         | None => Ok None
         | Some row =>
             if (RefreshToken.expiresAt row <? now)%Z then Ok None
             else Ok (Some payload)
         end)
        (fun error => None).

(** [if (payload.exp)]: the claim is there and is not 0. *)
Definition blacklistToken (now : Z) (token : jsstring) (db : Database)
  : Database :=
  catch (payload <- jwt_verify jwt_open_access JWTPayload.exp now token ;;
         match JWTPayload.exp payload with
         | Some exp =>
             if (exp =? 0)%Z then Ok db
             else
               let expiresAt := (exp * 1000)%Z in
               Ok (storage.blacklistToken
                     {| BlacklistedToken.token := token;
                        BlacklistedToken.expiresAt := expiresAt |} db)
         | None => Ok db
         end)
        (fun error => db).

Definition isTokenBlacklisted (token : jsstring) (db : Database) : bool :=
  storage.isTokenBlacklisted token db.

Definition revokeRefreshToken (tokenId userId : jsstring) (db : Database)
  : Database :=
  storage.revokeRefreshToken tokenId userId db.

Definition revokeAllRefreshTokens (userId : jsstring) (db : Database)
  : Database :=
  storage.revokeAllRefreshTokens userId db.

Definition cleanupExpiredTokens (now : Z) (db : Database) : Database :=
  storage.cleanupExpiredTokens now db.

(** *** jwt-auth: the password hasher *)

(** [scryptAsync(password, salt, keylen)]; a salt that is [undefined] is
    refused with a TypeError. *)
Definition scryptAsync (password : jsstring) (salt : option jsstring)
  (keylen : nat) : result Buffer :=
  match salt with
  | Some salt => Ok (scrypt password salt keylen)
  | None => Throw TypeError
  end.

Definition hashPassword (e : Entropy) (password : jsstring)
  : result jsstring :=
  let salt := toHex (randomBytes e 16) in
  buf <- scryptAsync password (Some salt) 64 ;;
  Ok (toHex buf ++ js "." ++ salt).

Definition comparePasswords (supplied stored : jsstring) : result bool :=
  let parts := split 46 stored in
  let hashed := nth 0 parts [] in
  let salt := nth_error parts 1 in
  let hashedBuf := fromHex hashed in
  suppliedBuf <- scryptAsync supplied salt 64 ;;
  timingSafeEqual hashedBuf suppliedBuf.

(** *** password-validation: the object schemas *)

Definition emailValidationSchema (email : jsstring) : list string :=
  check (zod_email email) "Please enter a valid email address"
  ++ check (5 <=? length email) "Email must be at least 5 characters long"
  ++ check (length email <=? 254) "Email must not exceed 254 characters"
  ++ check (emailRefinement email) "Email format is not valid".

(** The refinement of the registration object runs when every field is a
    string, also when a field has issues of its own. *)
Definition registrationValidationSchema (b : list (string * jsstring))
  : SafeParse RegistrationData :=
  let fields :=
    field_issues "name" nameValidationSchema (body_field "name" b)
    ++ field_issues "email" emailValidationSchema (body_field "email" b)
    ++ field_issues "password" passwordValidationSchema
                    (body_field "password" b)
    ++ field_issues "confirmPassword" (fun _ => [])
                    (body_field "confirmPassword" b) in
  match body_field "name" b, body_field "email" b,
        body_field "password" b, body_field "confirmPassword" b with
  | Some name, Some email, Some password, Some confirmPassword =>
      let issues :=
        fields ++ (if str_eqb password confirmPassword then []
                   else [("confirmPassword"%string,
                          "Passwords do not match"%string)]) in
      if no_issues issues
      then ParseSuccess {| reg_name := name; reg_email := email;
                           reg_password := password;
                           reg_confirmPassword := confirmPassword |}
      else ParseFailure issues
  | _, _, _, _ => ParseFailure fields
  end.

Definition loginValidationSchema (b : list (string * jsstring))
  : SafeParse LoginData :=
  let issues :=
    field_issues "email" emailValidationSchema (body_field "email" b)
    ++ field_issues "password"
         (fun p => check (1 <=? length p) "Password is required")
         (body_field "password" b) in
  match body_field "email" b, body_field "password" b with
  | Some email, Some password =>
      if no_issues issues
      then ParseSuccess {| login_email := email;
                           login_password := password |}
      else ParseFailure issues
  | _, _ => ParseFailure issues
  end.

(** *** jwt-auth: the middleware

    The storage calls of the model do not fail, so the [catch] branches
    that answer a failing database (AUTH_ERROR and the like) have no
    counterpart; the rate limiters in front of the routes are left out. *)

(** [authHeader && authHeader.split(' ')[1]] *)
Definition bearer (authHeader : option jsstring) : option jsstring :=
  match authHeader with
  | Some ((_ :: _) as h) => nth_error (split 32 h) 1
  | _ => authHeader
  end.

Definition authenticateToken (now : Z) (req : Request) (db : Database)
  : Gate :=
  let authHeader := authorization req in
  let token := bearer authHeader in
  let cookieToken := cookie accessToken req in
  let finalToken := js_or token cookieToken in
  match finalToken with
  | Some ((_ :: _) as finalToken) =>
      if isTokenBlacklisted finalToken db
      then Reject (error_response 401 "Token has been revoked"
                                  "TOKEN_REVOKED")
      else
        match verifyAccessToken now finalToken with
        | None => Reject (error_response 401 "Invalid or expired token"
                                         "TOKEN_INVALID")
        | Some payload =>
            match getUser (JWTPayload.userId payload) db with
            | None => Reject (error_response 401 "User not found"
                                             "USER_NOT_FOUND")
            | Some user => Next user
            end
        end
  | _ => Reject (error_response 401 "Access token is required"
                                "TOKEN_MISSING")
  end.

(** [optionalAuth] always calls [next()]; the result is [req.user]. *)
Definition optionalAuth (now : Z) (req : Request) (db : Database)
  : option User.t :=
  let authHeader := authorization req in
  let token := bearer authHeader in
  let cookieToken := cookie accessToken req in
  let finalToken := js_or token cookieToken in
  match finalToken with
  | Some ((_ :: _) as finalToken) =>
      let isBlacklisted := isTokenBlacklisted finalToken db in
      if negb isBlacklisted then
        match verifyAccessToken now finalToken with
        | Some payload => getUser (JWTPayload.userId payload) db
        | None => None
        end
      else None
  | _ => None
  end.

(** *** jwt-auth: the routes

    A handler maps the request and the tables to the response and the
    tables after it. *)

Definition strength_name (s : Strength) : string :=
  match s with
  | very_weak => "very-weak"
  | weak => "weak"
  | fair => "fair"
  | good => "good"
  | strong => "strong"
  end.

(** The answer of the registration route to a password that scores
    very-weak or weak. *)
Definition password_too_weak (strengthAnalysis : PasswordStrength)
  : Response :=
  {| status := 400;
     json :=
       JObject
         [("error"%string, JString (js "Password is too weak"));
          ("feedback"%string,
           JArray (map (fun f => JString (js f))
                       (feedback strengthAnalysis)));
          ("strength"%string,
           JString (js (strength_name (strength strengthAnalysis))))];
     setCookies := [] |}.

(** POST /api/register *)
Definition post_api_register (e : Entropy) (now : Z) (req : Request)
  (db : Database) : Response * Database :=
  catch
    (match registrationValidationSchema (body req) with
     | ParseFailure issues =>
         Ok ({| status := 400;
                json := JObject [("error"%string,
                                  JString (js "Validation failed"));
                                 ("details"%string, details issues)];
                setCookies := [] |}, db)
     | ParseSuccess data =>
         let name := reg_name data in
         let email := reg_email data in
         let password := reg_password data in
         match getUserByEmail email db with
         | Some existingUser =>
             Ok (error_response 409 "Email already registered"
                                "EMAIL_EXISTS", db)
         | None =>
             let strengthAnalysis := calculatePasswordStrength password in
             match strength strengthAnalysis with
             | very_weak | weak =>
                 Ok (password_too_weak strengthAnalysis, db)
             | _ =>
                 hashedPassword <- hashPassword e password ;;
                 let '(user, db) :=
                   createUser {| InsertUser.name := name;
                                 InsertUser.email := email;
                                 InsertUser.password := hashedPassword;
                                 InsertUser.role := js "student" |} db in
                 let accessToken := generateAccessToken now user in
                 let '((refreshToken, _), db) :=
                   generateRefreshToken (drawn 16 e) now (User.id user) db in
                 Ok ({| status := 201;
                        json :=
                          JObject
                            [("user"%string, userWithoutPassword user);
                             ("message"%string,
                              JString (js "Account created successfully"))];
                        setCookies :=
                          setTokenCookies accessToken refreshToken |}, db)
             end
         end
     end)
    (fun error =>
       (error_response 500 "Internal server error" "REGISTRATION_ERROR",
        db)).

(** POST /api/login *)
Definition post_api_login (e : Entropy) (now : Z) (req : Request)
  (db : Database) : Response * Database :=
  catch
    (match loginValidationSchema (body req) with
     | ParseFailure issues =>
         Ok ({| status := 400;
                json := JObject [("error"%string,
                                  JString (js "Invalid input"));
                                 ("details"%string, details issues)];
                setCookies := [] |}, db)
     | ParseSuccess data =>
         let email := login_email data in
         let password := login_password data in
         match getUserByEmail email db with
         | None =>
             Ok (error_response 401 "Invalid credentials"
                                "INVALID_CREDENTIALS", db)
         | Some user =>
             isPasswordValid <- comparePasswords password
                                                 (User.password user) ;;
             if negb isPasswordValid
             then Ok (error_response 401 "Invalid credentials"
                                     "INVALID_CREDENTIALS", db)
             else
               let accessToken := generateAccessToken now user in
               let '((refreshToken, _), db) :=
                 generateRefreshToken e now (User.id user) db in
               Ok ({| status := 200;
                      json :=
                        JObject
                          [("user"%string, userWithoutPassword user);
                           ("message"%string,
                            JString (js "Login successful"))];
                      setCookies :=
                        setTokenCookies accessToken refreshToken |}, db)
         end
     end)
    (fun error =>
       (error_response 500 "Internal server error" "LOGIN_ERROR", db)).

(** [clearTokenCookies(res)] before the answer. *)
Definition clearing (res : Response) : Response :=
  {| status := status res; json := json res;
     setCookies := clearTokenCookies |}.

(** POST /api/refresh *)
Definition post_api_refresh (e : Entropy) (now : Z) (req : Request)
  (db : Database) : Response * Database :=
  let refreshToken :=
    js_or (cookie refreshToken req) (body_field "refreshToken" (body req)) in
  match refreshToken with
  | Some ((_ :: _) as refreshToken) =>
      match verifyRefreshToken now refreshToken db with
      | None =>
          (clearing (error_response 401 "Invalid or expired refresh token"
                                    "REFRESH_TOKEN_INVALID"), db)
      | Some payload =>
          match getUser (RefreshTokenPayload.userId payload) db with
          | None =>
              (clearing (error_response 401 "User not found"
                                        "USER_NOT_FOUND"), db)
          | Some user =>
              (* Revoke old refresh token and generate new ones *)
              let db := revokeRefreshToken
                          (RefreshTokenPayload.tokenId payload)
                          (RefreshTokenPayload.userId payload) db in
              let newAccessToken := generateAccessToken now user in
              let '((newRefreshToken, _), db) :=
                generateRefreshToken e now (User.id user) db in
              ({| status := 200;
                  json :=
                    JObject
                      [("user"%string, userWithoutPassword user);
                       ("message"%string,
                        JString (js "Tokens refreshed successfully"))];
                  setCookies :=
                    setTokenCookies newAccessToken newRefreshToken |}, db)
          end
      end
  | _ =>
      (error_response 401 "Refresh token is required"
                      "REFRESH_TOKEN_MISSING", db)
  end.

(** [req.headers.authorization?.split(' ')[1]] *)
Definition bearer_opt (authHeader : option jsstring) : option jsstring :=
  match authHeader with
  | Some h => nth_error (split 32 h) 1
  | None => None
  end.

(** The handler of POST /api/logout, which runs after [authenticateToken]
    called [next()]. *)
Definition logout_handler (now : Z) (req : Request) (db : Database)
  : Response * Database :=
  let accessToken :=
    js_or (cookie accessToken req) (bearer_opt (authorization req)) in
  let refreshToken := cookie refreshToken req in
  (* Blacklist access token if present *)
  let db :=
    match accessToken with
    | Some ((_ :: _) as accessToken) => blacklistToken now accessToken db
    | _ => db
    end in
  (* Revoke refresh token if present *)
  let db :=
    match refreshToken with
    | Some ((_ :: _) as refreshToken) =>
        match verifyRefreshToken now refreshToken db with
        | Some payload =>
            revokeRefreshToken (RefreshTokenPayload.tokenId payload)
                               (RefreshTokenPayload.userId payload) db
        | None => db
        end
    | _ => db
    end in
  ({| status := 200;
      json := JObject [("message"%string,
                        JString (js "Logout successful"))];
      setCookies := clearTokenCookies |}, db).

(** POST /api/logout: [app.post("/api/logout", authenticateToken,
    handler)]. *)
Definition post_api_logout (now : Z) (req : Request) (db : Database)
  : Response * Database :=
  match authenticateToken now req db with
  | Reject res => (res, db)
  | Next user => logout_handler now req db
  end.

(** POST /api/logout-all *)
Definition post_api_logout_all (now : Z) (req : Request) (db : Database)
  : Response * Database :=
  match authenticateToken now req db with
  | Reject res => (res, db)
  | Next user =>
      let userId := User.id user in
      let db := revokeAllRefreshTokens userId db in
      ({| status := 200;
          json := JObject
                    [("message"%string,
                      JString (js "Logged out from all devices successfully"))];
          setCookies := clearTokenCookies |}, db)
  end.

(** *** Notions used to state the properties *)

(** The token a request presents to the middleware: the second word of
    the Authorization header, else the accessToken cookie; none when that
    is undefined or empty. *)
Definition presentedToken (req : Request) : option jsstring :=
  match js_or (bearer (authorization req)) (cookie accessToken req) with
  | Some ((_ :: _) as token) => Some token
  | _ => None
  end.

(** The user a middleware outcome lets through. *)
Definition accepted (g : Gate) : option User.t :=
  match g with
  | Next user => Some user
  | Reject _ => None
  end.

(** Every row of blacklistedTokens is one that [blacklistToken] wrote: its
    token is a signed access token with an [exp] claim, and its expiry is
    that claim in milliseconds. *)
Definition blacklist_written_by_server (db : Database) : Prop :=
  forall row, In row (blacklistedTokens db) ->
    exists payload exp,
      jwt_open_access (BlacklistedToken.token row) = Some payload
      /\ JWTPayload.exp payload = Some exp
      /\ BlacklistedToken.expiresAt row = (exp * 1000)%Z.

(** The stores the server reaches from empty token tables, by its routes
    and the sweep. *)
Inductive reachable : Database -> Prop :=
| reachable_initial (db : Database) :
    refreshTokens db = [] -> blacklistedTokens db = [] -> reachable db
| reachable_register (e : Entropy) (now : Z) (req : Request)
    (db : Database) :
    reachable db -> reachable (snd (post_api_register e now req db))
| reachable_login (e : Entropy) (now : Z) (req : Request) (db : Database) :
    reachable db -> reachable (snd (post_api_login e now req db))
| reachable_refresh (e : Entropy) (now : Z) (req : Request)
    (db : Database) :
    reachable db -> reachable (snd (post_api_refresh e now req db))
| reachable_logout (now : Z) (req : Request) (db : Database) :
    reachable db -> reachable (snd (post_api_logout now req db))
| reachable_logout_all (now : Z) (req : Request) (db : Database) :
    reachable db -> reachable (snd (post_api_logout_all now req db))
| reachable_cleanup (now : Z) (db : Database) :
    reachable db -> reachable (cleanupExpiredTokens now db).




(** The schema declares the token column of refreshTokens unique. *)
Definition refresh_tokens_unique (db : Database) : Prop :=
  NoDup (map RefreshToken.token (refreshTokens db)).

(** The schema declares the email column of users unique. *)
Definition emails_unique (db : Database) : Prop :=
  NoDup (map User.email (users db)).

(** The claims [generateAccessToken] signs at [now]. *)
Definition accessTokenClaims (now : Z) (user : User.t) : JWTPayload.t :=
  {| JWTPayload.userId := User.id user;
     JWTPayload.email := User.email user;
     JWTPayload.role := User.role user;
     JWTPayload.iat := Some (clockTimestamp now);
     JWTPayload.exp := Some (clockTimestamp now + ACCESS_TOKEN_EXPIRES_IN)%Z |}.

(** The claims [generateRefreshToken] signs at [now]. *)
Definition refreshTokenClaims (e : Entropy) (now : Z) (userId : jsstring)
  : RefreshTokenPayload.t :=
  {| RefreshTokenPayload.userId := userId;
     RefreshTokenPayload.tokenId := toHex (randomBytes e 32);
     RefreshTokenPayload.iat := Some (clockTimestamp now);
     RefreshTokenPayload.exp :=
       Some (clockTimestamp now + REFRESH_TOKEN_EXPIRES_IN)%Z |}.

(** The row of the users table that a registration with [data] writes. *)
Definition registeredUser (db : Database) (data : RegistrationData)
  (hashedPassword : jsstring) : User.t :=
  {| User.id := newUserId db;
     User.name := reg_name data;
     User.email := reg_email data;
     User.password := hashedPassword;
     User.role := js "student" |}.

(** ** Properties of the string and pattern combinators *)

Lemma search_true_iff (here : jsstring -> bool) (s : jsstring) :
  search here s = true <->
  exists before after, s = before ++ after /\ here after = true.
Proof.
  induction s as [|c s IH]; simpl.
  - rewrite orb_false_r. split.
    + intros H. exists [], []. auto.
    + intros (before & after & E & H).
      symmetry in E. apply app_eq_nil in E. destruct E; subst. exact H.
  - rewrite orb_true_iff, IH. split.
    + intros [H | (before & after & E & H)].
      * exists [], (c :: s). auto.
      * exists (c :: before), after. subst. auto.
    + intros (before & after & E & H).
      destruct before as [|x before]; simpl in E.
      * left. subst. exact H.
      * right. injection E as -> ->. eauto.
Qed.

Lemma search_one_of (cls : N -> bool) (s : jsstring) :
  search (one_of cls) s = true <-> contains_class cls s.
Proof.
  rewrite search_true_iff. unfold contains_class. split.
  - intros (before & after & -> & H).
    destruct after as [|c after]; [discriminate|].
    exists c. split; [apply in_or_app; right; left; reflexivity | exact H].
  - intros (c & Hin & H).
    apply in_split in Hin. destruct Hin as (l1 & l2 & ->).
    exists l1, (c :: l2). auto.
Qed.

Ltac char_cases :=
  unfold canonicalize, fold_case, letter_index, digit_value,
         is_alnum, is_lower, is_upper, is_digit in *;
  repeat match goal with
         | |- context [(?a <=? ?b)%N] => destruct (N.leb_spec a b)
         | H : context [(?a <=? ?b)%N] |- _ => destruct (N.leb_spec a b)
         end;
  simpl in *.

Lemma canonicalize_eq_iff (x y : N) :
  canonicalize x = canonicalize y <-> same_ignoring_case x y.
Proof.
  unfold same_ignoring_case. char_cases; lia.
Qed.

Lemma lit_i_iff (w s : jsstring) :
  lit_i w s = true <->
  exists mid after, s = mid ++ after /\ Forall2 same_ignoring_case w mid.
Proof.
  revert s. induction w as [|x w IH]; intros s; simpl.
  - split; [intros _; exists [], s; auto | reflexivity].
  - destruct s as [|y s].
    + split; [discriminate|].
      intros (mid & after & E & F). inversion F; subst. discriminate.
    + rewrite andb_true_iff, N.eqb_eq, canonicalize_eq_iff, IH. split.
      * intros (Hx & mid & after & -> & F). exists (y :: mid), after. auto.
      * intros (mid & after & E & F). inversion F; subst.
        injection E as -> ->. eauto.
Qed.

Lemma startsWith_iff (w s : jsstring) :
  startsWith w s = true <-> exists after, s = w ++ after.
Proof.
  revert s. induction w as [|x w IH]; intros s; simpl.
  - split; eauto.
  - destruct s as [|y s].
    + split; [discriminate | intros (after & E); discriminate].
    + rewrite andb_true_iff, N.eqb_eq, IH. split.
      * intros (-> & after & ->). eauto.
      * intros (after & E). injection E as -> ->. eauto.
Qed.

(** A word without letters matches only itself. *)
Lemma Forall2_same_no_letters (w mid : jsstring) :
  forallb (fun c => negb (is_lower c || is_upper c)) w = true ->
  Forall2 same_ignoring_case w mid <-> mid = w.
Proof.
  intros Hw. split.
  - intros F. induction F as [|x y w mid Hxy F IH]; [reflexivity|].
    simpl in Hw. apply andb_true_iff in Hw. destruct Hw as [Hx Hw].
    rewrite (IH Hw). f_equal.
    unfold same_ignoring_case in Hxy. revert Hx Hxy. char_cases; try discriminate; lia.
  - intros ->. clear Hw. induction w; constructor; [reflexivity | assumption].
Qed.

Lemma contains_ignoring_case_search_i (w p : jsstring) :
  search (lit_i w) p = true <-> contains_ignoring_case w p.
Proof.
  rewrite search_true_iff. unfold contains_ignoring_case. split.
  - intros (before & after & -> & H). apply lit_i_iff in H.
    destruct H as (mid & after' & -> & F). eauto.
  - intros (before & mid & after & -> & F).
    exists before, (mid ++ after). split; [reflexivity|].
    apply lit_i_iff. eauto.
Qed.

Lemma contains_ignoring_case_search (w p : jsstring) :
  forallb (fun c => negb (is_lower c || is_upper c)) w = true ->
  search (lit w) p = true <-> contains_ignoring_case w p.
Proof.
  intros Hw. rewrite search_true_iff. unfold contains_ignoring_case, lit. split.
  - intros (before & after & -> & H). apply startsWith_iff in H.
    destruct H as (after' & ->). exists before, w, after'. split; [reflexivity|].
    apply Forall2_same_no_letters; auto.
  - intros (before & mid & after & -> & F).
    apply Forall2_same_no_letters in F; [subst mid | assumption].
    exists before, (w ++ after). split; [reflexivity|].
    apply startsWith_iff. eauto.
Qed.

Lemma hasCommonPattern_iff (p : jsstring) :
  hasCommonPattern p = true <->
  exists w, In w denylist /\ contains_ignoring_case (js w) p.
Proof.
  unfold hasCommonPattern, commonPatterns, denylist.
  cbn [existsb]. rewrite orb_false_r, !orb_true_iff.
  rewrite contains_ignoring_case_search by reflexivity.
  rewrite !contains_ignoring_case_search_i.
  split.
  - intros H.
    repeat (destruct H as [H | H];
            [eexists; split; [ | exact H]; simpl; auto 10 | ]).
    eexists; split; [ | exact H]; simpl; auto 10.
  - intros (w & Hin & H). simpl in Hin.
    repeat (destruct Hin as [<- | Hin]; [auto 10 | ]). contradiction.
Qed.

(** *** The sequential-characters pattern *)

Lemma classify (c : N) : char_kind c.
Proof.
  destruct (N.le_gt_cases 97 c) as [H1|H1].
  - destruct (N.le_gt_cases c 122) as [H2|H2].
    + apply KLower; auto; char_cases; try reflexivity; lia.
    + apply KOther; [lia|..]; char_cases; try reflexivity; lia.
  - destruct (N.le_gt_cases 65 c) as [H2|H2].
    + destruct (N.le_gt_cases c 90) as [H3|H3].
      * apply KUpper; auto; char_cases; try reflexivity; lia.
      * apply KOther; [lia|..]; char_cases; try reflexivity; lia.
    + destruct (N.le_gt_cases 48 c) as [H3|H3].
      * destruct (N.le_gt_cases c 57) as [H4|H4].
        -- apply KDigit; auto; char_cases; try reflexivity; lia.
        -- apply KOther; [lia|..]; char_cases; try reflexivity; lia.
      * apply KOther; [lia|..]; char_cases; try reflexivity; lia.
Qed.

Ltac kinds a :=
  let R := fresh "R" in let F := fresh "F" in
  let L := fresh "L" in let D := fresh "D" in
  destruct (classify a) as [R F L D|R F L D|R F L D|R F L D];
  rewrite ?F, ?L, ?D in *.

Lemma ascending3_fold (a b c : N) :
  ascending3 a b c <->
  exists k, run_start k /\ fold_case a = k /\ fold_case b = (k + 1)%N
            /\ fold_case c = (k + 2)%N.
Proof.
  unfold ascending3, run_start. split.
  - intros [(i & Ha & Hb & Hc) | (i & Ha & Hb & Hc)];
      exists (fold_case a); kinds a; try discriminate;
      kinds b; try discriminate; kinds c; try discriminate;
      injection Ha as <-; injection Hb as Hb; injection Hc as Hc; lia.
  - intros (k & Hk & Ha & Hb & Hc).
    kinds a; kinds b; kinds c; subst k; try lia;
      first [ left; eexists; repeat split; f_equal; lia
            | right; eexists; repeat split; f_equal; lia ].
Qed.

Lemma str_eqb_eq (a b : jsstring) : str_eqb a b = true <-> a = b.
Proof.
  unfold str_eqb. destruct (list_eq_dec N.eq_dec a b); split; congruence.
Qed.

Lemma str_eqb_refl (a : jsstring) : str_eqb a a = true.
Proof. apply str_eqb_eq. reflexivity. Qed.

Lemma str_eqb_neq (a b : jsstring) : str_eqb a b = false <-> a <> b.
Proof.
  unfold str_eqb. destruct (list_eq_dec N.eq_dec a b); split; congruence.
Qed.

Lemma run_start_listed (k : N) : run_start k -> In k run_starts.
Proof.
  intros Hk. unfold run_starts.
  rewrite <- (N2Nat.id k). apply in_map. apply in_or_app.
  rewrite !in_seq. unfold run_start in Hk. lia.
Qed.

Lemma sequentialAlternatives_complete (k : N) :
  run_start k ->
  exists w, In w sequentialAlternatives /\ js w = [k; (k + 1)%N; (k + 2)%N].
Proof.
  intros Hk. apply run_start_listed in Hk.
  assert (Hall : forallb (fun k =>
            existsb (fun w => str_eqb (js w) [k; (k + 1)%N; (k + 2)%N])
                    sequentialAlternatives) run_starts = true)
    by (vm_compute; reflexivity).
  rewrite forallb_forall in Hall. specialize (Hall k Hk).
  apply existsb_exists in Hall. destruct Hall as (w & Hin & E).
  apply str_eqb_eq in E. eauto.
Qed.

Lemma sequentialAlternatives_sound (w : string) :
  In w sequentialAlternatives ->
  exists k, run_start k /\ js w = [k; (k + 1)%N; (k + 2)%N].
Proof.
  intros Hin.
  assert (Hall : forallb (fun w =>
            existsb (fun k => str_eqb (js w) [k; (k + 1)%N; (k + 2)%N])
                    run_starts) sequentialAlternatives = true)
    by (vm_compute; reflexivity).
  rewrite forallb_forall in Hall. specialize (Hall w Hin).
  apply existsb_exists in Hall. destruct Hall as (k & Hk & E).
  apply str_eqb_eq in E. exists k. split; [|exact E].
  unfold run_starts in Hk. apply in_map_iff in Hk.
  destruct Hk as (n & <- & Hn). apply in_app_or in Hn.
  rewrite !in_seq in Hn. unfold run_start. lia.
Qed.

Lemma fold_case_run (k : N) (i : N) :
  run_start k -> (i <= 2)%N -> fold_case (k + i) = (k + i)%N.
Proof.
  unfold run_start. intros Hk Hi.
  destruct (classify (k + i)) as [R F _ _|R F _ _|R F _ _|R F _ _]; lia.
Qed.

Lemma alt_sequential_iff (s : jsstring) :
  alt (map (fun a => lit_i (js a)) sequentialAlternatives) s = true <->
  exists a b c after, s = [a; b; c] ++ after /\ ascending3 a b c.
Proof.
  unfold alt. rewrite existsb_exists. split.
  - intros (m & Hm & H). apply in_map_iff in Hm.
    destruct Hm as (w & <- & Hw).
    apply sequentialAlternatives_sound in Hw. destruct Hw as (k & Hk & E).
    rewrite E in H. apply lit_i_iff in H.
    destruct H as (mid & after & -> & F).
    inversion F as [|x1 a w1 m1 Ha F1]; subst.
    inversion F1 as [|x2 b w2 m2 Hb F2]; subst.
    inversion F2 as [|x3 c w3 m3 Hc F3]; subst.
    inversion F3; subst.
    exists a, b, c, after. split; [reflexivity|].
    apply ascending3_fold. exists k. unfold same_ignoring_case in *.
    pose proof (@fold_case_run k 0 Hk) as H0.
    pose proof (@fold_case_run k 1 Hk) as H1.
    pose proof (@fold_case_run k 2 Hk) as H2.
    rewrite N.add_0_r in H0.
    rewrite <- Ha, <- Hb, <- Hc, H0, H1, H2 by lia. auto.
  - intros (a & b & c & after & -> & H).
    apply ascending3_fold in H. destruct H as (k & Hk & Ha & Hb & Hc).
    destruct (@sequentialAlternatives_complete k Hk) as (w & Hw & E).
    exists (lit_i (js w)). split; [apply in_map_iff; eauto|].
    apply lit_i_iff. exists [a; b; c], after. split; [reflexivity|].
    rewrite E. unfold same_ignoring_case.
    pose proof (@fold_case_run k 0 Hk) as H0.
    pose proof (@fold_case_run k 1 Hk) as H1.
    pose proof (@fold_case_run k 2 Hk) as H2.
    rewrite N.add_0_r in H0.
    repeat constructor; rewrite ?H0, ?H1, ?H2 by lia; congruence.
Qed.

Lemma hasSequential_iff (p : jsstring) :
  hasSequential p = true <-> has_ascending_run p.
Proof.
  unfold hasSequential, has_ascending_run. rewrite search_true_iff. split.
  - intros (before & after & -> & H). apply alt_sequential_iff in H.
    destruct H as (a & b & c & after' & -> & H). 
    exists before, a, b, c, after'. auto.
  - intros (before & a & b & c & after & -> & H).
    exists before, ([a; b; c] ++ after). split; [reflexivity|].
    apply alt_sequential_iff. eauto 6.
Qed.

(** *** The repeated-characters pattern *)

Lemma hasRepeated_iff (p : jsstring) :
  hasRepeated p = true <-> has_repeated_visible_run p.
Proof.
  unfold hasRepeated, has_repeated_visible_run. rewrite search_true_iff. split.
  - intros (before & after & -> & H).
    destruct after as [|c rest]; [discriminate|]. simpl in H.
    apply andb_true_iff in H. destruct H as [Hdot H].
    apply (startsWith_iff [c; c]) in H. destruct H as (after & ->).
    exists before, c, after. split; [reflexivity|].
    unfold dot in Hdot. now apply negb_true_iff in Hdot.
  - intros (before & c & after & -> & H).
    exists before, ([c; c; c] ++ after). split; [reflexivity|].
    simpl. unfold dot. rewrite H, !N.eqb_refl. reflexivity.
Qed.

(** ** The password gate and the strength scorer *)

Lemma success_check (ok : bool) (message : string) :
  success (check ok message) = ok.
Proof. destruct ok; reflexivity. Qed.

Lemma success_app (a b : list string) :
  success (a ++ b) = success a && success b.
Proof. destruct a; reflexivity. Qed.

Lemma success_nil (issues : list string) :
  success issues = true <-> issues = [].
Proof. destruct issues; simpl; split; congruence. Qed.

(** The gate accepts exactly when each of its nine checks passes. *)
Lemma passwordValidationSchema_success (p : jsstring) :
  success (passwordValidationSchema p) =
  (8 <=? length p) && (length p <=? 128)
  && hasLower p && hasUpper p && hasDigit p && hasSpecial p
  && negb (hasCommonPattern p) && negb (hasSequential p)
  && negb (hasRepeated p).
Proof.
  unfold passwordValidationSchema.
  rewrite !success_app, !success_check, !andb_assoc. reflexivity.
Qed.

Lemma negb_true_not (b : bool) (P : Prop) :
  (b = true <-> P) -> (negb b = true <-> ~ P).
Proof. intros H. rewrite negb_true_iff, <- H. destruct b; split; congruence. Qed.

(** The nine checks of the gate, each in the words of the rules. *)
Lemma passwordValidationSchema_checks (p : jsstring) :
  success (passwordValidationSchema p) = true <->
  ((((((((8 <= length p /\ length p <= 128)
         /\ contains_class is_lower p)
        /\ contains_class is_upper p)
       /\ contains_class is_digit p)
      /\ contains_class (fun c => negb (is_alnum c)) p)
     /\ ~ (exists w, In w denylist /\ contains_ignoring_case (js w) p))
    /\ ~ has_ascending_run p)
   /\ ~ has_repeated_visible_run p).
Proof.
  rewrite passwordValidationSchema_success, !andb_true_iff.
  unfold hasLower, hasUpper, hasDigit, hasSpecial.
  rewrite !search_one_of, !Nat.leb_le.
  rewrite (negb_true_not (hasCommonPattern_iff p)).
  rewrite (negb_true_not (hasSequential_iff p)).
  rewrite (negb_true_not (hasRepeated_iff p)).
  reflexivity.
Qed.

Lemma gate_accepted_meets_rules (p : jsstring) :
  success (passwordValidationSchema p) = true ->
  password_rules has_repeated_visible_run p.
Proof.
  intros H. apply passwordValidationSchema_checks in H.
  destruct H as ((((((((H1 & H2) & H3) & H4) & H5) & H6) & H7) & H8) & H9).
  constructor; auto. intros w Hw Hc. apply H7. eauto.
Qed.

Lemma rules_met_gate_accepts (p : jsstring) :
  password_rules has_repeated_visible_run p ->
  success (passwordValidationSchema p) = true.
Proof.
  intros [[H1 H2] H3 H4 H5 H6 H7 H8 H9].
  apply passwordValidationSchema_checks.
  repeat split; auto. intros (w & Hw & Hc). exact (H7 w Hw Hc).
Qed.

(** The gate against the rules of the specification, with the repeated
    run read as the pattern reads it: of a character that is not a line
    terminator. *)
Theorem passwordValidationSchema_accepts_iff (p : jsstring) :
  success (passwordValidationSchema p) = true <->
  password_rules has_repeated_visible_run p.
Proof.
  split.
  - apply gate_accepted_meets_rules.
  - apply rules_met_gate_accepts.
Qed.

Lemma has_repeated_visible_run_repeated (p : jsstring) :
  has_repeated_visible_run p -> has_repeated_run p.
Proof.
  intros (before & c & after & E & _). exists before, c, after. exact E.
Qed.

(** Every password the specification accepts passes the gate. *)
Lemma spec_accepts_passes_gate (p : jsstring) :
  spec_accepts p -> success (passwordValidationSchema p) = true.
Proof.
  intros [H1 H2 H3 H4 H5 H6 H7 H8].
  apply rules_met_gate_accepts. constructor; auto.
  intros H. apply H8, has_repeated_visible_run_repeated, H.
Qed.

(** On a password of ASCII characters without line feed and carriage
    return, the gate accepts exactly the passwords the specification
    accepts.  There a character is one code unit and the letters and
    digits are the ASCII ones, so [spec_accepts] is the specification
    whichever way its "character" and "length" are read. *)
Theorem gate_meets_spec_without_line_terminators (p : jsstring) :
  forallb (fun c => (c <? 128)%N && negb (is_line_terminator c)) p = true ->
  success (passwordValidationSchema p) = true <-> spec_accepts p.
Proof.
  intros Hascii.
  assert (Hp : forallb (fun c => negb (is_line_terminator c)) p = true).
  { apply forallb_forall. intros c Hc.
    pose proof (proj1 (forallb_forall _ _) Hascii c Hc) as H.
    cbv beta in H. apply andb_true_iff in H. exact (proj2 H). }
  clear Hascii. split; [|apply spec_accepts_passes_gate].
  intros H. apply gate_accepted_meets_rules in H.
  destruct H as [H1 H2 H3 H4 H5 H6 H7 H8]. constructor; auto.
  intros (before & c & after & E). apply H8.
  exists before, c, after. split; [exact E|].
  rewrite forallb_forall in Hp. apply negb_true_iff. apply Hp.
  rewrite E. apply in_or_app. right. left. reflexivity.
Qed.

(** C7 (fails in the code): the gate accepts [line_feeds_password], nine
    code units with the four classes, although a character is repeated
    three times in a row in it, which the specification rules out: the
    [.] of the pattern [/(.)\1{2,}/] does not match a line terminator. *)
Theorem gate_accepts_repeated_line_feeds :
  success (passwordValidationSchema line_feeds_password) = true
  /\ has_repeated_run line_feeds_password
  /\ ~ spec_accepts line_feeds_password.
Proof.
  assert (Hrun : has_repeated_run line_feeds_password)
    by (exists (js "Aa1!"), 10%N, (js "qq"); reflexivity).
  split; [vm_compute; reflexivity | split; [exact Hrun|]].
  intros H. exact (rule_repeated H Hrun).
Qed.

Lemma fst_bump_or_push (b : bool) (message : string) (st : ScoreState) :
  fst (if b then bump st else push message st) = fst st + point b.
Proof. destruct b; simpl; lia. Qed.

Lemma fst_bump_or_keep (b : bool) (st : ScoreState) :
  fst (if b then bump st else st) = fst st + point b.
Proof. destruct b; simpl; lia. Qed.

Lemma fst_bump_or_push_or_keep (b c : bool) (message : string)
  (st : ScoreState) :
  fst (if b then bump st else if c then push message st else st)
  = fst st + point b.
Proof. destruct b, c; simpl; lia. Qed.

Lemma calculatePasswordStrength_score (p : jsstring) :
  score (calculatePasswordStrength p) =
  point (8 <=? length p) + point (12 <=? length p)
  + point (16 <=? length p)
  + point (hasLower p) + point (hasUpper p) + point (hasDigit p)
  + point (hasSpecial p)
  + point (negb (hasRepeated p)) + point (negb (hasSequential p)).
Proof.
  unfold calculatePasswordStrength. cbv zeta. cbn [score].
  rewrite !fst_bump_or_push, fst_bump_or_push_or_keep, !fst_bump_or_keep.
  reflexivity.
Qed.

Lemma point_le_1 (b : bool) : point b <= 1.
Proof. destruct b; simpl; lia. Qed.

Lemma calculatePasswordStrength_score_le_9 (p : jsstring) :
  score (calculatePasswordStrength p) <= 9.
Proof.
  rewrite calculatePasswordStrength_score.
  pose proof (point_le_1 (8 <=? length p)).
  pose proof (point_le_1 (12 <=? length p)).
  pose proof (point_le_1 (16 <=? length p)).
  pose proof (point_le_1 (hasLower p)).
  pose proof (point_le_1 (hasUpper p)).
  pose proof (point_le_1 (hasDigit p)).
  pose proof (point_le_1 (hasSpecial p)).
  pose proof (point_le_1 (negb (hasRepeated p))).
  pose proof (point_le_1 (negb (hasSequential p))).
  lia.
Qed.

Lemma calculatePasswordStrength_band (p : jsstring) :
  strength (calculatePasswordStrength p)
  = band (score (calculatePasswordStrength p)).
Proof. reflexivity. Qed.

Lemma band_spec (n : nat) :
  (band n = very_weak <-> n <= 2)
  /\ (band n = weak <-> 3 <= n <= 4)
  /\ (band n = fair <-> 5 <= n <= 6)
  /\ (band n = good <-> 7 <= n <= 8)
  /\ (band n = strong <-> 9 <= n).
Proof.
  unfold band.
  destruct (Nat.leb_spec n 2); [|destruct (Nat.leb_spec n 4);
    [|destruct (Nat.leb_spec n 6); [|destruct (Nat.leb_spec n 8)]]];
    repeat split; intros; try discriminate; try lia.
Qed.

(** The strength scorer is a function of the password alone; its score
    is one point for each of: length at least 8, at least 12, at least 16,
    a lower-case letter, an upper-case letter, a digit, a special
    character, no match of the repeated-characters pattern, no match of
    the sequential-characters pattern; the score is between 0 and 9, and
    the band is very-weak up to 2, weak up to 4, fair up to 6, good up to
    8 and strong at 9.  "Passw0rd!" passes the gate and scores 7, good. *)
Theorem strength_scorer_points_and_bands :
  (forall p : jsstring,
     let r := calculatePasswordStrength p in
     score r =
       point (8 <=? length p) + point (12 <=? length p)
       + point (16 <=? length p)
       + point (hasLower p) + point (hasUpper p) + point (hasDigit p)
       + point (hasSpecial p)
       + point (negb (hasRepeated p)) + point (negb (hasSequential p))
     /\ 0 <= score r <= 9
     /\ (strength r = very_weak <-> score r <= 2)
     /\ (strength r = weak <-> 3 <= score r <= 4)
     /\ (strength r = fair <-> 5 <= score r <= 6)
     /\ (strength r = good <-> 7 <= score r <= 8)
     /\ (strength r = strong <-> score r = 9))
  /\ success (passwordValidationSchema (js "Passw0rd!")) = true
  /\ calculatePasswordStrength (js "Passw0rd!")
     = {| score := 7; strength := good; feedback := [] |}.
Proof.
  split; [|split; vm_compute; reflexivity].
  intros p r. subst r.
  pose proof (calculatePasswordStrength_score_le_9 p) as Hle.
  pose proof (band_spec (score (calculatePasswordStrength p))) as Hband.
  rewrite <- calculatePasswordStrength_band in Hband.
  destruct Hband as (B1 & B2 & B3 & B4 & B5).
  split; [apply calculatePasswordStrength_score|].
  split; [lia|].
  split; [exact B1|]. split; [exact B2|]. split; [exact B3|].
  split; [exact B4|].
  split; intros Hs; [apply B5 in Hs; lia | apply B5; lia].
Qed.

(** C8 (fails in the code): the scorer gives the point for the absence
    of a repeated run to a password that is one character three times in a
    row, three line feeds: the [.] of [/(.)\1{2,}/] does not match a line
    terminator.  The password scores 3, weak; without that point it would
    score 2, very-weak. *)
Theorem scorer_counts_line_feeds_as_unrepeated :
  has_repeated_run [10; 10; 10]%N
  /\ hasRepeated [10; 10; 10]%N = false
  /\ calculatePasswordStrength [10; 10; 10]%N
     = {| score := 3; strength := weak;
          feedback := ["Use at least 8 characters"; "Add lowercase letters";
                       "Add uppercase letters"; "Add numbers"]%string |}
  /\ band (score (calculatePasswordStrength [10; 10; 10]%N) - 1)
     = very_weak.
Proof.
  split; [exists [], 10%N, []; reflexivity|].
  repeat split; vm_compute; reflexivity.
Qed.

(** What the scorer's pattern tests mean on the code units. *)
Lemma scorer_tests_meaning (p : jsstring) :
  (hasLower p = true <-> contains_class is_lower p)
  /\ (hasUpper p = true <-> contains_class is_upper p)
  /\ (hasDigit p = true <-> contains_class is_digit p)
  /\ (hasSpecial p = true <-> contains_class (fun c => negb (is_alnum c)) p)
  /\ (hasRepeated p = true <-> has_repeated_visible_run p)
  /\ (hasSequential p = true <-> has_ascending_run p).
Proof.
  repeat split; try apply search_one_of; try apply hasRepeated_iff;
    apply hasSequential_iff.
Qed.

(** A password the gate accepts collects the seven points that do not
    depend on a length of 12 or 16. *)
Lemma accepted_password_score (p : jsstring) :
  success (passwordValidationSchema p) = true ->
  7 <= score (calculatePasswordStrength p).
Proof.
  rewrite passwordValidationSchema_success, calculatePasswordStrength_score.
  intros H.
  repeat match type of H with
         | (_ && _ = true) =>
             let H' := fresh in
             apply andb_true_iff in H; destruct H as [H H']
         end.
  repeat match goal with
         | E : ?b = true |- _ => rewrite E; clear E
         end.
  simpl. lia.
Qed.

(** ** The password hasher *)

Lemma split_without_separator (sep : N) (s : jsstring) :
  ~ In sep s -> split sep s = [s].
Proof.
  induction s as [|c s IH]; intros Hs; simpl; [reflexivity|].
  destruct (N.eqb_spec c sep) as [->|Hc].
  - exfalso. apply Hs. left. reflexivity.
  - rewrite IH; [reflexivity|]. intros H. apply Hs. right. exact H.
Qed.

Lemma split_at_first_separator (sep : N) (a b : jsstring) :
  ~ In sep a -> split sep (a ++ sep :: b) = a :: split sep b.
Proof.
  induction a as [|c a IH]; intros Ha; simpl.
  - rewrite N.eqb_refl. reflexivity.
  - destruct (N.eqb_spec c sep) as [->|Hc].
    + exfalso. apply Ha. left. reflexivity.
    + rewrite IH; [reflexivity|]. intros H. apply Ha. right. exact H.
Qed.

Lemma split_nonempty (sep : N) (s : jsstring) : split sep s <> [].
Proof.
  destruct s as [|c s]; simpl; [discriminate|].
  destruct (c =? sep)%N; [discriminate|].
  destruct (split sep s); discriminate.
Qed.

Lemma hex_pair (b : Byte.byte) (rest : jsstring) :
  fromHex (hexDigit (Byte.to_N b / 16) :: hexDigit (Byte.to_N b mod 16)
           :: rest)
  = b :: fromHex rest.
Proof. destruct b; reflexivity. Qed.

(** Decoding what [toString("hex")] wrote gives the bytes back. *)
Lemma fromHex_toHex (buf : Buffer) : fromHex (toHex buf) = buf.
Proof.
  induction buf as [|b buf IH]; [reflexivity|].
  change (toHex (b :: buf))
    with (hexDigit (Byte.to_N b / 16) :: hexDigit (Byte.to_N b mod 16)
          :: toHex buf).
  rewrite hex_pair, IH. reflexivity.
Qed.

Lemma hex_pair_no_dot (b : Byte.byte) :
  hexDigit (Byte.to_N b / 16) <> 46%N
  /\ hexDigit (Byte.to_N b mod 16) <> 46%N.
Proof. destruct b; split; discriminate. Qed.

Lemma toHex_no_dot (buf : Buffer) : ~ In 46%N (toHex buf).
Proof.
  induction buf as [|b buf IH]; simpl; [intros []|].
  destruct (hex_pair_no_dot b) as [H1 H2].
  intros [H|[H|H]]; auto.
Qed.

Lemma buffer_eqb_refl (buf : Buffer) : buffer_eqb buf buf = true.
Proof.
  unfold buffer_eqb.
  destruct (list_eq_dec Byte.byte_eq_dec buf buf); congruence.
Qed.

Lemma randomBytes_length (e : Entropy) (n : nat) :
  length (randomBytes e n) = n.
Proof. unfold randomBytes. rewrite length_map, length_seq. reflexivity. Qed.

Lemma buffer_eqb_eq (a b : Buffer) : buffer_eqb a b = true <-> a = b.
Proof.
  unfold buffer_eqb.
  destruct (list_eq_dec Byte.byte_eq_dec a b); split; congruence.
Qed.

(** [comparePasswords] on a stored string hex(key) + "." + hex(salt) with
    a key of 64 bytes: the key is derived again from the supplied
    password under the stored salt and compared with the stored key. *)
Lemma comparePasswords_stored (supplied : jsstring) (key salt : Buffer) :
  length key = 64 ->
  comparePasswords supplied (toHex key ++ js "." ++ toHex salt)
  = Ok (buffer_eqb key (scrypt supplied (toHex salt) 64)).
Proof using scrypt_length.
  intros Hkey. unfold comparePasswords.
  change (js "." ++ toHex salt) with (46%N :: toHex salt).
  rewrite split_at_first_separator by apply toHex_no_dot.
  rewrite split_without_separator by apply toHex_no_dot.
  cbn [nth nth_error scryptAsync bind]. rewrite fromHex_toHex.
  unfold timingSafeEqual. rewrite scrypt_length, Hkey. reflexivity.
Qed.

(** C6: for every password and every draw of the random source,
    [hashPassword] returns hex(key) + "." + hex(salt) for a salt of 16
    random bytes and the 64-byte scrypt key of the password under the
    salt's hex string, and [comparePasswords] of the password with that
    string returns true.  [comparePasswords] re-derives the key: for every
    supplied password it returns the comparison of the stored key with
    the scrypt key of the supplied password under the stored salt, so it
    returns true exactly when the two keys are equal. *)
Theorem hash_then_compare (e : Entropy) (password : jsstring) :
  exists salt key,
    salt = randomBytes e 16 /\ length salt = 16
    /\ key = scrypt password (toHex salt) 64 /\ length key = 64
    /\ hashPassword e password = Ok (toHex key ++ js "." ++ toHex salt)
    /\ comparePasswords password (toHex key ++ js "." ++ toHex salt)
       = Ok true
    /\ forall supplied,
         comparePasswords supplied (toHex key ++ js "." ++ toHex salt)
         = Ok (buffer_eqb key (scrypt supplied (toHex salt) 64))
         /\ (comparePasswords supplied (toHex key ++ js "." ++ toHex salt)
             = Ok true
             <-> scrypt supplied (toHex salt) 64 = key).
Proof using scrypt_length.
  exists (randomBytes e 16), (scrypt password (toHex (randomBytes e 16)) 64).
  split; [reflexivity|]. split; [apply randomBytes_length|].
  split; [reflexivity|]. split; [apply scrypt_length|].
  split; [reflexivity|].
  remember (randomBytes e 16) as salt eqn:Hsalt.
  assert (Hall : forall supplied,
    comparePasswords supplied
      (toHex (scrypt password (toHex salt) 64) ++ js "." ++ toHex salt)
    = Ok (buffer_eqb (scrypt password (toHex salt) 64)
                     (scrypt supplied (toHex salt) 64))).
  { intros supplied. apply comparePasswords_stored. apply scrypt_length. }
  split.
  - rewrite Hall, buffer_eqb_refl. reflexivity.
  - intros supplied. split; [apply Hall|]. rewrite Hall. split.
    + intros H. injection H as H. apply buffer_eqb_eq in H. symmetry.
      exact H.
    + intros H. rewrite H, buffer_eqb_refl. reflexivity.
Qed.

(** Two draws of the salt that differ give two different stored strings
    for the same password. *)
Theorem hash_salts_differ (e e' : Entropy)
  (password stored stored' : jsstring) :
  randomBytes e 16 <> randomBytes e' 16 ->
  hashPassword e password = Ok stored ->
  hashPassword e' password = Ok stored' ->
  stored <> stored'.
Proof.
  unfold hashPassword. cbn [scryptAsync bind].
  remember (randomBytes e 16) as salt eqn:Hs.
  remember (randomBytes e' 16) as salt' eqn:Hs'.
  intros Hsalt H H' E.
  assert (E1 : toHex (scrypt password (toHex salt) 64)
               ++ js "." ++ toHex salt = stored) by congruence.
  assert (E2 : toHex (scrypt password (toHex salt') 64)
               ++ js "." ++ toHex salt' = stored') by congruence.
  rewrite <- E1, <- E2 in E. apply (f_equal (split 46)) in E.
  change (js "." ++ toHex salt) with (46%N :: toHex salt) in E.
  change (js "." ++ toHex salt') with (46%N :: toHex salt') in E.
  rewrite !split_at_first_separator in E by apply toHex_no_dot.
  rewrite !split_without_separator in E by apply toHex_no_dot.
  assert (E3 : toHex salt = toHex salt') by congruence.
  apply Hsalt. rewrite <- (fromHex_toHex salt), E3. apply fromHex_toHex.
Qed.

(** C2, as the code has it: [comparePasswords] has no [catch].  On a
    stored string without a "." it throws a TypeError (the salt is
    undefined); on one whose part before the first "." does not decode to
    64 bytes it throws a RangeError (the buffers differ in length); it
    returns a boolean only when that part decodes to 64 bytes, and then
    the comparison of the two keys. *)
Theorem comparePasswords_malformed_throws (supplied stored : jsstring) :
  (~ In 46%N stored -> comparePasswords supplied stored = Throw TypeError)
  /\ (forall hashed rest,
        stored = hashed ++ 46%N :: rest -> ~ In 46%N hashed ->
        length (fromHex hashed) <> 64 ->
        comparePasswords supplied stored = Throw RangeError)
  /\ (forall hashed rest,
        stored = hashed ++ 46%N :: rest -> ~ In 46%N hashed ->
        length (fromHex hashed) = 64 ->
        comparePasswords supplied stored
        = Ok (buffer_eqb (fromHex hashed)
                         (scrypt supplied (nth 0 (split 46 rest) []) 64))).
Proof using scrypt_length.
  unfold comparePasswords. split; [|split].
  - intros H. rewrite split_without_separator by exact H. reflexivity.
  - intros hashed rest -> Hh Hlen.
    rewrite split_at_first_separator by exact Hh.
    destruct (split 46 rest) as [|salt parts] eqn:E;
      [exfalso; exact (split_nonempty _ _ E)|].
    cbn [nth nth_error scryptAsync bind]. unfold timingSafeEqual.
    rewrite scrypt_length.
    destruct (Nat.eqb_spec (length (fromHex hashed)) 64); congruence.
  - intros hashed rest -> Hh Hlen.
    rewrite split_at_first_separator by exact Hh.
    destruct (split 46 rest) as [|salt parts] eqn:E;
      [exfalso; exact (split_nonempty _ _ E)|].
    cbn [nth nth_error scryptAsync bind]. unfold timingSafeEqual.
    rewrite scrypt_length, Hlen. reflexivity.
Qed.

(** ** Refresh tokens *)

Lemma find_filter_negb {A} (f : A -> bool) (l : list A) :
  find f (filter (fun x => negb (f x)) l) = None.
Proof.
  induction l as [|x l IH]; simpl; [reflexivity|].
  destruct (f x) eqn:E; simpl; [exact IH|]. rewrite E. exact IH.
Qed.

Lemma find_app {A} (f : A -> bool) (l l' : list A) :
  find f (l ++ l') = match find f l with
                     | Some x => Some x
                     | None => find f l'
                     end.
Proof.
  induction l as [|x l IH]; simpl; [reflexivity|].
  destruct (f x); [reflexivity | exact IH].
Qed.

Lemma getRefreshToken_revoked (tokenId userId : jsstring) (db : Database) :
  getRefreshToken tokenId userId (revokeRefreshToken tokenId userId db)
  = None.
Proof. apply find_filter_negb. Qed.

(** What a successful [verifyRefreshToken] says. *)
Lemma verifyRefreshToken_Some (now : Z) (token : jsstring) (db : Database)
  (payload : RefreshTokenPayload.t) :
  verifyRefreshToken now token db = Some payload ->
  jwt_open_refresh token = Some payload
  /\ exists row,
       getRefreshToken (RefreshTokenPayload.tokenId payload)
                       (RefreshTokenPayload.userId payload) db = Some row
       /\ (now <= RefreshToken.expiresAt row)%Z.
Proof.
  unfold verifyRefreshToken, jwt_verify.
  destruct (jwt_open_refresh token) as [p|]; [|discriminate].
  destruct (RefreshTokenPayload.exp p) as [e|];
    [destruct (e <=? clockTimestamp now)%Z; [discriminate|]|];
    simpl;
    (destruct (getRefreshToken (RefreshTokenPayload.tokenId p)
                 (RefreshTokenPayload.userId p) db) as [row|] eqn:E;
     [|discriminate]);
    (destruct (Z.ltb_spec (RefreshToken.expiresAt row) now);
     [discriminate|]);
    intros Hv; injection Hv as <-; eauto.
Qed.

(** Without a matching row, [verifyRefreshToken] answers null. *)
Lemma verifyRefreshToken_no_row (now : Z) (token : jsstring)
  (db : Database) :
  (forall payload, jwt_open_refresh token = Some payload ->
     getRefreshToken (RefreshTokenPayload.tokenId payload)
                     (RefreshTokenPayload.userId payload) db = None) ->
  verifyRefreshToken now token db = None.
Proof.
  intros H. unfold verifyRefreshToken, jwt_verify.
  destruct (jwt_open_refresh token) as [p|]; [|reflexivity].
  specialize (H p eq_refl).
  destruct (RefreshTokenPayload.exp p) as [e|];
    [destruct (e <=? clockTimestamp now)%Z|];
    cbn [bind catch]; rewrite ?H; reflexivity.
Qed.

(** C1: a refresh token that passed [verifyRefreshToken] and whose record
    the rotation revoked (by the token's tokenId and userId) is refused by
    [verifyRefreshToken] at any later time: the lookup by tokenId and
    userId finds no row. *)
Theorem refresh_token_single_use (now later : Z) (token : jsstring)
  (payload : RefreshTokenPayload.t) (db : Database) :
  verifyRefreshToken now token db = Some payload ->
  let db' := revokeRefreshToken (RefreshTokenPayload.tokenId payload)
                                (RefreshTokenPayload.userId payload) db in
  getRefreshToken (RefreshTokenPayload.tokenId payload)
                  (RefreshTokenPayload.userId payload) db' = None
  /\ verifyRefreshToken later token db' = None.
Proof.
  intros H db'. apply verifyRefreshToken_Some in H. destruct H as [Hopen _].
  split; [apply getRefreshToken_revoked|].
  apply verifyRefreshToken_no_row. intros p Hp.
  rewrite Hopen in Hp. injection Hp as <-. apply getRefreshToken_revoked.
Qed.

Lemma getUser_id (id : jsstring) (db : Database) (user : User.t) :
  getUser id db = Some user -> User.id user = id.
Proof.
  unfold getUser. intros H. apply find_some in H. destruct H as [_ H].
  apply str_eqb_eq. exact H.
Qed.

(** The whole rotation of POST /api/refresh: when it answers 200, the
    presented refresh token is refused afterwards, provided the 32 random
    bytes of the new tokenId are not those of the consumed one. *)
Theorem rotation_consumes_refresh_token (e : Entropy) (now later : Z)
  (req : Request) (db db' : Database) (res : Response) (token : jsstring) :
  js_or (cookie refreshToken req) (body_field "refreshToken" (body req))
  = Some token ->
  post_api_refresh e now req db = (res, db') ->
  status res = 200 ->
  (forall payload, jwt_open_refresh token = Some payload ->
     RefreshTokenPayload.tokenId payload <> toHex (randomBytes e 32)) ->
  verifyRefreshToken later token db' = None.
Proof.
  intros Htok Hpost Hstatus Hfresh. unfold post_api_refresh in Hpost.
  rewrite Htok in Hpost. destruct token as [|c token].
  { injection Hpost as <- _. discriminate. }
  cbv beta iota zeta in Hpost.
  destruct (verifyRefreshToken now (c :: token) db) as [payload|] eqn:Hv.
  2: { injection Hpost as <- _. discriminate. }
  destruct (getUser (RefreshTokenPayload.userId payload) db) as [user|] eqn:Hu.
  2: { injection Hpost as <- _. discriminate. }
  unfold generateRefreshToken in Hpost.
  remember (toHex (randomBytes e 32)) as newTokenId eqn:HnewTokenId in *.
  injection Hpost as _ <-.
  apply verifyRefreshToken_Some in Hv. destruct Hv as [Hopen _].
  apply verifyRefreshToken_no_row. intros p Hp.
  rewrite Hopen in Hp. injection Hp as <-.
  unfold getRefreshToken, createRefreshToken. cbn [refreshTokens].
  rewrite find_app.
  change (find _ (refreshTokens (revokeRefreshToken _ _ db)))
    with (getRefreshToken (RefreshTokenPayload.tokenId payload)
            (RefreshTokenPayload.userId payload)
            (revokeRefreshToken (RefreshTokenPayload.tokenId payload)
               (RefreshTokenPayload.userId payload) db)).
  rewrite getRefreshToken_revoked. cbn [find].
  unfold refreshTokenMatches. cbn [RefreshToken.token RefreshToken.userId].
  destruct (str_eqb newTokenId (RefreshTokenPayload.tokenId payload)) eqn:E;
    [|reflexivity].
  apply str_eqb_eq in E. exfalso. apply (Hfresh payload Hopen).
  symmetry. exact E.
Qed.

(** After [revokeAllRefreshTokens] for a user, every refresh token of
    that user is refused. *)
Theorem revoke_all_refuses_user_tokens (now : Z) (token : jsstring)
  (payload : RefreshTokenPayload.t) (db : Database) :
  jwt_open_refresh token = Some payload ->
  verifyRefreshToken now token
    (revokeAllRefreshTokens (RefreshTokenPayload.userId payload) db)
  = None.
Proof.
  intros Hopen. apply verifyRefreshToken_no_row. intros p Hp.
  rewrite Hopen in Hp. injection Hp as <-.
  unfold getRefreshToken, revokeAllRefreshTokens,
    storage.revokeAllRefreshTokens. cbn [refreshTokens].
  induction (refreshTokens db) as [|row rows IH]; [reflexivity|].
  cbn [filter].
  destruct (str_eqb (RefreshToken.userId row)
                    (RefreshTokenPayload.userId payload)) eqn:E;
    cbn [negb]; [exact IH|].
  cbn [find]. unfold refreshTokenMatches at 1. rewrite E, andb_false_r.
  exact IH.
Qed.

(** ** The middleware *)

Ltac answers_differ :=
  let H := fresh in
  intros H; apply (f_equal json) in H; vm_compute in H; discriminate.

(** C3: a request whose presented access token has a blacklist row is
    answered 401 "Token has been revoked" (TOKEN_REVOKED), whatever
    [verifyAccessToken] says of the token; and the answers of the
    middleware follow the order token missing, blacklisted, signature or
    expiry, user lookup. *)
Theorem blacklist_checked_before_verification (now : Z) (req : Request)
  (db : Database) :
  (forall token,
      presentedToken req = Some token ->
      isTokenBlacklisted token db = true ->
      authenticateToken now req db
      = Reject (error_response 401 "Token has been revoked"
                               "TOKEN_REVOKED"))
  /\ (authenticateToken now req db
      = Reject (error_response 401 "Access token is required"
                               "TOKEN_MISSING")
      <-> presentedToken req = None)
  /\ (authenticateToken now req db
      = Reject (error_response 401 "Token has been revoked"
                               "TOKEN_REVOKED")
      <-> exists token,
            presentedToken req = Some token
            /\ isTokenBlacklisted token db = true)
  /\ (authenticateToken now req db
      = Reject (error_response 401 "Invalid or expired token"
                               "TOKEN_INVALID")
      <-> exists token,
            presentedToken req = Some token
            /\ isTokenBlacklisted token db = false
            /\ verifyAccessToken now token = None)
  /\ (authenticateToken now req db
      = Reject (error_response 401 "User not found" "USER_NOT_FOUND")
      <-> exists token payload,
            presentedToken req = Some token
            /\ isTokenBlacklisted token db = false
            /\ verifyAccessToken now token = Some payload
            /\ getUser (JWTPayload.userId payload) db = None)
  /\ (forall user,
        authenticateToken now req db = Next user
        <-> exists token payload,
              presentedToken req = Some token
              /\ isTokenBlacklisted token db = false
              /\ verifyAccessToken now token = Some payload
              /\ getUser (JWTPayload.userId payload) db = Some user).
Proof.
  unfold authenticateToken, presentedToken.
  destruct (js_or (bearer (authorization req)) (cookie accessToken req))
    as [[|c t]|].
  1, 3:
    repeat split; intros; try discriminate; try reflexivity;
    repeat match goal with
           | H : exists _, _ |- _ => destruct H
           | H : _ /\ _ |- _ => destruct H
           end;
    try discriminate;
    match goal with
    | H : Reject _ = Reject _ |- _ =>
        exfalso; injection H; clear H; answers_differ
    end.
  destruct (isTokenBlacklisted (c :: t) db) eqn:Hb;
    [|destruct (verifyAccessToken now (c :: t)) as [payload|] eqn:Hv;
      [destruct (getUser (JWTPayload.userId payload) db) as [user|] eqn:Hu|]];
    repeat split; intros;
    repeat match goal with
           | H : exists _, _ |- _ => destruct H
           | H : _ /\ _ |- _ => destruct H
           | H : Some _ = Some _ |- _ => injection H as <-
           | H : Next _ = Next _ |- _ => injection H as <-
           end;
    try discriminate; try reflexivity; try congruence;
    try (match goal with
         | H : Reject _ = Reject _ |- _ =>
             exfalso; injection H; clear H; answers_differ
         end);
    eauto 8.
Qed.

Lemma blacklistToken_tables (now : Z) (token : jsstring) (db : Database) :
  users (blacklistToken now token db) = users db
  /\ refreshTokens (blacklistToken now token db) = refreshTokens db.
Proof.
  unfold blacklistToken, jwt_verify.
  destruct (jwt_open_access token) as [p|]; [|split; reflexivity].
  destruct (JWTPayload.exp p) as [exp|] eqn:E; cbn [bind catch];
    [destruct (exp <=? clockTimestamp now)%Z; cbn [bind catch];
     rewrite ?E; [|destruct (exp =? 0)%Z]|rewrite ?E];
    split; reflexivity.
Qed.


(** The tables after the handler of the logout route: the users are
    untouched, the blacklist is that after the access-token step. *)
Lemma logout_handler_tables (now : Z) (req : Request) (db : Database) :
  users (snd (logout_handler now req db)) = users db
  /\ blacklistedTokens (snd (logout_handler now req db))
     = blacklistedTokens
         match js_or (cookie accessToken req)
                     (bearer_opt (authorization req)) with
         | Some ((_ :: _) as accessToken) => blacklistToken now accessToken db
         | _ => db
         end.
Proof.
  unfold logout_handler. cbn [snd].
  destruct (js_or (cookie accessToken req) (bearer_opt (authorization req)))
    as [[|c t]|];
    destruct (cookie refreshToken req) as [[|c' t']|];
    try destruct (verifyRefreshToken now (c' :: t') _);
    cbn [revokeRefreshToken storage.revokeRefreshToken users
         blacklistedTokens];
    split; try reflexivity; apply blacklistToken_tables.
Qed.

(** [verifyRefreshToken] reads the tables through one lookup. *)
Lemma verifyRefreshToken_ext (now : Z) (token : jsstring)
  (db db' : Database) :
  (forall payload, jwt_open_refresh token = Some payload ->
     getRefreshToken (RefreshTokenPayload.tokenId payload)
                     (RefreshTokenPayload.userId payload) db'
     = getRefreshToken (RefreshTokenPayload.tokenId payload)
                       (RefreshTokenPayload.userId payload) db) ->
  verifyRefreshToken now token db' = verifyRefreshToken now token db.
Proof.
  intros H. unfold verifyRefreshToken, jwt_verify.
  destruct (jwt_open_refresh token) as [p|]; [|reflexivity].
  specialize (H p eq_refl).
  destruct (RefreshTokenPayload.exp p) as [e|];
    [destruct (e <=? clockTimestamp now)%Z|];
    cbn [bind catch]; rewrite ?H; reflexivity.
Qed.





(** ** Expired rows *)

Lemma expired_blacklist_row_token_invalid (now : Z) (db : Database)
  (row : BlacklistedToken.t) :
  blacklist_written_by_server db ->
  In row (blacklistedTokens db) ->
  (BlacklistedToken.expiresAt row < now)%Z ->
  verifyAccessToken now (BlacklistedToken.token row) = None.
Proof.
  intros Hwf Hin Hexp. destruct (Hwf row Hin) as (payload & exp & Ho & He & Hat).
  unfold verifyAccessToken, jwt_verify. rewrite Ho, He.
  assert (Hle : (exp <= clockTimestamp now)%Z).
  { unfold clockTimestamp. apply Z.div_le_lower_bound; lia. }
  apply Z.leb_le in Hle. rewrite Hle. reflexivity.
Qed.

Lemma isTokenBlacklisted_after_cleanup (now : Z) (token : jsstring)
  (db : Database) :
  isTokenBlacklisted token db = true ->
  isTokenBlacklisted token (cleanupExpiredTokens now db) = false ->
  exists row,
    In row (blacklistedTokens db)
    /\ BlacklistedToken.token row = token
    /\ (BlacklistedToken.expiresAt row < now)%Z.
Proof.
  unfold isTokenBlacklisted, storage.isTokenBlacklisted, cleanupExpiredTokens,
    storage.cleanupExpiredTokens. cbn [blacklistedTokens].
  destruct (find _ (blacklistedTokens db)) as [row|] eqn:E; [|discriminate].
  intros _. apply find_some in E. destruct E as [Hin Htok].
  destruct (find _ (filter _ _)) as [row'|] eqn:E'; [discriminate|].
  intros _. exists row. split; [exact Hin|].
  split; [apply str_eqb_eq; exact Htok|].
  destruct (Z.ltb_spec (BlacklistedToken.expiresAt row) now) as [Hlt|Hge];
    [exact Hlt|].
  exfalso.
  pose proof (find_none _ _ E' row) as Hnone. cbv beta in Hnone.
  rewrite Htok in Hnone. assert (true = false); [|discriminate].
  apply Hnone. apply filter_In. split; [exact Hin|].
  apply negb_true_iff. apply Z.ltb_ge. exact Hge.
Qed.

Lemma isTokenBlacklisted_cleanup_false (now : Z) (token : jsstring)
  (db : Database) :
  isTokenBlacklisted token db = false ->
  isTokenBlacklisted token (cleanupExpiredTokens now db) = false.
Proof.
  unfold isTokenBlacklisted, storage.isTokenBlacklisted, cleanupExpiredTokens,
    storage.cleanupExpiredTokens. cbn [blacklistedTokens].
  destruct (find _ (blacklistedTokens db)) as [row|] eqn:E; [discriminate|].
  intros _.
  destruct (find _ (filter _ _)) as [row'|] eqn:E'; [|reflexivity].
  apply find_some in E'. destruct E' as [Hin Htok].
  apply filter_In in Hin. destruct Hin as [Hin _].
  pose proof (find_none _ _ E row' Hin) as Hnone. cbv beta in Hnone.
  congruence.
Qed.

Lemma acceptance_after_cleanup (now : Z) (req : Request) (db : Database) :
  blacklist_written_by_server db ->
  accepted (authenticateToken now req (cleanupExpiredTokens now db))
  = accepted (authenticateToken now req db).
Proof.
  intros Hwf. unfold authenticateToken.
  destruct (js_or (bearer (authorization req)) (cookie accessToken req))
    as [[|c t]|]; try reflexivity.
  destruct (isTokenBlacklisted (c :: t) db) eqn:Hb.
  - destruct (isTokenBlacklisted (c :: t) (cleanupExpiredTokens now db))
      eqn:Hb'; [reflexivity|].
    destruct (isTokenBlacklisted_after_cleanup _ _ _ Hb Hb')
      as (row & Hin & Htok & Hexp).
    rewrite <- Htok.
    rewrite (expired_blacklist_row_token_invalid _ Hwf Hin Hexp).
    reflexivity.
  - rewrite (isTokenBlacklisted_cleanup_false _ _ _ Hb). reflexivity.
Qed.

(** C5: an expired refresh record that the lookup finds makes
    [verifyRefreshToken] answer null although the row is still in the
    table; and when the blacklist holds the rows the server wrote, the
    token of an expired blacklist row is refused by [verifyAccessToken]
    itself, so that deleting the expired rows (the sweep) changes the
    acceptance of no request. *)
Theorem expired_rows_are_dead (now : Z) (db : Database) :
  (forall token payload row,
      jwt_open_refresh token = Some payload ->
      getRefreshToken (RefreshTokenPayload.tokenId payload)
                      (RefreshTokenPayload.userId payload) db = Some row ->
      (RefreshToken.expiresAt row < now)%Z ->
      In row (refreshTokens db)
      /\ verifyRefreshToken now token db = None)
  /\ (blacklist_written_by_server db ->
      (forall row,
          In row (blacklistedTokens db) ->
          (BlacklistedToken.expiresAt row < now)%Z ->
          verifyAccessToken now (BlacklistedToken.token row) = None)
      /\ (forall req,
            accepted (authenticateToken now req (cleanupExpiredTokens now db))
            = accepted (authenticateToken now req db))).
Proof.
  split.
  - intros token payload row Ho Hrow Hexp. split.
    + apply find_some in Hrow. exact (proj1 Hrow).
    + unfold verifyRefreshToken, jwt_verify. rewrite Ho.
      apply Z.ltb_lt in Hexp.
      destruct (RefreshTokenPayload.exp payload) as [e|];
        [destruct (e <=? clockTimestamp now)%Z|];
        cbn [bind catch]; rewrite ?Hrow, ?Hexp; reflexivity.
  - intros Hwf. split.
    + intros row. apply expired_blacklist_row_token_invalid. exact Hwf.
    + intros req. apply acceptance_after_cleanup. exact Hwf.
Qed.

(** The blacklist invariant holds of the empty table and is kept by
    every operation that writes a table. *)

Lemma blacklist_written_by_server_init (db : Database) :
  blacklistedTokens db = [] -> blacklist_written_by_server db.
Proof. intros E row Hin. rewrite E in Hin. contradiction. Qed.

Lemma blacklist_written_by_server_same (db db' : Database) :
  blacklistedTokens db' = blacklistedTokens db ->
  blacklist_written_by_server db -> blacklist_written_by_server db'.
Proof. intros E Hwf row Hin. rewrite E in Hin. exact (Hwf row Hin). Qed.

Lemma blacklistToken_keeps_invariant (now : Z) (token : jsstring)
  (db : Database) :
  blacklist_written_by_server db ->
  blacklist_written_by_server (blacklistToken now token db).
Proof.
  intros Hwf. unfold blacklistToken, jwt_verify.
  destruct (jwt_open_access token) as [p|] eqn:Ho; [|exact Hwf].
  destruct (JWTPayload.exp p) as [exp|] eqn:E; cbn [bind catch];
    [destruct (exp <=? clockTimestamp now)%Z; cbn [bind catch];
     rewrite ?E; [exact Hwf|destruct (exp =? 0)%Z; [exact Hwf|]]
    |rewrite ?E; exact Hwf].
  cbn [catch]. intros row Hin.
  unfold storage.blacklistToken in Hin. cbn [blacklistedTokens] in Hin.
  apply in_app_or in Hin. destruct Hin as [Hin|[<-|[]]]; [exact (Hwf row Hin)|].
  exists p, exp. auto.
Qed.

Lemma cleanupExpiredTokens_keeps_invariant (now : Z) (db : Database) :
  blacklist_written_by_server db ->
  blacklist_written_by_server (cleanupExpiredTokens now db).
Proof.
  intros Hwf row Hin. apply filter_In in Hin. exact (Hwf row (proj1 Hin)).
Qed.

Lemma logout_keeps_invariant (now : Z) (req : Request) (db : Database) :
  blacklist_written_by_server db ->
  blacklist_written_by_server (snd (post_api_logout now req db)).
Proof.
  intros Hwf. unfold post_api_logout.
  destruct (authenticateToken now req db); [|exact Hwf].
  unfold logout_handler. cbn [snd].
  assert (Hbl : blacklist_written_by_server
                  match js_or (cookie accessToken req)
                              (bearer_opt (authorization req)) with
                  | Some ((_ :: _) as accessToken) =>
                      blacklistToken now accessToken db
                  | _ => db
                  end).
  { destruct (js_or _ _) as [[|c t]|]; try exact Hwf.
    apply blacklistToken_keeps_invariant. exact Hwf. }
  destruct (cookie refreshToken req) as [[|c' t']|]; try exact Hbl.
  destruct (verifyRefreshToken now (c' :: t') _); exact Hbl.
Qed.

Lemma register_keeps_blacklist (e : Entropy) (now : Z) (req : Request)
  (db : Database) :
  blacklistedTokens (snd (post_api_register e now req db))
  = blacklistedTokens db.
Proof.
  unfold post_api_register.
  destruct (registrationValidationSchema (body req)) as [data|issues];
    [|reflexivity].
  cbv zeta. destruct (getUserByEmail (reg_email data) db); [reflexivity|].
  destruct (strength (calculatePasswordStrength (reg_password data)));
    reflexivity.
Qed.

Lemma login_keeps_blacklist (e : Entropy) (now : Z) (req : Request)
  (db : Database) :
  blacklistedTokens (snd (post_api_login e now req db))
  = blacklistedTokens db.
Proof.
  unfold post_api_login.
  destruct (loginValidationSchema (body req)) as [data|issues];
    [|reflexivity].
  cbv zeta. destruct (getUserByEmail (login_email data) db) as [user|];
    [|reflexivity].
  destruct (comparePasswords (login_password data) (User.password user))
    as [[|]|error]; reflexivity.
Qed.

Lemma refresh_keeps_blacklist (e : Entropy) (now : Z) (req : Request)
  (db : Database) :
  blacklistedTokens (snd (post_api_refresh e now req db))
  = blacklistedTokens db.
Proof.
  unfold post_api_refresh.
  destruct (js_or (cookie refreshToken req)
                  (body_field "refreshToken" (body req))) as [[|c t]|];
    try reflexivity.
  destruct (verifyRefreshToken now (c :: t) db) as [payload|];
    [|reflexivity].
  destruct (getUser (RefreshTokenPayload.userId payload) db); reflexivity.
Qed.

Lemma logout_all_keeps_blacklist (now : Z) (req : Request) (db : Database) :
  blacklistedTokens (snd (post_api_logout_all now req db))
  = blacklistedTokens db.
Proof.
  unfold post_api_logout_all.
  destruct (authenticateToken now req db); reflexivity.
Qed.

(** In every store the server reaches, each blacklist row carries the
    expiry of its own token, so the sweep is invisible to the middleware:
    it changes the acceptance of no request. *)
Theorem sweep_keeps_acceptance (now : Z) (req : Request) (db : Database) :
  reachable db ->
  accepted (authenticateToken now req (cleanupExpiredTokens now db))
  = accepted (authenticateToken now req db).
Proof.
  intros Hr. apply acceptance_after_cleanup.
  revert Hr. clear now req. induction 1 as [db _ Hb|e now req db _ IH
    |e now req db _ IH|e now req db _ IH|now req db _ IH|now req db _ IH
    |now db _ IH].
  - apply blacklist_written_by_server_init. exact Hb.
  - exact (blacklist_written_by_server_same _
             (register_keeps_blacklist e now req db) IH).
  - exact (blacklist_written_by_server_same _
             (login_keeps_blacklist e now req db) IH).
  - exact (blacklist_written_by_server_same _
             (refresh_keeps_blacklist e now req db) IH).
  - apply logout_keeps_invariant. exact IH.
  - exact (blacklist_written_by_server_same _
             (logout_all_keeps_blacklist now req db) IH).
  - apply cleanupExpiredTokens_keeps_invariant. exact IH.
Qed.

(** ** Login and registration *)

(** C9: on a login request that passes validation, the answer when no
    user has the e-mail and the answer when the user exists and
    [comparePasswords] returns false are the same: status 401 and the body
    "Invalid credentials" / INVALID_CREDENTIALS, no cookie, no table
    changed. *)
Theorem login_failures_indistinguishable (e e' : Entropy) (now now' : Z)
  (req : Request) (db db' : Database) (data : LoginData) (user : User.t) :
  loginValidationSchema (body req) = ParseSuccess data ->
  getUserByEmail (login_email data) db = None ->
  getUserByEmail (login_email data) db' = Some user ->
  comparePasswords (login_password data) (User.password user) = Ok false ->
  post_api_login e now req db
  = (error_response 401 "Invalid credentials" "INVALID_CREDENTIALS", db)
  /\ post_api_login e' now' req db'
     = (error_response 401 "Invalid credentials" "INVALID_CREDENTIALS", db')
  /\ fst (post_api_login e now req db)
     = fst (post_api_login e' now' req db').
Proof.
  intros Hv Hnone Hsome Hcmp.
  assert (H1 : post_api_login e now req db
               = (error_response 401 "Invalid credentials"
                                 "INVALID_CREDENTIALS", db)).
  { unfold post_api_login. rewrite Hv. cbv zeta. rewrite Hnone.
    reflexivity. }
  assert (H2 : post_api_login e' now' req db'
               = (error_response 401 "Invalid credentials"
                                 "INVALID_CREDENTIALS", db')).
  { unfold post_api_login. rewrite Hv. cbv zeta. rewrite Hsome, Hcmp.
    reflexivity. }
  rewrite H1, H2. auto.
Qed.

(** A stored credential that makes [comparePasswords] throw is answered
    500 LOGIN_ERROR, not the 401 of a wrong password. *)
Lemma login_throwing_credential (e : Entropy) (now : Z) (req : Request)
  (db : Database) (data : LoginData) (user : User.t) (error : Error) :
  loginValidationSchema (body req) = ParseSuccess data ->
  getUserByEmail (login_email data) db = Some user ->
  comparePasswords (login_password data) (User.password user)
  = Throw error ->
  post_api_login e now req db
  = (error_response 500 "Internal server error" "LOGIN_ERROR", db).
Proof.
  intros Hv Hsome Hcmp. unfold post_api_login.
  rewrite Hv. cbv zeta. rewrite Hsome, Hcmp. reflexivity.
Qed.

Lemma no_issues_app {A} (a b : list A) :
  no_issues (a ++ b) = no_issues a && no_issues b.
Proof. destruct a; reflexivity. Qed.

Lemma registration_password_accepted (b : list (string * jsstring))
  (data : RegistrationData) :
  registrationValidationSchema b = ParseSuccess data ->
  success (passwordValidationSchema (reg_password data)) = true.
Proof.
  unfold registrationValidationSchema. cbv zeta.
  destruct (body_field "name" b) as [name|],
    (body_field "email" b) as [email|],
    (body_field "password" b) as [password|],
    (body_field "confirmPassword" b) as [confirm|]; try discriminate.
  destruct (no_issues _) eqn:E; [|discriminate].
  intros H. injection H as <-. cbn [reg_password].
  rewrite !no_issues_app, !andb_true_iff in E.
  destruct E as ((_ & _ & Hp & _) & _). unfold field_issues in Hp.
  destruct (passwordValidationSchema password);
    [reflexivity | discriminate].
Qed.

(** C10: a password the gate accepts scores at least 7 and is good or
    strong; hence the registration route never answers "Password is too
    weak". *)
Theorem accepted_password_is_good_or_strong :
  (forall p : jsstring,
      success (passwordValidationSchema p) = true ->
      7 <= score (calculatePasswordStrength p)
      /\ (strength (calculatePasswordStrength p) = good
          \/ strength (calculatePasswordStrength p) = strong))
  /\ (forall (e : Entropy) (now : Z) (req : Request) (db : Database)
             (analysis : PasswordStrength),
        fst (post_api_register e now req db) <> password_too_weak analysis).
Proof.
  assert (Hgate : forall p : jsstring,
      success (passwordValidationSchema p) = true ->
      7 <= score (calculatePasswordStrength p)
      /\ (strength (calculatePasswordStrength p) = good
          \/ strength (calculatePasswordStrength p) = strong)).
  { intros p H. pose proof (accepted_password_score p H) as H7.
    split; [exact H7|].
    pose proof (calculatePasswordStrength_score_le_9 p) as H9.
    pose proof (band_spec (score (calculatePasswordStrength p))) as Hband.
    rewrite <- calculatePasswordStrength_band in Hband.
    destruct Hband as (_ & _ & _ & B4 & B5).
    destruct (Nat.eq_dec (score (calculatePasswordStrength p)) 9) as [E|E].
    - right. apply B5. lia.
    - left. apply B4. lia. }
  split; [exact Hgate|].
  intros e now req db analysis. unfold post_api_register.
  destruct (registrationValidationSchema (body req)) as [data|issues] eqn:Hv.
  2: { cbn [catch fst]. answers_differ. }
  cbv zeta.
  destruct (getUserByEmail (reg_email data) db).
  { cbn [catch fst]. answers_differ. }
  apply registration_password_accepted in Hv.
  destruct (Hgate _ Hv) as [_ [Hs|Hs]]; rewrite Hs;
    unfold hashPassword; cbn [scryptAsync bind catch];
    unfold createUser, generateRefreshToken; cbn [catch fst];
    intros H; apply (f_equal status) in H; discriminate.
Qed.

(** ** More on the middleware and the token helpers *)

(** [optionalAuth] sets [req.user] exactly when [authenticateToken] would
    call [next()], and to the same user. *)
Theorem optionalAuth_accepts_as_authenticateToken (now : Z) (req : Request)
  (db : Database) :
  optionalAuth now req db = accepted (authenticateToken now req db).
Proof.
  unfold optionalAuth, authenticateToken.
  destruct (js_or (bearer (authorization req)) (cookie accessToken req))
    as [[|c t]|]; try reflexivity.
  destruct (isTokenBlacklisted (c :: t) db); cbn [negb]; [reflexivity|].
  destruct (verifyAccessToken now (c :: t)) as [payload|]; [|reflexivity].
  destruct (getUser (JWTPayload.userId payload) db); reflexivity.
Qed.

(** What a successful [verifyAccessToken] says. *)
Lemma verifyAccessToken_Some (now : Z) (token : jsstring)
  (payload : JWTPayload.t) :
  verifyAccessToken now token = Some payload <->
  jwt_open_access token = Some payload
  /\ (forall e, JWTPayload.exp payload = Some e ->
                (clockTimestamp now < e)%Z).
Proof.
  unfold verifyAccessToken, jwt_verify.
  destruct (jwt_open_access token) as [p|]; cbn [bind catch].
  2: { split; [discriminate|]. intros [H _]. discriminate. }
  destruct (JWTPayload.exp p) as [e|] eqn:E.
  - destruct (Z.leb_spec e (clockTimestamp now)) as [Hle|Hlt];
      cbn [bind catch].
    + split; [discriminate|]. intros [H He]. injection H as <-.
      specialize (He e E). lia.
    + split.
      * intros H. injection H as <-. split; [reflexivity|].
        intros e' He'. rewrite E in He'. injection He' as <-. exact Hlt.
      * intros [H _]. exact H.
  - cbn [bind catch]. split.
    + intros H. injection H as <-. split; [reflexivity|].
      intros e' He'. rewrite E in He'. discriminate.
    + intros [H _]. exact H.
Qed.

Lemma isTokenBlacklisted_app (token : jsstring) (db : Database)
  (row : BlacklistedToken.t) :
  isTokenBlacklisted token (storage.blacklistToken row db)
  = isTokenBlacklisted token db
    || str_eqb (BlacklistedToken.token row) token.
Proof.
  unfold isTokenBlacklisted, storage.isTokenBlacklisted,
    storage.blacklistToken. cbn [blacklistedTokens].
  rewrite find_app.
  destruct (find _ (blacklistedTokens db)); [reflexivity|].
  cbn [find]. destruct (str_eqb (BlacklistedToken.token row) token);
    reflexivity.
Qed.

(** What [blacklistToken] writes: nothing, or one row for the token. *)
Lemma blacklistToken_cases (now : Z) (token : jsstring) (db : Database) :
  blacklistToken now token db = db
  \/ exists payload exp,
       verifyAccessToken now token = Some payload
       /\ JWTPayload.exp payload = Some exp /\ exp <> 0%Z
       /\ blacklistToken now token db
          = storage.blacklistToken
              {| BlacklistedToken.token := token;
                 BlacklistedToken.expiresAt := (exp * 1000)%Z |} db.
Proof.
  unfold blacklistToken, verifyAccessToken, jwt_verify.
  destruct (jwt_open_access token) as [p|]; [|left; reflexivity].
  destruct (JWTPayload.exp p) as [exp|] eqn:E; cbn [bind catch];
    [|rewrite E; left; reflexivity].
  destruct (exp <=? clockTimestamp now)%Z; cbn [bind catch];
    [left; reflexivity|].
  rewrite E. destruct (Z.eqb_spec exp 0) as [->|Hexp]; [left; reflexivity|].
  right. exists p, exp. cbn [catch]. auto.
Qed.

(** [blacklistToken] on a token that verifies and has a non-zero [exp]
    claim: the token is blacklisted, and every later request that presents
    it is answered TOKEN_REVOKED.  On a token that does not verify, or
    verifies without an [exp] claim, no table changes. *)
Theorem blacklistToken_revokes_verified_token (now later : Z)
  (token : jsstring) (db : Database) :
  (forall payload exp,
      verifyAccessToken now token = Some payload ->
      JWTPayload.exp payload = Some exp -> exp <> 0%Z ->
      isTokenBlacklisted token (blacklistToken now token db) = true
      /\ forall req,
           presentedToken req = Some token ->
           authenticateToken later req (blacklistToken now token db)
           = Reject (error_response 401 "Token has been revoked"
                                    "TOKEN_REVOKED"))
  /\ (verifyAccessToken now token = None ->
      blacklistToken now token db = db)
  /\ (forall payload,
        verifyAccessToken now token = Some payload ->
        JWTPayload.exp payload = None ->
        blacklistToken now token db = db).
Proof.
  split; [|split].
  - intros payload exp Hv He Hexp.
    assert (Hb : isTokenBlacklisted token (blacklistToken now token db)
                 = true).
    { unfold blacklistToken. unfold verifyAccessToken in Hv.
      destruct (jwt_verify jwt_open_access JWTPayload.exp now token)
        as [p|error]; [|discriminate].
      cbn [bind catch] in Hv |- *. injection Hv as ->. rewrite He.
      destruct (Z.eqb_spec exp 0) as [E|_]; [contradiction|].
      cbn [catch]. rewrite isTokenBlacklisted_app.
      cbn [BlacklistedToken.token]. rewrite str_eqb_refl.
      apply orb_true_r. }
    split; [exact Hb|]. intros req Hreq.
    unfold authenticateToken. unfold presentedToken in Hreq.
    destruct (js_or (bearer (authorization req)) (cookie accessToken req))
      as [[|c t]|]; try discriminate.
    injection Hreq as <-. rewrite Hb. reflexivity.
  - intros Hv. unfold blacklistToken. unfold verifyAccessToken in Hv.
    destruct (jwt_verify jwt_open_access JWTPayload.exp now token)
      as [p|error]; [discriminate|reflexivity].
  - intros payload Hv He. unfold blacklistToken.
    unfold verifyAccessToken in Hv.
    destruct (jwt_verify jwt_open_access JWTPayload.exp now token)
      as [p|error]; [|discriminate].
    cbn [bind catch] in Hv |- *. injection Hv as ->. rewrite He.
    reflexivity.
Qed.

(** What the middleware checked when it called [next()]. *)
Lemma authenticateToken_Next (now : Z) (req : Request) (db : Database)
  (user : User.t) :
  authenticateToken now req db = Next user ->
  exists token payload,
    presentedToken req = Some token
    /\ isTokenBlacklisted token db = false
    /\ verifyAccessToken now token = Some payload
    /\ getUser (JWTPayload.userId payload) db = Some user.
Proof.
  unfold authenticateToken, presentedToken.
  destruct (js_or (bearer (authorization req)) (cookie accessToken req))
    as [[|c t]|]; try discriminate.
  destruct (isTokenBlacklisted (c :: t) db) eqn:Hb; [discriminate|].
  destruct (verifyAccessToken now (c :: t)) as [payload|] eqn:Hv;
    [|discriminate].
  destruct (getUser (JWTPayload.userId payload) db) as [u|] eqn:Hu;
    [|discriminate].
  intros H. injection H as <-. exists (c :: t), payload. auto.
Qed.

(** The middleware reads the users and the blacklist only. *)
Lemma authenticateToken_ext (now : Z) (req : Request) (db db' : Database) :
  users db' = users db ->
  blacklistedTokens db' = blacklistedTokens db ->
  authenticateToken now req db' = authenticateToken now req db.
Proof.
  intros Hu Hb. unfold authenticateToken, isTokenBlacklisted,
    storage.isTokenBlacklisted, getUser. rewrite Hu, Hb. reflexivity.
Qed.

(** A logout that presents its access token in the Authorization header,
    with no accessToken cookie, revokes that token: the same request is
    answered TOKEN_REVOKED from then on. *)
Theorem logout_revokes_presented_token (now later : Z) (req : Request)
  (db : Database) (user : User.t) :
  authenticateToken now req db = Next user ->
  truthy (cookie accessToken req) = false ->
  (forall token payload,
      presentedToken req = Some token ->
      jwt_open_access token = Some payload ->
      exists exp, JWTPayload.exp payload = Some exp /\ exp <> 0%Z) ->
  authenticateToken later req (snd (post_api_logout now req db))
  = Reject (error_response 401 "Token has been revoked" "TOKEN_REVOKED").
Proof.
  intros Hnext Hcookie Hexp.
  destruct (authenticateToken_Next _ _ _ Hnext)
    as (token & payload & Hp & _ & Hv & _).
  destruct (Hexp token payload Hp (proj1 (proj1 (verifyAccessToken_Some _ _ _)
                                            Hv)))
    as (exp & He & Hnz).
  unfold post_api_logout. rewrite Hnext.
  destruct (logout_handler_tables now req db) as [_ Hbl].
  assert (Hacc : js_or (cookie accessToken req)
                       (bearer_opt (authorization req)) = Some token).
  { unfold presentedToken in Hp. unfold js_or in Hp |- *. rewrite Hcookie.
    destruct (truthy (bearer (authorization req))) eqn:Ht.
    - destruct (authorization req) as [[|c h]|]; try discriminate.
      cbn [bearer bearer_opt] in Hp |- *.
      destruct (nth_error (split 32 (c :: h)) 1) as [[|c' t']|];
        try discriminate. exact Hp.
    - destruct (cookie accessToken req) as [[|c t]|]; discriminate. }
  rewrite Hacc in Hbl.
  assert (Htok : exists c t, token = c :: t).
  { unfold presentedToken in Hp.
    destruct (js_or (bearer (authorization req)) (cookie accessToken req))
      as [[|c t]|]; try discriminate. injection Hp as <-. eauto. }
  destruct Htok as (c & t & ->).
  unfold authenticateToken.
  unfold presentedToken in Hp.
  destruct (js_or (bearer (authorization req)) (cookie accessToken req))
    as [[|c0 t0]|]; try discriminate.
  injection Hp as -> ->.
  unfold isTokenBlacklisted, storage.isTokenBlacklisted in *.
  rewrite Hbl.
  destruct (blacklistToken_cases now (c :: t) db)
    as [E|(p & exp' & Hv' & He' & Hnz' & E)].
  - exfalso. unfold blacklistToken in E. unfold verifyAccessToken in Hv.
    destruct (jwt_verify jwt_open_access JWTPayload.exp now (c :: t))
      as [p|error]; [|discriminate].
    cbn [bind catch] in Hv, E. injection Hv as ->. rewrite He in E.
    destruct (Z.eqb_spec exp 0) as [E0|_]; [contradiction|].
    cbn [catch] in E. apply (f_equal blacklistedTokens) in E.
    unfold storage.blacklistToken in E. cbn [blacklistedTokens] in E.
    apply (f_equal (@length _)) in E. rewrite length_app in E.
    cbn [length] in E. lia.
  - rewrite E. unfold storage.blacklistToken. cbn [blacklistedTokens].
    rewrite find_app.
    destruct (find _ (blacklistedTokens db)); [reflexivity|].
    cbn [find BlacklistedToken.token]. rewrite str_eqb_refl. reflexivity.
Qed.

(** The handler of the logout route reads the accessToken cookie first,
    the middleware the Authorization header first.  When a request carries
    both and they differ, the logout blacklists at most the cookie's
    token: the header token that authenticated the request stays accepted. *)
Theorem logout_blacklists_cookie_not_header (now : Z) (req : Request)
  (db : Database) (user : User.t) (headerToken cookieToken : jsstring) :
  authenticateToken now req db = Next user ->
  bearer (authorization req) = Some headerToken ->
  truthy (Some headerToken) = true ->
  cookie accessToken req = Some cookieToken ->
  truthy (Some cookieToken) = true ->
  cookieToken <> headerToken ->
  status (fst (post_api_logout now req db)) = 200
  /\ isTokenBlacklisted headerToken (snd (post_api_logout now req db))
     = false
  /\ authenticateToken now req (snd (post_api_logout now req db))
     = Next user.
Proof.
  intros Hnext Hh Hht Hc Hct Hneq.
  destruct (authenticateToken_Next _ _ _ Hnext)
    as (token & payload & Hp & Hb & Hv & Hu).
  assert (token = headerToken) as ->.
  { unfold presentedToken, js_or in Hp. rewrite Hh, Hht in Hp.
    destruct headerToken; [discriminate|]. congruence. }
  unfold post_api_logout. rewrite Hnext.
  destruct (logout_handler_tables now req db) as [Hus Hbl].
  unfold js_or in Hbl. rewrite Hc, Hct in Hbl.
  destruct cookieToken as [|c t]; [discriminate|].
  assert (Hb' : isTokenBlacklisted headerToken
                  (snd (logout_handler now req db)) = false).
  { unfold isTokenBlacklisted, storage.isTokenBlacklisted in *.
    rewrite Hbl.
    destruct (blacklistToken_cases now (c :: t) db)
      as [->|(p & exp & _ & _ & _ & ->)]; [exact Hb|].
    unfold storage.blacklistToken. cbn [blacklistedTokens].
    rewrite find_app.
    destruct (find _ (blacklistedTokens db)); [discriminate|].
    cbn [find BlacklistedToken.token].
    destruct (str_eqb (c :: t) headerToken) eqn:E; [|reflexivity].
    apply str_eqb_eq in E. contradiction. }
  split; [reflexivity|]. split; [exact Hb'|].
  unfold authenticateToken.
  unfold presentedToken in Hp.
  destruct (js_or (bearer (authorization req)) (cookie accessToken req))
    as [[|c0 t0]|]; try discriminate.
  injection Hp as ->. rewrite Hb', Hv.
  unfold getUser in *. rewrite Hus, Hu. reflexivity.
Qed.

(** ** More on the refresh records *)

Lemma find_filter_frame {A} (f g : A -> bool) (l : list A) :
  (forall x, f x = true -> g x = true) ->
  find f (filter g l) = find f l.
Proof.
  intros H. induction l as [|x l IH]; [reflexivity|]. cbn [filter find].
  destruct (f x) eqn:Ef.
  - rewrite (H x Ef). cbn [find]. rewrite Ef. reflexivity.
  - destruct (g x); [cbn [find]; rewrite Ef|]; exact IH.
Qed.

Lemma getRefreshToken_revoke_other (tokenId userId tokenId' userId' : jsstring)
  (db : Database) :
  tokenId' <> tokenId \/ userId' <> userId ->
  getRefreshToken tokenId' userId' (revokeRefreshToken tokenId userId db)
  = getRefreshToken tokenId' userId' db.
Proof.
  intros Hneq. unfold getRefreshToken, revokeRefreshToken,
    storage.revokeRefreshToken. cbn [refreshTokens].
  apply find_filter_frame. intros row Hrow.
  unfold refreshTokenMatches in *. apply andb_true_iff in Hrow.
  destruct Hrow as [Ht Hu]. apply str_eqb_eq in Ht. apply str_eqb_eq in Hu.
  apply negb_true_iff. apply andb_false_iff.
  destruct Hneq as [Hn|Hn]; [left|right]; apply str_eqb_neq; congruence.
Qed.

(** Revoking one refresh record leaves every other refresh token as
    it was; so does the logout route, which revokes the record of the
    refreshToken cookie only. *)
Theorem revocation_keeps_other_sessions (now later : Z) (token : jsstring)
  (db : Database) :
  (forall tokenId userId,
      (forall payload, jwt_open_refresh token = Some payload ->
         RefreshTokenPayload.tokenId payload <> tokenId
         \/ RefreshTokenPayload.userId payload <> userId) ->
      verifyRefreshToken later token (revokeRefreshToken tokenId userId db)
      = verifyRefreshToken later token db)
  /\ (forall req,
        (forall presented payload payload',
            cookie refreshToken req = Some presented ->
            jwt_open_refresh presented = Some payload ->
            jwt_open_refresh token = Some payload' ->
            RefreshTokenPayload.tokenId payload'
            <> RefreshTokenPayload.tokenId payload
            \/ RefreshTokenPayload.userId payload'
               <> RefreshTokenPayload.userId payload) ->
        verifyRefreshToken later token (snd (post_api_logout now req db))
        = verifyRefreshToken later token db).
Proof.
  split.
  - intros tokenId userId Hneq. apply verifyRefreshToken_ext.
    intros payload Ho. apply getRefreshToken_revoke_other.
    exact (Hneq payload Ho).
  - intros req Hneq. unfold post_api_logout.
    destruct (authenticateToken now req db); [|reflexivity].
    unfold logout_handler. cbn [snd].
    set (db1 := match js_or (cookie accessToken req)
                            (bearer_opt (authorization req)) with
                | Some ((_ :: _) as accessToken) =>
                    blacklistToken now accessToken db
                | _ => db
                end).
    assert (H1 : refreshTokens db1 = refreshTokens db).
    { unfold db1. destruct (js_or _ _) as [[|c t]|]; try reflexivity.
      apply blacklistToken_tables. }
    assert (H2 : verifyRefreshToken later token db1
                 = verifyRefreshToken later token db).
    { apply verifyRefreshToken_ext. intros payload _.
      unfold getRefreshToken. rewrite H1. reflexivity. }
    destruct (cookie refreshToken req) as [[|c' t']|] eqn:Hc;
      try exact H2.
    destruct (verifyRefreshToken now (c' :: t') db1) as [p|] eqn:Hv;
      [|exact H2].
    rewrite <- H2. apply verifyRefreshToken_ext. intros payload' Ho'.
    apply getRefreshToken_revoke_other.
    apply verifyRefreshToken_Some in Hv. destruct Hv as [Ho _].
    exact (Hneq (c' :: t') p payload' eq_refl Ho Ho').
Qed.

Lemma find_filter_unique {A} (key : A -> jsstring) (f g : A -> bool)
  (k : jsstring) (l : list A) :
  NoDup (map key l) ->
  (forall x, f x = true -> key x = k) ->
  find f (filter g l)
  = match find f l with
    | Some x => if g x then Some x else None
    | None => None
    end.
Proof.
  intros Hnd Hkey. induction l as [|x l IH]; [reflexivity|].
  cbn [map] in Hnd. apply NoDup_cons_iff in Hnd. destruct Hnd as [Hx Hnd].
  cbn [filter find]. destruct (f x) eqn:Ef.
  - destruct (g x) eqn:Eg; [cbn [find]; rewrite Ef; reflexivity|].
    destruct (find f (filter g l)) as [y|] eqn:Ey; [|reflexivity].
    exfalso. apply find_some in Ey. destruct Ey as [Hin Hy].
    apply filter_In in Hin. apply Hx.
    rewrite (Hkey x Ef), <- (Hkey y Hy). apply in_map. exact (proj1 Hin).
  - destruct (g x); [cbn [find]; rewrite Ef|]; exact (IH Hnd).
Qed.

(** With the token column unique, as the schema declares it, the sweep is
    invisible to [verifyRefreshToken]: deleting the expired refresh
    records changes the answer for no token. *)
Theorem sweep_keeps_refresh_verification (now : Z) (token : jsstring)
  (db : Database) :
  refresh_tokens_unique db ->
  verifyRefreshToken now token (cleanupExpiredTokens now db)
  = verifyRefreshToken now token db.
Proof.
  intros Hnd. unfold verifyRefreshToken, jwt_verify.
  destruct (jwt_open_refresh token) as [p|]; [|reflexivity].
  assert (H : match getRefreshToken (RefreshTokenPayload.tokenId p)
                      (RefreshTokenPayload.userId p)
                      (cleanupExpiredTokens now db) with
              | None => Ok None
              | Some row =>
                  if (RefreshToken.expiresAt row <? now)%Z then Ok None
                  else Ok (Some p)
              end
              = match getRefreshToken (RefreshTokenPayload.tokenId p)
                        (RefreshTokenPayload.userId p) db with
                | None => Ok None
                | Some row =>
                    if (RefreshToken.expiresAt row <? now)%Z then Ok None
                    else Ok (Some p)
                end).
  { unfold getRefreshToken, cleanupExpiredTokens,
      storage.cleanupExpiredTokens. cbn [refreshTokens].
    rewrite (@find_filter_unique _ RefreshToken.token _ _
               (RefreshTokenPayload.tokenId p) _ Hnd).
    - destruct (find _ (refreshTokens db)) as [row|]; [|reflexivity].
      destruct (RefreshToken.expiresAt row <? now)%Z eqn:E; cbn [negb];
        [reflexivity|]. rewrite E. reflexivity.
    - intros row Hrow. unfold refreshTokenMatches in Hrow.
      apply andb_true_iff in Hrow. apply str_eqb_eq. exact (proj1 Hrow). }
  destruct (RefreshTokenPayload.exp p) as [e|];
    [destruct (e <=? clockTimestamp now)%Z|];
    cbn [bind catch]; rewrite ?H; reflexivity.
Qed.

(** POST /api/logout-all behind the middleware: every refresh token of
    the authenticated user is refused afterwards, the refresh tokens of
    the other users are as before, and the access token that made the
    request is not blacklisted: it is accepted as before. *)
Theorem logout_all_ends_refresh_sessions_only (now later : Z) (req : Request)
  (db : Database) (user : User.t) :
  authenticateToken now req db = Next user ->
  (forall token payload,
      jwt_open_refresh token = Some payload ->
      RefreshTokenPayload.userId payload = User.id user ->
      verifyRefreshToken later token (snd (post_api_logout_all now req db))
      = None)
  /\ (forall token,
        (forall payload, jwt_open_refresh token = Some payload ->
           RefreshTokenPayload.userId payload <> User.id user) ->
        verifyRefreshToken later token (snd (post_api_logout_all now req db))
        = verifyRefreshToken later token db)
  /\ (forall moment,
        authenticateToken moment req (snd (post_api_logout_all now req db))
        = authenticateToken moment req db).
Proof.
  intros Hnext. unfold post_api_logout_all. rewrite Hnext. cbn [snd].
  split; [|split].
  - intros token payload Ho Hu. apply verifyRefreshToken_no_row.
    intros p Hp. rewrite Ho in Hp. injection Hp as <-.
    unfold getRefreshToken, revokeAllRefreshTokens,
      storage.revokeAllRefreshTokens. cbn [refreshTokens].
    destruct (find _ (filter _ _)) as [row|] eqn:E; [|reflexivity].
    exfalso. apply find_some in E. destruct E as [Hin Hm].
    apply filter_In in Hin. destruct Hin as [_ Hk].
    unfold refreshTokenMatches in Hm. apply andb_true_iff in Hm.
    destruct Hm as [_ Hm]. rewrite Hu in Hm. rewrite Hm in Hk.
    discriminate.
  - intros token Hother. apply verifyRefreshToken_ext. intros payload Ho.
    unfold getRefreshToken, revokeAllRefreshTokens,
      storage.revokeAllRefreshTokens. cbn [refreshTokens].
    apply find_filter_frame. intros row Hrow.
    unfold refreshTokenMatches in Hrow. apply andb_true_iff in Hrow.
    destruct Hrow as [_ Hu]. apply str_eqb_eq in Hu.
    apply negb_true_iff. apply str_eqb_neq. rewrite Hu.
    exact (Hother payload Ho).
  - intros moment. apply authenticateToken_ext; reflexivity.
Qed.

(** ** The life of the tokens the server mints *)

Lemma clock_before (now later seconds : Z) :
  (later <= now + (seconds - 1) * 1000)%Z ->
  (clockTimestamp later < clockTimestamp now + seconds)%Z.
Proof.
  unfold clockTimestamp. intros H.
  assert (H1 : (later / 1000 <= (now + (seconds - 1) * 1000) / 1000)%Z)
    by (apply Z.div_le_mono; lia).
  rewrite Z.div_add in H1 by lia. lia.
Qed.

Lemma clock_after (now later seconds : Z) :
  (now + seconds * 1000 <= later)%Z ->
  (clockTimestamp now + seconds <= clockTimestamp later)%Z.
Proof.
  unfold clockTimestamp. intros H.
  assert (H1 : ((now + seconds * 1000) / 1000 <= later / 1000)%Z)
    by (apply Z.div_le_mono; lia).
  rewrite Z.div_add in H1 by lia. exact H1.
Qed.

(** An access token minted at [now], when [jsonwebtoken] opens what it
    signed: it verifies up to 14 minutes 59 seconds later and then lets
    its user through the middleware; from 15 minutes on it is refused. *)
Theorem access_token_lives_fifteen_minutes (now later : Z) (user : User.t) :
  jwt_open_access (generateAccessToken now user)
  = Some (accessTokenClaims now user) ->
  ((later <= now + 899000)%Z ->
   verifyAccessToken later (generateAccessToken now user)
   = Some (accessTokenClaims now user)
   /\ forall req db,
        presentedToken req = Some (generateAccessToken now user) ->
        isTokenBlacklisted (generateAccessToken now user) db = false ->
        getUser (User.id user) db = Some user ->
        authenticateToken later req db = Next user)
  /\ ((now + 900000 <= later)%Z ->
      verifyAccessToken later (generateAccessToken now user) = None
      /\ forall req db,
           presentedToken req = Some (generateAccessToken now user) ->
           accepted (authenticateToken later req db) = None).
Proof.
  intros Hopen. split.
  - intros Hlater.
    assert (Hv : verifyAccessToken later (generateAccessToken now user)
                 = Some (accessTokenClaims now user)).
    { apply verifyAccessToken_Some. split; [exact Hopen|].
      intros e He. cbn [accessTokenClaims JWTPayload.exp] in He.
      injection He as <-. apply clock_before.
      unfold ACCESS_TOKEN_EXPIRES_IN. lia. }
    split; [exact Hv|]. intros req db Hp Hb Hu.
    unfold authenticateToken. unfold presentedToken in Hp.
    destruct (js_or (bearer (authorization req)) (cookie accessToken req))
      as [[|c t]|]; try discriminate.
    injection Hp as Hp. rewrite Hp, Hb, Hv.
    cbn [accessTokenClaims JWTPayload.userId]. rewrite Hu. reflexivity.
  - intros Hlater.
    assert (Hv : verifyAccessToken later (generateAccessToken now user)
                 = None).
    { destruct (verifyAccessToken later (generateAccessToken now user))
        as [p|] eqn:E; [|reflexivity].
      exfalso. apply verifyAccessToken_Some in E. destruct E as [Ho He].
      rewrite Hopen in Ho. injection Ho as <-.
      specialize (He _ eq_refl).
      pose proof (@clock_after now later ACCESS_TOKEN_EXPIRES_IN) as Hc.
      unfold ACCESS_TOKEN_EXPIRES_IN in *. lia. }
    split; [exact Hv|]. intros req db Hp.
    unfold authenticateToken. unfold presentedToken in Hp.
    destruct (js_or (bearer (authorization req)) (cookie accessToken req))
      as [[|c t]|]; try discriminate.
    injection Hp as Hp. rewrite Hp.
    destruct (isTokenBlacklisted _ db); [reflexivity|]. rewrite Hv.
    reflexivity.
Qed.

(** A refresh token minted at [now] with a tokenId that no record of the
    table carries yet (the token column is unique), when [jsonwebtoken]
    opens what it signed.  It verifies at every instant up to 7 days of
    24 hours less one second later that is not after the expiry of its
    record, which is seven calendar days after [now]; it is refused from
    7 days of 24 hours on, and after the expiry of its record.  Where
    the seven calendar days are seven days of 24 hours, it verifies up to
    7 days less one second later. *)
Theorem refresh_token_lives_seven_days (e : Entropy) (now later : Z)
  (userId : jsstring) (db : Database) :
  let minted := generateRefreshToken e now userId db in
  jwt_open_refresh (fst (fst minted)) = Some (refreshTokenClaims e now userId) ->
  ((forall row, In row (refreshTokens db) ->
      RefreshToken.token row <> snd (fst minted)) ->
   (later <= now + 604799000)%Z ->
   (later <= sevenDaysLater now)%Z ->
   verifyRefreshToken later (fst (fst minted)) (snd minted)
   = Some (refreshTokenClaims e now userId))
  /\ ((now + 604800000 <= later)%Z ->
      verifyRefreshToken later (fst (fst minted)) (snd minted) = None)
  /\ ((forall row, In row (refreshTokens db) ->
         RefreshToken.token row <> snd (fst minted)) ->
      (sevenDaysLater now < later)%Z ->
      verifyRefreshToken later (fst (fst minted)) (snd minted) = None)
  /\ ((forall row, In row (refreshTokens db) ->
         RefreshToken.token row <> snd (fst minted)) ->
      sevenDaysLater now = (now + 604800000)%Z ->
      (later <= now + 604799000)%Z ->
      verifyRefreshToken later (fst (fst minted)) (snd minted)
      = Some (refreshTokenClaims e now userId)).
Proof.
  intros minted. unfold minted, generateRefreshToken. cbn [fst snd].
  fold (refreshTokenClaims e now userId).
  intros Hopen.
  remember (toHex (randomBytes e 32)) as tokenId eqn:HtokenId.
  assert (Hrow : (forall row, In row (refreshTokens db) ->
                    RefreshToken.token row <> tokenId) ->
    getRefreshToken
      (RefreshTokenPayload.tokenId (refreshTokenClaims e now userId))
      (RefreshTokenPayload.userId (refreshTokenClaims e now userId))
      (createRefreshToken
         {| RefreshToken.userId := userId;
            RefreshToken.token := tokenId;
            RefreshToken.expiresAt := sevenDaysLater now |} db)
    = Some {| RefreshToken.userId := userId;
              RefreshToken.token := tokenId;
              RefreshToken.expiresAt := sevenDaysLater now |}).
  { intros Hfresh.
    change (RefreshTokenPayload.tokenId (refreshTokenClaims e now userId))
      with (toHex (randomBytes e 32)).
    change (RefreshTokenPayload.userId (refreshTokenClaims e now userId))
      with userId.
    rewrite <- HtokenId.
    assert (Hnone : find (refreshTokenMatches tokenId userId)
                         (refreshTokens db) = None).
    { destruct (find _ (refreshTokens db)) as [row|] eqn:E; [|reflexivity].
      exfalso. apply find_some in E. destruct E as [Hin Hm].
      unfold refreshTokenMatches in Hm. apply andb_true_iff in Hm.
      destruct Hm as [Hm _]. apply str_eqb_eq in Hm.
      exact (Hfresh row Hin Hm). }
    unfold getRefreshToken, createRefreshToken. cbn [refreshTokens].
    rewrite find_app, Hnone. cbn [find]. unfold refreshTokenMatches.
    cbn [RefreshToken.token RefreshToken.userId].
    rewrite !str_eqb_refl. reflexivity. }
  assert (Hlive : (forall row, In row (refreshTokens db) ->
                     RefreshToken.token row <> tokenId) ->
    (later <= now + 604799000)%Z -> (later <= sevenDaysLater now)%Z ->
    verifyRefreshToken later
      (jwt_sign_refresh (refreshTokenClaims e now userId))
      (createRefreshToken
         {| RefreshToken.userId := userId;
            RefreshToken.token := tokenId;
            RefreshToken.expiresAt := sevenDaysLater now |} db)
    = Some (refreshTokenClaims e now userId)).
  { intros Hfresh Hlater Hrecord.
    unfold verifyRefreshToken, jwt_verify. rewrite Hopen.
    change (RefreshTokenPayload.exp (refreshTokenClaims e now userId))
      with (Some (clockTimestamp now + REFRESH_TOKEN_EXPIRES_IN)%Z).
    cbv iota.
    pose proof (@clock_before now later REFRESH_TOKEN_EXPIRES_IN) as Hc.
    destruct (Z.leb_spec (clockTimestamp now + REFRESH_TOKEN_EXPIRES_IN)
                         (clockTimestamp later)) as [Hle|_].
    { exfalso. unfold REFRESH_TOKEN_EXPIRES_IN in *. lia. }
    cbn [bind catch]. rewrite (Hrow Hfresh).
    cbn [RefreshToken.expiresAt].
    destruct (Z.ltb_spec (sevenDaysLater now) later); [lia|reflexivity]. }
  split; [exact Hlive|]. split; [|split].
  - intros Hlater. unfold verifyRefreshToken, jwt_verify. rewrite Hopen.
    change (RefreshTokenPayload.exp (refreshTokenClaims e now userId))
      with (Some (clockTimestamp now + REFRESH_TOKEN_EXPIRES_IN)%Z).
    cbv iota.
    pose proof (@clock_after now later REFRESH_TOKEN_EXPIRES_IN) as Hc.
    destruct (Z.leb_spec (clockTimestamp now + REFRESH_TOKEN_EXPIRES_IN)
                         (clockTimestamp later)) as [_|Hlt];
      [reflexivity|].
    exfalso. unfold REFRESH_TOKEN_EXPIRES_IN in *. lia.
  - intros Hfresh Hrecord. unfold verifyRefreshToken, jwt_verify.
    rewrite Hopen.
    change (RefreshTokenPayload.exp (refreshTokenClaims e now userId))
      with (Some (clockTimestamp now + REFRESH_TOKEN_EXPIRES_IN)%Z).
    cbv iota.
    destruct (clockTimestamp now + REFRESH_TOKEN_EXPIRES_IN
              <=? clockTimestamp later)%Z; [reflexivity|].
    cbn [bind catch]. rewrite (Hrow Hfresh).
    cbn [RefreshToken.expiresAt].
    destruct (Z.ltb_spec (sevenDaysLater now) later); [reflexivity|lia].
  - intros Hfresh Hweek Hlater. apply Hlive; [exact Hfresh|exact Hlater|].
    rewrite Hweek. lia.
Qed.

(** ** Registration, then login *)

Lemma comparePasswords_hashPassword (e : Entropy)
  (password stored : jsstring) :
  hashPassword e password = Ok stored ->
  comparePasswords password stored = Ok true.
Proof using scrypt_length.
  unfold hashPassword. cbn [scryptAsync bind].
  remember (randomBytes e 16) as salt eqn:Hsalt. intros H.
  assert (E : toHex (scrypt password (toHex salt) 64) ++ js "." ++ toHex salt
              = stored) by congruence.
  rewrite <- E. unfold comparePasswords.
  change (js "." ++ toHex salt) with (46%N :: toHex salt).
  rewrite split_at_first_separator by apply toHex_no_dot.
  rewrite split_without_separator by apply toHex_no_dot.
  cbn [nth nth_error scryptAsync bind]. rewrite fromHex_toHex.
  unfold timingSafeEqual. rewrite Nat.eqb_refl, buffer_eqb_refl.
  reflexivity.
Qed.

(** What the registration schema checked of the data it returns. *)
Lemma registration_success (b : list (string * jsstring))
  (data : RegistrationData) :
  registrationValidationSchema b = ParseSuccess data ->
  body_field "name" b = Some (reg_name data)
  /\ body_field "email" b = Some (reg_email data)
  /\ body_field "password" b = Some (reg_password data)
  /\ body_field "confirmPassword" b = Some (reg_confirmPassword data)
  /\ nameValidationSchema (reg_name data) = []
  /\ emailValidationSchema (reg_email data) = []
  /\ passwordValidationSchema (reg_password data) = []
  /\ reg_confirmPassword data = reg_password data.
Proof.
  unfold registrationValidationSchema. cbv zeta.
  destruct (body_field "name" b) as [name|],
    (body_field "email" b) as [email|],
    (body_field "password" b) as [password|],
    (body_field "confirmPassword" b) as [confirm|]; try discriminate.
  destruct (no_issues _) eqn:E; [|discriminate].
  intros H. injection H as <-.
  cbn [reg_name reg_email reg_password reg_confirmPassword].
  rewrite !no_issues_app, !andb_true_iff in E.
  destruct E as ((Hn & He & Hp & _) & Hc). unfold field_issues in *.
  destruct (nameValidationSchema name); [|discriminate].
  destruct (emailValidationSchema email); [|discriminate].
  destruct (passwordValidationSchema password) eqn:Ep; [|discriminate].
  destruct (str_eqb password confirm) eqn:Ec; [|discriminate].
  apply str_eqb_eq in Ec. subst confirm. auto 10.
Qed.

Lemma accepted_password_strength (p : jsstring) :
  passwordValidationSchema p = [] ->
  strength (calculatePasswordStrength p) = good
  \/ strength (calculatePasswordStrength p) = strong.
Proof.
  intros H. apply success_nil in H.
  pose proof (accepted_password_score p H) as H7.
  pose proof (calculatePasswordStrength_score_le_9 p) as H9.
  pose proof (band_spec (score (calculatePasswordStrength p))) as Hband.
  rewrite <- calculatePasswordStrength_band in Hband.
  destruct Hband as (_ & _ & _ & B4 & B5).
  destruct (Nat.eq_dec (score (calculatePasswordStrength p)) 9) as [E|E].
  - right. apply B5. lia.
  - left. apply B4. lia.
Qed.

(** The outcomes of the registration route on data that passed the
    schema: 409 when the e-mail is taken, else 201 with the new user
    appended and one refresh record written. *)
Lemma register_valid (e : Entropy) (now : Z) (req : Request)
  (db : Database) (data : RegistrationData) :
  registrationValidationSchema (body req) = ParseSuccess data ->
  match getUserByEmail (reg_email data) db with
  | Some _ =>
      post_api_register e now req db
      = (error_response 409 "Email already registered" "EMAIL_EXISTS", db)
  | None =>
      exists hashedPassword,
        hashPassword e (reg_password data) = Ok hashedPassword
        /\ status (fst (post_api_register e now req db)) = 201
        /\ users (snd (post_api_register e now req db))
           = users db ++ [registeredUser db data hashedPassword]
  end.
Proof.
  intros Hv. unfold post_api_register. rewrite Hv. cbv zeta.
  destruct (getUserByEmail (reg_email data) db); [reflexivity|].
  apply registration_success in Hv.
  destruct Hv as (_ & _ & _ & _ & _ & _ & Hp & _).
  eexists. split; [reflexivity|].
  destruct (accepted_password_strength _ Hp) as [Hs|Hs]; rewrite Hs;
    split; reflexivity.
Qed.

Lemma register_201 (e : Entropy) (now : Z) (req : Request)
  (db : Database) :
  status (fst (post_api_register e now req db)) = 201 ->
  exists data hashedPassword,
    registrationValidationSchema (body req) = ParseSuccess data
    /\ getUserByEmail (reg_email data) db = None
    /\ hashPassword e (reg_password data) = Ok hashedPassword
    /\ users (snd (post_api_register e now req db))
       = users db ++ [registeredUser db data hashedPassword].
Proof.
  intros H.
  destruct (registrationValidationSchema (body req)) as [data|issues] eqn:Hv.
  - pose proof (register_valid e now req db Hv) as Hr.
    destruct (getUserByEmail (reg_email data) db) eqn:Hu.
    + rewrite Hr in H. discriminate.
    + destruct Hr as (hashed & Hh & _ & Hus). exists data, hashed. auto.
  - unfold post_api_register in H. rewrite Hv in H. discriminate.
Qed.

Lemma getUserByEmail_registered (db db' : Database) (data : RegistrationData)
  (hashedPassword : jsstring) :
  getUserByEmail (reg_email data) db = None ->
  users db' = users db ++ [registeredUser db data hashedPassword] ->
  getUserByEmail (reg_email data) db'
  = Some (registeredUser db data hashedPassword).
Proof.
  unfold getUserByEmail. intros Hnone ->. rewrite find_app, Hnone.
  cbn [find registeredUser User.email]. rewrite str_eqb_refl. reflexivity.
Qed.

(** After a registration answered 201, a login with the same e-mail and
    password is answered 200 with the registered user, at any time, when
    the tokenId it draws is one no refresh record carries yet (the token
    column is unique). *)
Theorem login_after_register (e e' : Entropy) (now now' : Z)
  (req req' : Request) (db : Database) :
  status (fst (post_api_register e now req db)) = 201 ->
  body_field "email" (body req') = body_field "email" (body req) ->
  body_field "password" (body req') = body_field "password" (body req) ->
  (forall row,
      In row (refreshTokens (snd (post_api_register e now req db))) ->
      RefreshToken.token row <> toHex (randomBytes e' 32)) ->
  exists user,
    In user (users (snd (post_api_register e now req db)))
    /\ body_field "email" (body req) = Some (User.email user)
    /\ status (fst (post_api_login e' now' req'
                      (snd (post_api_register e now req db)))) = 200
    /\ json (fst (post_api_login e' now' req'
                    (snd (post_api_register e now req db))))
       = JObject [("user"%string, userWithoutPassword user);
                  ("message"%string, JString (js "Login successful"))].
Proof using scrypt_length.
  intros H201 Hemail Hpassword _.
  destruct (register_201 _ _ _ _ H201)
    as (data & hashed & Hv & Hnone & Hhash & Hus).
  pose proof (@getUserByEmail_registered _ _ _ _ Hnone Hus) as Hfound.
  apply registration_success in Hv.
  destruct Hv as (_ & He & Hp & _ & _ & Hes & Hps & _).
  exists (registeredUser db data hashed).
  split; [rewrite Hus; apply in_or_app; right; left; reflexivity|].
  split; [exact He|].
  assert (Hlen : (1 <=? length (reg_password data)) = true).
  { apply success_nil in Hps. apply passwordValidationSchema_checks in Hps.
    apply Nat.leb_le. lia. }
  unfold post_api_login, loginValidationSchema.
  rewrite Hemail, Hpassword, He, Hp. unfold field_issues.
  rewrite Hes, Hlen. cbn [check map app no_issues login_email
                          login_password].
  cbv zeta. rewrite Hfound.
  cbn [registeredUser User.password].
  rewrite (@comparePasswords_hashPassword _ _ _ Hhash).
  cbn [bind negb]. unfold generateRefreshToken. cbn [catch fst status json].
  split; reflexivity.
Qed.

Lemma getUserByEmail_None (email : jsstring) (db : Database) :
  getUserByEmail email db = None -> ~ In email (map User.email (users db)).
Proof.
  unfold getUserByEmail. intros Hnone Hin. apply in_map_iff in Hin.
  destruct Hin as (u & Hu & Hin).
  pose proof (find_none _ _ Hnone u Hin) as H. cbv beta in H.
  rewrite Hu, str_eqb_refl in H. discriminate.
Qed.

Lemma register_users (e : Entropy) (now : Z) (req : Request)
  (db : Database) :
  users (snd (post_api_register e now req db)) = users db
  \/ exists data hashedPassword,
       getUserByEmail (reg_email data) db = None
       /\ users (snd (post_api_register e now req db))
          = users db ++ [registeredUser db data hashedPassword].
Proof.
  destruct (registrationValidationSchema (body req)) as [data|issues] eqn:Hv.
  - pose proof (register_valid e now req db Hv) as Hr.
    destruct (getUserByEmail (reg_email data) db) eqn:Hu.
    + left. rewrite Hr. reflexivity.
    + right. destruct Hr as (hashed & _ & _ & Hus). exists data, hashed.
      auto.
  - left. unfold post_api_register. rewrite Hv. reflexivity.
Qed.

(** Once an e-mail is registered, a second registration with it is
    answered 409 EMAIL_EXISTS and writes nothing; so the routes never put
    two users with one e-mail in the table, which is the uniqueness the
    schema declares. *)
Theorem registration_keeps_emails_unique (e : Entropy) (now : Z)
  (req : Request) (db : Database) :
  (forall (e' : Entropy) (now' : Z) (req' : Request)
          (data' : RegistrationData),
      status (fst (post_api_register e now req db)) = 201 ->
      registrationValidationSchema (body req') = ParseSuccess data' ->
      body_field "email" (body req') = body_field "email" (body req) ->
      post_api_register e' now' req' (snd (post_api_register e now req db))
      = (error_response 409 "Email already registered" "EMAIL_EXISTS",
         snd (post_api_register e now req db)))
  /\ (emails_unique db ->
      emails_unique (snd (post_api_register e now req db))
      /\ emails_unique (snd (post_api_login e now req db))
      /\ emails_unique (snd (post_api_refresh e now req db))
      /\ emails_unique (snd (post_api_logout now req db))
      /\ emails_unique (snd (post_api_logout_all now req db))).
Proof.
  split.
  - intros e' now' req' data' H201 Hv' Hemail.
    destruct (register_201 _ _ _ _ H201)
      as (data & hashed & Hv & Hnone & _ & Hus).
    pose proof (@getUserByEmail_registered _ _ _ _ Hnone Hus) as Hfound.
    pose proof (register_valid e' now' req'
                  (snd (post_api_register e now req db)) Hv') as Hr.
    apply registration_success in Hv. apply registration_success in Hv'.
    destruct Hv as (_ & He & _). destruct Hv' as (_ & He' & _).
    assert (Heq : reg_email data' = reg_email data) by congruence.
    rewrite Heq, Hfound in Hr. exact Hr.
  - intros Hnd. unfold emails_unique in *. split; [|split; [|split; [|split]]].
    + destruct (register_users e now req db)
        as [->|(data & hashed & Hnone & ->)]; [exact Hnd|].
      rewrite map_app. cbn [map registeredUser User.email].
      apply NoDup_app; [exact Hnd|constructor; [intros []|constructor]|].
      intros email Hin [<-|[]].
      exact (getUserByEmail_None _ _ Hnone Hin).
    + unfold post_api_login.
      destruct (loginValidationSchema (body req)) as [data|issues];
        [|exact Hnd].
      cbv zeta. destruct (getUserByEmail (login_email data) db) as [user|];
        [|exact Hnd].
      destruct (comparePasswords (login_password data) (User.password user))
        as [[|]|error]; exact Hnd.
    + unfold post_api_refresh.
      destruct (js_or (cookie refreshToken req)
                      (body_field "refreshToken" (body req))) as [[|c t]|];
        try exact Hnd.
      destruct (verifyRefreshToken now (c :: t) db) as [payload|];
        [|exact Hnd].
      destruct (getUser (RefreshTokenPayload.userId payload) db);
        exact Hnd.
    + unfold post_api_logout.
      destruct (authenticateToken now req db); [|exact Hnd].
      rewrite (proj1 (logout_handler_tables now req db)). exact Hnd.
    + unfold post_api_logout_all.
      destruct (authenticateToken now req db); exact Hnd.
Qed.

(** A registration whose four fields are strings and whose confirmation
    differs from the password is answered 400 "Validation failed", with
    the mismatch reported on the confirmPassword field after the issues of
    the fields, and writes nothing. *)
Theorem registration_mismatch_reported (e : Entropy) (now : Z)
  (req : Request) (db : Database)
  (name email password confirmPassword : jsstring) :
  body_field "name" (body req) = Some name ->
  body_field "email" (body req) = Some email ->
  body_field "password" (body req) = Some password ->
  body_field "confirmPassword" (body req) = Some confirmPassword ->
  password <> confirmPassword ->
  let issues :=
    map (pair "name"%string) (nameValidationSchema name)
    ++ map (pair "email"%string) (emailValidationSchema email)
    ++ map (pair "password"%string) (passwordValidationSchema password)
    ++ [("confirmPassword"%string, "Passwords do not match"%string)] in
  registrationValidationSchema (body req) = ParseFailure issues
  /\ post_api_register e now req db
     = ({| status := 400;
           json := JObject [("error"%string,
                             JString (js "Validation failed"));
                            ("details"%string, details issues)];
           setCookies := [] |}, db).
Proof.
  intros Hn He Hp Hc Hneq issues.
  assert (Hv : registrationValidationSchema (body req)
               = ParseFailure issues).
  { unfold registrationValidationSchema. rewrite Hn, He, Hp, Hc.
    cbv zeta. unfold field_issues. cbn [map].
    apply str_eqb_neq in Hneq. rewrite Hneq.
    rewrite app_nil_r, <- !app_assoc.
    destruct (no_issues _) eqn:E; [|reflexivity].
    rewrite !no_issues_app in E. cbn [no_issues] in E.
    rewrite !andb_false_r in E. discriminate. }
  split; [exact Hv|]. unfold post_api_register. rewrite Hv. reflexivity.
Qed.

(** ** The name and e-mail schemas *)

Lemma letter_not_name_special (c : N) :
  is_letter c = true -> is_name_special c = false.
Proof.
  unfold is_letter, is_lower, is_upper. intros H.
  assert (Hc : (65 <= c <= 122)%N).
  { apply orb_true_iff in H. destruct H as [H|H];
      apply andb_true_iff in H; destruct H as [H1 H2];
      apply N.leb_le in H1; apply N.leb_le in H2; lia. }
  unfold is_name_special, is_space.
  repeat rewrite (proj2 (N.eqb_neq c _)) by lia.
  rewrite (proj2 (N.leb_gt c 13)) by lia.
  rewrite (proj2 (N.leb_gt 8192 c)) by lia.
  rewrite andb_false_r. reflexivity.
Qed.

Lemma name_char_cases (c : N) :
  is_lower c || is_upper c || is_space c || (c =? 39)%N || (c =? 45)%N = true
  <-> is_letter c = true \/ is_space c = true \/ c = 39%N \/ c = 45%N.
Proof.
  unfold is_letter. rewrite !orb_true_iff, !N.eqb_eq. split.
  - intros [[[[H|H]|H]|H]|H]; auto.
  - intros [[H|H]|[H|[H|H]]]; auto 6.
Qed.

Lemma name_edge_letter (c : N) :
  (is_letter c = true \/ is_space c = true \/ c = 39%N \/ c = 45%N) ->
  (is_name_special c = false <-> is_letter c = true).
Proof.
  intros Hc. split; [|apply letter_not_name_special].
  unfold is_name_special. rewrite !orb_false_iff, !N.eqb_neq.
  intros ((H45 & H39) & Hs).
  destruct Hc as [H|[H|[H|H]]]; [exact H|congruence|contradiction..].
Qed.

Lemma nameManySpaces_iff (name : jsstring) :
  nameManySpaces name = true <-> has_space_run name.
Proof.
  unfold nameManySpaces, has_space_run. rewrite search_true_iff. split.
  - intros (before & after & -> & H).
    destruct after as [|a [|b [|c [|d after]]]]; try discriminate.
    rewrite !andb_true_iff in H. destruct H as (((Ha & Hb) & Hc) & Hd).
    exists before, a, b, c, d, after. auto 10.
  - intros (before & a & b & c & d & after & -> & Ha & Hb & Hc & Hd).
    exists before, ([a; b; c; d] ++ after). split; [reflexivity|].
    cbn [app]. rewrite Ha, Hb, Hc, Hd. reflexivity.
Qed.

Lemma rev_cons_iff {A} (l : list A) (c : A) (r : list A) :
  rev l = c :: r <-> l = rev r ++ [c].
Proof.
  split; intros H.
  - rewrite <- (rev_involutive l), H. reflexivity.
  - rewrite H, rev_app_distr, rev_involutive. reflexivity.
Qed.

(** [nameValidationSchema] accepts exactly the strings of 2 to 50 code
    units made of ASCII letters, white space, apostrophes and hyphens that
    start and end with an ASCII letter and have no four white-space
    characters in a row. *)
Theorem nameValidationSchema_accepts_iff (name : jsstring) :
  success (nameValidationSchema name) = true <-> name_rules name.
Proof.
  unfold nameValidationSchema.
  rewrite !success_app, !success_check, !andb_true_iff,
    !negb_true_iff, Nat.leb_le, Nat.leb_le.
  split.
  - intros (Hmin & Hmax & Hchars & Hedge & Hspaces).
    unfold nameCharsOnly in Hchars.
    destruct name as [|c name]; [discriminate|].
    assert (Hall : Forall (fun c => is_letter c = true \/ is_space c = true
                                    \/ c = 39%N \/ c = 45%N) (c :: name)).
    { apply Forall_forall. intros x Hx. apply name_char_cases.
      exact (proj1 (forallb_forall _ _) Hchars x Hx). }
    unfold nameEdgeSpecial in Hedge. apply orb_false_iff in Hedge.
    destruct Hedge as [Hfirst Hlast].
    constructor.
    + auto.
    + exact Hall.
    + exists c, name. split; [reflexivity|]. cbn [one_of] in Hfirst.
      apply name_edge_letter; [|exact Hfirst].
      exact (Forall_inv Hall).
    + destruct (rev (c :: name)) as [|z r] eqn:Er.
      { apply (f_equal (@length _)) in Er. rewrite length_rev in Er.
        discriminate. }
      cbn [one_of] in Hlast. apply rev_cons_iff in Er.
      exists (rev r), z. split; [exact Er|].
      apply name_edge_letter; [|exact Hlast].
      apply (proj1 (Forall_forall _ _) Hall). rewrite Er.
      apply in_or_app. right. left. reflexivity.
    + intros H. apply nameManySpaces_iff in H. congruence.
  - intros [[Hmin Hmax] Hall (c & rest & -> & Hc) (init & z & Hz & Hlz) Hsp].
    repeat split; try assumption.
    + unfold nameCharsOnly. apply forallb_forall. intros x Hx.
      apply name_char_cases.
      exact (proj1 (Forall_forall _ _) Hall x Hx).
    + unfold nameEdgeSpecial. cbn [one_of].
      rewrite (letter_not_name_special _ Hc).
      rewrite Hz, rev_app_distr. cbn [rev app one_of].
      rewrite (letter_not_name_special _ Hlz). reflexivity.
    + destruct (nameManySpaces (c :: rest)) eqn:E; [|reflexivity].
      exfalso. apply Hsp. apply nameManySpaces_iff. exact E.
Qed.

(** The parts of a [split]: the text before the first separator, and the
    split of the text after it. *)
Lemma split_cons (sep : N) (s w : jsstring) (ws : list jsstring) :
  split sep s = w :: ws ->
  ~ In sep w
  /\ ((ws = [] /\ s = w)
      \/ exists rest, s = w ++ sep :: rest /\ split sep rest = ws).
Proof.
  revert w ws. induction s as [|c s IH]; intros w ws; cbn [split].
  - intros H. injection H as <- <-. split; [intros []|]. left. auto.
  - destruct (N.eqb_spec c sep) as [->|Hc].
    + intros H. injection H as <- <-. split; [intros []|].
      right. exists s. auto.
    + destruct (split sep s) as [|w' ws'] eqn:E.
      { exfalso. exact (split_nonempty _ _ E). }
      intros H. injection H as <- <-.
      destruct (IH w' ws' eq_refl) as [Hw [[-> ->]|(rest & -> & Hr)]].
      * split; [intros [H|H]; [congruence|contradiction]|]. left. auto.
      * split; [intros [H|H]; [congruence|contradiction]|].
        right. exists rest. auto.
Qed.

Lemma split_two (sep : N) (s a b : jsstring) :
  split sep s = [a; b] <->
  s = a ++ sep :: b /\ ~ In sep a /\ ~ In sep b.
Proof.
  split.
  - intros H. apply split_cons in H.
    destruct H as [Ha [[H _]|(rest & -> & Hr)]]; [discriminate|].
    apply split_cons in Hr.
    destruct Hr as [Hb [[_ ->]|(rest' & _ & Hr')]]; [auto|].
    exfalso. exact (split_nonempty _ _ Hr').
  - intros (-> & Ha & Hb).
    rewrite split_at_first_separator by exact Ha.
    rewrite split_without_separator by exact Hb. reflexivity.
Qed.

Lemma no_edge_iff (c : N) (s : jsstring) :
  startsWith [c] s || endsWith [c] s = false <-> no_edge c s.
Proof.
  unfold no_edge, endsWith. cbn [rev app].
  rewrite orb_false_iff. split.
  - intros [Hs He]. split.
    + intros rest ->. cbn [startsWith] in Hs. rewrite N.eqb_refl in Hs.
      discriminate.
    + intros init ->. rewrite rev_app_distr in He. cbn [rev app] in He.
      cbn [startsWith] in He. rewrite N.eqb_refl in He. discriminate.
  - intros [Hs He]. split.
    + destruct (startsWith [c] s) eqn:E; [|reflexivity].
      apply startsWith_iff in E. destruct E as (after & ->).
      exfalso. exact (Hs after eq_refl).
    + destruct (startsWith [c] (rev s)) eqn:E; [|reflexivity].
      apply startsWith_iff in E. destruct E as (after & E).
      cbn [app] in E. apply rev_cons_iff in E.
      exfalso. exact (He _ E).
Qed.

Lemma emailRefinement_iff (email : jsstring) :
  emailRefinement email = true <-> email_rules email.
Proof.
  unfold emailRefinement, email_rules. split.
  - destruct (split 64 email) as [|localPart [|domain [|x parts]]] eqn:E;
      try discriminate.
    apply split_two in E. destruct E as (-> & Hl & Hd).
    destruct (Nat.ltb_spec 64 (length localPart)) as [|Hll]; [discriminate|].
    destruct (startsWith (js ".") localPart || endsWith (js ".") localPart)
      eqn:Hle; [discriminate|].
    destruct (search (lit (js "..")) localPart) eqn:Hdots; [discriminate|].
    destruct (Nat.ltb_spec 253 (length domain)) as [|Hdl]; [discriminate|].
    destruct (startsWith (js "-") domain || endsWith (js "-") domain)
      eqn:Hde; [discriminate|].
    intros _. exists localPart, domain.
    split; [reflexivity|]. split; [exact Hl|]. split; [exact Hd|].
    split; [exact Hll|]. split; [apply no_edge_iff; exact Hle|].
    split.
    { intros (before & after & Hb).
      assert (Hs : search (lit (js "..")) localPart = true); [|congruence].
      apply search_true_iff. exists before, ([46; 46]%N ++ after).
      split; [exact Hb|]. apply startsWith_iff. exists after. reflexivity. }
    split; [exact Hdl|]. apply no_edge_iff. exact Hde.
  - intros (localPart & domain & -> & Hl & Hd & Hll & Hle & Hdots & Hdl
            & Hde).
    rewrite (proj2 (split_two 64 _ localPart domain)) by auto.
    destruct (Nat.ltb_spec 64 (length localPart)) as [|_]; [lia|].
    change (js ".") with [46%N].
    rewrite (proj2 (no_edge_iff 46 localPart) Hle).
    destruct (search (lit (js "..")) localPart) eqn:Es.
    { exfalso. apply Hdots. apply search_true_iff in Es.
      destruct Es as (before & after & -> & Hw).
      apply startsWith_iff in Hw. destruct Hw as (rest & ->).
      exists before, rest. reflexivity. }
    destruct (Nat.ltb_spec 253 (length domain)) as [|_]; [lia|].
    change (js "-") with [45%N].
    rewrite (proj2 (no_edge_iff 45 domain) Hde). reflexivity.
Qed.

(** [emailValidationSchema] accepts exactly the strings of 5 to 254 code
    units that pass zod's e-mail check and have one "@" with, before it,
    at most 64 code units that neither start nor end with a dot nor hold
    two dots in a row and, after it, at most 253 code units that neither
    start nor end with a hyphen. *)
Theorem emailValidationSchema_accepts_iff (email : jsstring) :
  success (emailValidationSchema email) = true <->
  zod_email email = true /\ 5 <= length email <= 254 /\ email_rules email.
Proof.
  unfold emailValidationSchema.
  rewrite !success_app, !success_check, !andb_true_iff, !Nat.leb_le,
    emailRefinement_iff.
  split.
  - intros (Hz & Hmin & Hmax & Hr). auto.
  - intros (Hz & (Hmin & Hmax) & Hr). auto.
Qed.

(** ** The planner *)

Lemma insert_desc_perm {A} (key : A -> Z) (row : A) (sorted : list A) :
  Permutation (row :: sorted) (insert_desc key row sorted).
Proof.
  induction sorted as [|r rest IH]; cbn [insert_desc]; [reflexivity|].
  destruct (key r <=? key row)%Z; [reflexivity|].
  rewrite perm_swap. apply perm_skip. exact IH.
Qed.

Lemma orderBy_desc_perm {A} (key : A -> Z) (rows : list A) :
  Permutation rows (orderBy_desc key rows).
Proof.
  induction rows as [|row rows IH]; [reflexivity|].
  cbn [orderBy_desc fold_right]. rewrite <- insert_desc_perm.
  apply perm_skip. exact IH.
Qed.

Lemma In_orderBy_desc {A} (key : A -> Z) (rows : list A) (row : A) :
  In row (orderBy_desc key rows) <-> In row rows.
Proof.
  split; apply Permutation_in;
    [symmetry|]; apply orderBy_desc_perm.
Qed.

Lemma insert_desc_descending {A} (key : A -> Z) (row : A)
  (sorted : list A) :
  descending key sorted -> descending key (insert_desc key row sorted).
Proof.
  unfold descending.
  induction sorted as [|r rest IH]; intros Hs; cbn [insert_desc].
  - repeat constructor.
  - apply StronglySorted_inv in Hs. destruct Hs as [Hrest Hr].
    destruct (Z.leb_spec (key r) (key row)) as [Hle|Hgt].
    + constructor; [constructor; assumption|].
      constructor; [exact Hle|].
      apply Forall_forall. intros x Hx.
      pose proof (proj1 (Forall_forall _ _) Hr x Hx) as H. cbv beta in H.
      lia.
    + constructor; [exact (IH Hrest)|].
      apply Forall_forall. intros x Hx.
      apply (Permutation_in _ (Permutation_sym (insert_desc_perm key row rest)))
        in Hx.
      destruct Hx as [<-|Hx]; [lia|].
      exact (proj1 (Forall_forall _ _) Hr x Hx).
Qed.

Lemma orderBy_desc_descending {A} (key : A -> Z) (rows : list A) :
  descending key (orderBy_desc key rows).
Proof.
  induction rows as [|row rows IH]; [constructor|].
  cbn [orderBy_desc fold_right]. apply insert_desc_descending. exact IH.
Qed.

Lemma filter_filter {A} (p q : A -> bool) (l : list A) :
  List.filter p (List.filter q l) = List.filter (fun x => q x && p x) l.
Proof.
  induction l as [|x l IH]; [reflexivity|]. cbn [List.filter].
  destruct (q x); cbn [List.filter andb]; [destruct (p x)|];
    rewrite IH; reflexivity.
Qed.

Lemma filter_ext_in_eq {A} (p q : A -> bool) (l : list A) :
  (forall x, In x l -> p x = q x) -> List.filter p l = List.filter q l.
Proof.
  induction l as [|x l IH]; intros H; [reflexivity|]. cbn [List.filter].
  rewrite (H x (or_introl eq_refl)), IH; [reflexivity|].
  intros y Hy. apply H. right. exact Hy.
Qed.

Lemma sql_eq_iff (column : option bool) (value : bool) :
  sql_eq column value = true <-> column = Some value.
Proof.
  destruct column as [[|]|], value; cbn; split; intros H;
    try reflexivity; try discriminate.
Qed.

Lemma getTasks_unfold (userId : jsstring) (filter : option jsstring)
  (tasks : list Task.t) :
  exists where_,
    getTasks userId filter tasks
    = orderBy_desc Task.dueAt (List.filter where_ tasks)
    /\ forall task, where_ task = true <-> task_selected userId filter task.
Proof.
  unfold getTasks, task_selected. cbv zeta.
  destruct filter as [f|].
  - destruct (str_eqb f (js "pending")) eqn:Ep;
      [|destruct (str_eqb f (js "completed")) eqn:Ec].
    + apply str_eqb_eq in Ep. subst f. eexists. split; [reflexivity|].
      intros task. cbv beta.
      rewrite andb_true_iff, str_eqb_eq, sql_eq_iff. split.
      * intros [Hu Hc]. split; [exact Hu|]. split; [auto|]. discriminate.
      * intros (Hu & Hp & _). auto.
    + apply str_eqb_eq in Ec. subst f. eexists. split; [reflexivity|].
      intros task. cbv beta.
      rewrite andb_true_iff, str_eqb_eq, sql_eq_iff. split.
      * intros [Hu Hc]. split; [exact Hu|]. split; [discriminate|auto].
      * intros (Hu & _ & Hc). auto.
    + apply str_eqb_neq in Ep. apply str_eqb_neq in Ec.
      eexists. split; [reflexivity|].
      intros task. cbv beta. rewrite str_eqb_eq. split.
      * intros Hu. split; [exact Hu|]. split; congruence.
      * intros (Hu & _). exact Hu.
  - eexists. split; [reflexivity|].
    intros task. cbv beta. rewrite str_eqb_eq. split.
    + intros Hu. split; [exact Hu|]. split; discriminate.
    + intros (Hu & _). exact Hu.
Qed.

(** [getTasks] returns rows of the user only, latest due date first and
    none twice: all of them, or those whose [completed] is false under
    'pending' and true under 'completed'.  Any other filter string
    behaves as 'all', and a row whose [completed] is NULL is in neither
    the pending nor the completed list. *)
Theorem getTasks_rows (userId : jsstring) (filter : option jsstring)
  (tasks : list Task.t) :
  (forall task,
      In task (getTasks userId filter tasks)
      <-> In task tasks /\ task_selected userId filter task)
  /\ (NoDup tasks -> NoDup (getTasks userId filter tasks))
  /\ descending Task.dueAt (getTasks userId filter tasks)
  /\ (forall f, f <> js "pending" -> f <> js "completed" ->
        getTasks userId (Some f) tasks = getTasks userId None tasks)
  /\ (forall task,
        Task.completed task = None ->
        ~ In task (getTasks userId (Some (js "pending")) tasks)
        /\ ~ In task (getTasks userId (Some (js "completed")) tasks)).
Proof.
  split; [|split; [|split; [|split]]].
  - destruct (getTasks_unfold userId filter tasks) as (where_ & -> & Hw).
    intros task. rewrite In_orderBy_desc, filter_In, Hw. reflexivity.
  - destruct (getTasks_unfold userId filter tasks) as (where_ & -> & _).
    intros Hnd.
    apply (Permutation_NoDup (orderBy_desc_perm _ _)).
    apply NoDup_filter. exact Hnd.
  - destruct (getTasks_unfold userId filter tasks) as (where_ & -> & _).
    apply orderBy_desc_descending.
  - intros f Hp Hc. unfold getTasks. cbv zeta.
    apply str_eqb_neq in Hp. apply str_eqb_neq in Hc. rewrite Hp, Hc.
    reflexivity.
  - intros task Hnull. split; intros Hin.
    + destruct (getTasks_unfold userId (Some (js "pending")) tasks)
        as (where_ & E & Hw).
      rewrite E, In_orderBy_desc, filter_In, Hw in Hin.
      destruct Hin as (_ & _ & Hp & _). specialize (Hp eq_refl). congruence.
    + destruct (getTasks_unfold userId (Some (js "completed")) tasks)
        as (where_ & E & Hw).
      rewrite E, In_orderBy_desc, filter_In, Hw in Hin.
      destruct Hin as (_ & _ & _ & Hc). specialize (Hc eq_refl). congruence.
Qed.

Lemma Permutation_filter_same {A} (p : A -> bool) (l l' : list A) :
  Permutation l l' -> Permutation (List.filter p l) (List.filter p l').
Proof.
  induction 1 as [|x l l' _ IH|x y l|l l' l'' _ IH1 _ IH2].
  - reflexivity.
  - cbn [List.filter]. destruct (p x); [apply perm_skip|]; exact IH.
  - cbn [List.filter]. destruct (p x), (p y); try reflexivity.
    apply perm_swap.
  - exact (Permutation_trans IH1 IH2).
Qed.

Lemma descending_filter {A} (key : A -> Z) (p : A -> bool) (l : list A) :
  descending key l -> descending key (List.filter p l).
Proof.
  unfold descending. induction 1 as [|x l _ IH Hx]; [constructor|].
  cbn [List.filter]. destruct (p x); [|exact IH].
  constructor; [exact IH|]. apply Forall_forall. intros y Hy.
  apply filter_In in Hy.
  exact (proj1 (Forall_forall _ _) Hx y (proj1 Hy)).
Qed.

Lemma NoDup_map_filter {A B} (f : A -> B) (p : A -> bool) (l : list A) :
  NoDup (map f l) -> NoDup (map f (List.filter p l)).
Proof.
  induction l as [|x l IH]; intros Hnd; [constructor|].
  cbn [map] in Hnd. apply NoDup_cons_iff in Hnd. destruct Hnd as [Hx Hnd].
  cbn [List.filter]. destruct (p x); [|exact (IH Hnd)].
  cbn [map]. constructor; [|exact (IH Hnd)].
  intros Hin. apply Hx. apply in_map_iff in Hin.
  destruct Hin as (y & Hy & Hin). apply filter_In in Hin.
  rewrite <- Hy. apply in_map. exact (proj1 Hin).
Qed.

(** Without two rows of the same key, there is one way to list rows
    largest key first. *)
Lemma descending_unique {A} (key : A -> Z) (l l' : list A) :
  NoDup (map key l) -> Permutation l l' ->
  descending key l -> descending key l' -> l = l'.
Proof.
  unfold descending. revert l'.
  induction l as [|x l IH]; intros l' Hnd Hperm Hl Hl'.
  - apply Permutation_nil in Hperm. symmetry. exact Hperm.
  - destruct l' as [|y l'].
    { apply Permutation_sym, Permutation_nil in Hperm. discriminate. }
    apply StronglySorted_inv in Hl. destruct Hl as [Hl Hx].
    apply StronglySorted_inv in Hl'. destruct Hl' as [Hl' Hy].
    assert (Hxy : x = y).
    { assert (Hyin : In y (x :: l))
        by (apply (Permutation_in _ (Permutation_sym Hperm)); left;
            reflexivity).
      assert (Hxin : In x (y :: l'))
        by (apply (Permutation_in _ Hperm); left; reflexivity).
      destruct Hyin as [E|Hyin]; [exact E|].
      destruct Hxin as [E|Hxin]; [symmetry; exact E|].
      pose proof (proj1 (Forall_forall _ _) Hx y Hyin) as H1.
      pose proof (proj1 (Forall_forall _ _) Hy x Hxin) as H2.
      cbv beta in H1, H2. exfalso.
      cbn [map] in Hnd. apply NoDup_cons_iff in Hnd.
      apply (proj1 Hnd). replace (key x) with (key y) by lia.
      apply in_map. exact Hyin. }
    subst y. f_equal. apply Permutation_cons_inv in Hperm.
    cbn [map] in Hnd. apply NoDup_cons_iff in Hnd.
    exact (IH l' (proj2 Hnd) Hperm Hl Hl').
Qed.

(** The list of the model is one of the answers. *)
Lemma getTasks_may_answer (userId : jsstring) (filter : option jsstring)
  (tasks : list Task.t) :
  may_answer Task.dueAt (getTasks userId filter tasks)
             (getTasks userId filter tasks).
Proof.
  split; [reflexivity|].
  destruct (getTasks_unfold userId filter tasks) as (where_ & -> & _).
  apply orderBy_desc_descending.
Qed.

(** The client's filter of any answer to the query for all tasks, against
    any answer to the server's filtered query [where_]. *)
Lemma filtered_answer (userId : jsstring) (p where_ : Task.t -> bool)
  (tasks fetched listed : list Task.t) :
  (forall task, where_ task
                = str_eqb (Task.userId task) userId && p task) ->
  may_answer Task.dueAt
    (orderBy_desc Task.dueAt
       (List.filter (fun task => str_eqb (Task.userId task) userId) tasks))
    fetched ->
  may_answer Task.dueAt
    (orderBy_desc Task.dueAt (List.filter where_ tasks)) listed ->
  may_answer Task.dueAt listed (List.filter p fetched)
  /\ (NoDup (map Task.dueAt fetched) -> List.filter p fetched = listed).
Proof.
  intros Hw [Hf Hfd] [Hl Hld].
  assert (Hperm : Permutation listed (List.filter p fetched)).
  { rewrite <- Hl, <- (Permutation_filter_same p Hf).
    rewrite <- (orderBy_desc_perm Task.dueAt (List.filter where_ tasks)).
    rewrite <- (Permutation_filter_same p
                  (orderBy_desc_perm Task.dueAt
                     (List.filter
                        (fun task => str_eqb (Task.userId task) userId)
                        tasks))).
    rewrite filter_filter.
    rewrite (filter_ext_in_eq where_
               (fun task => str_eqb (Task.userId task) userId && p task));
      [reflexivity|]. intros task _. apply Hw. }
  pose proof (descending_filter p Hfd) as Hd.
  split; [split; assumption|].
  intros Hnd. apply (descending_unique (key := Task.dueAt)).
  - apply NoDup_map_filter. exact Hnd.
  - symmetry. exact Hperm.
  - exact Hd.
  - exact Hld.
Qed.

(** The client fetches every task of the user and filters by the
    truthiness of [completed]; the server's filters compare the column.
    Whatever order the database gives to tasks due at the same instant:
    the client's completed list holds the rows of the server's completed
    list, latest due date first, and is that list when no two fetched
    tasks are due at the same instant; so is the pending list when no
    task of the user has a NULL [completed]; and a task with a NULL
    [completed] is pending for the client and not for the server. *)
Theorem client_and_server_task_filters (userId : jsstring)
  (tasks fetched : list Task.t) :
  may_answer Task.dueAt (getTasks userId None tasks) fetched ->
  (forall listed,
      may_answer Task.dueAt
        (getTasks userId (Some (js "completed")) tasks) listed ->
      may_answer Task.dueAt listed (filteredTasks (js "completed") fetched)
      /\ (NoDup (map Task.dueAt fetched) ->
          filteredTasks (js "completed") fetched = listed))
  /\ ((forall task, In task tasks -> Task.userId task = userId ->
         Task.completed task <> None) ->
      forall listed,
        may_answer Task.dueAt
          (getTasks userId (Some (js "pending")) tasks) listed ->
        may_answer Task.dueAt listed (filteredTasks (js "pending") fetched)
        /\ (NoDup (map Task.dueAt fetched) ->
            filteredTasks (js "pending") fetched = listed))
  /\ (forall task,
        In task tasks -> Task.userId task = userId ->
        Task.completed task = None ->
        In task (filteredTasks (js "pending") fetched)
        /\ forall listed,
             may_answer Task.dueAt
               (getTasks userId (Some (js "pending")) tasks) listed ->
             ~ In task listed).
Proof.
  unfold filteredTasks, getTasks. cbv zeta.
  change (str_eqb (js "all") (js "pending")) with false.
  change (str_eqb (js "all") (js "completed")) with false.
  change (str_eqb (js "completed") (js "pending")) with false.
  change (str_eqb (js "completed") (js "completed")) with true.
  change (str_eqb (js "pending") (js "pending")) with true.
  cbv iota. intros Hfetched. split; [|split].
  - intros listed Hlisted.
    apply (@filtered_answer userId
             (fun task => match Task.completed task with
                          | Some b => b
                          | None => false
                          end)
             (fun task => str_eqb (Task.userId task) userId
                          && sql_eq (Task.completed task) true)
             tasks fetched listed); [|exact Hfetched|exact Hlisted].
    intros task. destruct (Task.completed task) as [[|]|]; reflexivity.
  - intros Hnn listed Hlisted.
    destruct Hlisted as [Hl Hld].
    rewrite (filter_ext_in_eq
               (fun task => str_eqb (Task.userId task) userId
                            && sql_eq (Task.completed task) false)
               (fun task => str_eqb (Task.userId task) userId
                            && negb match Task.completed task with
                                    | Some b => b
                                    | None => false
                                    end)) in Hl.
    + apply (@filtered_answer userId
               (fun task => negb match Task.completed task with
                                 | Some b => b
                                 | None => false
                                 end)
               (fun task => str_eqb (Task.userId task) userId
                            && negb match Task.completed task with
                                    | Some b => b
                                    | None => false
                                    end)
               tasks fetched listed);
        [|exact Hfetched|split; [exact Hl|exact Hld]].
      intros task. reflexivity.
    + intros task Hin.
      destruct (str_eqb (Task.userId task) userId) eqn:Eu; [|reflexivity].
      apply str_eqb_eq in Eu. specialize (Hnn task Hin Eu).
      destruct (Task.completed task) as [[|]|]; try reflexivity.
      contradiction.
  - intros task Hin Hu Hnull. split.
    + apply filter_In. rewrite Hnull. split; [|reflexivity].
      apply (Permutation_in _ (proj1 Hfetched)).
      apply In_orderBy_desc. apply filter_In. split; [exact Hin|].
      apply str_eqb_eq. exact Hu.
    + intros listed [Hl _] Hin'.
      apply (Permutation_in _ (Permutation_sym Hl)) in Hin'.
      rewrite In_orderBy_desc, filter_In, Hnull in Hin'. cbn [sql_eq] in Hin'.
      rewrite andb_false_r in Hin'. destruct Hin' as [_ H]. discriminate.
Qed.

Lemma deleteTask_target (id userId : jsstring) (task : Task.t) :
  str_eqb (Task.id task) id && str_eqb (Task.userId task) userId = true
  <-> task_targeted id userId task.
Proof.
  unfold task_targeted. rewrite andb_true_iff, !str_eqb_eq. reflexivity.
Qed.

(** [deleteTask] returns true exactly when the table holds a task with
    that id that belongs to the user; it removes those rows and no other,
    so a call for a task of someone else returns false and changes
    nothing, and the lists of every other user are as before. *)
Theorem deleteTask_owner_only (id userId : jsstring) (tasks : list Task.t) :
  (fst (deleteTask id userId tasks) = true
   <-> exists task, In task tasks /\ task_targeted id userId task)
  /\ (forall task,
        In task (snd (deleteTask id userId tasks))
        <-> In task tasks /\ ~ task_targeted id userId task)
  /\ (fst (deleteTask id userId tasks) = false ->
      snd (deleteTask id userId tasks) = tasks)
  /\ (forall other filter,
        other <> userId ->
        getTasks other filter (snd (deleteTask id userId tasks))
        = getTasks other filter tasks).
Proof.
  unfold deleteTask. cbv zeta. cbn [fst snd].
  split; [|split; [|split]].
  - rewrite Nat.ltb_lt. split.
    + intros Hlen.
      destruct (List.filter _ tasks) as [|task rest] eqn:E;
        [cbn in Hlen; lia|].
      assert (Hin : In task (List.filter
                (fun task => str_eqb (Task.id task) id
                             && str_eqb (Task.userId task) userId) tasks))
        by (rewrite E; left; reflexivity).
      apply filter_In in Hin. destruct Hin as [Hin Hm].
      exists task. split; [exact Hin|]. apply deleteTask_target. exact Hm.
    + intros (task & Hin & Ht). apply deleteTask_target in Ht.
      assert (Hin' : In task (List.filter
                (fun task => str_eqb (Task.id task) id
                             && str_eqb (Task.userId task) userId) tasks))
        by (apply filter_In; auto).
      destruct (List.filter _ tasks); [contradiction|cbn; lia].
  - intros task. rewrite filter_In, negb_true_iff.
    rewrite <- deleteTask_target.
    destruct (str_eqb (Task.id task) id && str_eqb (Task.userId task) userId);
      split; intros [H1 H2]; split; congruence.
  - rewrite Nat.ltb_ge. intros Hlen.
    assert (Hnil : List.filter
              (fun task => str_eqb (Task.id task) id
                           && str_eqb (Task.userId task) userId) tasks = []).
    { destruct (List.filter _ tasks); [reflexivity|cbn in Hlen; lia]. }
    clear Hlen. induction tasks as [|task tasks IH]; [reflexivity|].
    cbn [List.filter] in Hnil |- *.
    destruct (str_eqb (Task.id task) id && str_eqb (Task.userId task) userId);
      [discriminate|].
    cbn [negb]. rewrite (IH Hnil). reflexivity.
  - intros other filter Hother. unfold getTasks. cbv zeta.
    assert (Hframe : forall p : Task.t -> bool,
      (forall task, p task = true -> Task.userId task = other) ->
      List.filter p
        (List.filter
           (fun task => negb (str_eqb (Task.id task) id
                              && str_eqb (Task.userId task) userId)) tasks)
      = List.filter p tasks).
    { intros p Hp. rewrite filter_filter. apply filter_ext_in_eq.
      intros task _. destruct (p task) eqn:E; [|apply andb_false_r].
      rewrite andb_true_r. apply negb_true_iff. apply andb_false_iff.
      right. apply str_eqb_neq. rewrite (Hp task E). exact Hother. }
    destruct (str_eqb _ (js "pending"));
      [|destruct (str_eqb _ (js "completed"))];
      rewrite Hframe; try reflexivity;
      intros task H; try apply andb_true_iff in H;
      apply str_eqb_eq; try exact (proj1 H); exact H.
Qed.

(** ** The classes *)

Lemma includes_iff (x : jsstring) (array : list jsstring) :
  includes x array = true <-> In x array.
Proof.
  unfold includes. rewrite existsb_exists. split.
  - intros (y & Hin & E). apply str_eqb_eq in E. subst y. exact Hin.
  - intros Hin. exists x. split; [exact Hin|apply str_eqb_refl].
Qed.

Lemma find_map_update {A} (test : A -> bool) (update : A -> A)
  (l : list A) :
  (forall x, test (update x) = test x) ->
  find test (map (fun x => if test x then update x else x) l)
  = option_map update (find test l).
Proof.
  intros Htest. induction l as [|x l IH]; [reflexivity|].
  cbn [map find]. destruct (test x) eqn:E.
  - rewrite Htest, E. reflexivity.
  - rewrite E. exact IH.
Qed.

Lemma NoDup_map_key {A} (key : A -> jsstring) (l : list A) :
  NoDup (map key l) ->
  forall x y, In x l -> In y l -> key x = key y -> x = y.
Proof.
  induction l as [|z l IH]; intros Hnd x y Hx Hy E; [contradiction|].
  cbn [map] in Hnd. apply NoDup_cons_iff in Hnd. destruct Hnd as [Hz Hnd].
  destruct Hx as [<-|Hx], Hy as [<-|Hy].
  - reflexivity.
  - exfalso. apply Hz. rewrite E. apply in_map. exact Hy.
  - exfalso. apply Hz. rewrite <- E. apply in_map. exact Hx.
  - exact (IH Hnd x y Hx Hy E).
Qed.

(** A [joinClass] that returns false changes nothing.  After a join
    that returned true a class with the id has the user among its
    participants and is among the user's classes, and a second join
    returns false and changes nothing.  A join keeps every class with
    another id and, when no two classes share an id (the id is the
    primary key), every participant of a class is still a participant
    of the class with that id. *)
Theorem joinClass_once (classId userId : jsstring)
  (classes : list Class.t) :
  (fst (joinClass classId userId classes) = false ->
   snd (joinClass classId userId classes) = classes)
  /\ (fst (joinClass classId userId classes) = true ->
      joinClass classId userId (snd (joinClass classId userId classes))
      = (false, snd (joinClass classId userId classes))
      /\ exists cls,
           Class.id cls = classId /\ participates userId cls
           /\ In cls (getClasses userId
                        (snd (joinClass classId userId classes))))
  /\ (forall cls,
        In cls classes -> Class.id cls <> classId ->
        In cls (snd (joinClass classId userId classes)))
  /\ (NoDup (map Class.id classes) ->
      forall cls other,
        In cls classes -> participates other cls ->
        exists cls',
          In cls' (snd (joinClass classId userId classes))
          /\ Class.id cls' = Class.id cls /\ participates other cls').
Proof.
  unfold joinClass.
  destruct (find (fun cls => str_eqb (Class.id cls) classId) classes)
    as [classData|] eqn:Hfind.
  2: { cbn [fst snd]. split; [reflexivity|]. split; [discriminate|].
       split; [auto|]. intros _ cls other Hin Hp. exists cls. auto. }
  destruct (includes userId (or_empty (Class.participants classData)))
    eqn:Hinc.
  { cbn [fst snd]. split; [reflexivity|]. split; [discriminate|].
    split; [auto|]. intros _ cls other Hin Hp. exists cls. auto. }
  cbv zeta. cbn [fst snd].
  set (updatedParticipants :=
         or_empty (Class.participants classData) ++ [userId]).
  set (update := fun cls : Class.t =>
         if str_eqb (Class.id cls) classId
         then set_participants updatedParticipants cls else cls).
  pose proof (find_some _ _ Hfind) as [Hin_data Hid_data].
  split; [discriminate|]. split; [|split].
  - intros _.
    assert (Hfind' :
      find (fun cls => str_eqb (Class.id cls) classId) (map update classes)
      = Some (set_participants updatedParticipants classData)).
    { unfold update.
      rewrite (find_map_update (fun cls => str_eqb (Class.id cls) classId)
                 (set_participants updatedParticipants));
        [rewrite Hfind; reflexivity|reflexivity]. }
    assert (Hjoined : includes userId updatedParticipants = true).
    { apply includes_iff. apply in_or_app. right. left. reflexivity. }
    split.
    + rewrite Hfind'. cbn [set_participants Class.participants or_empty].
      rewrite Hjoined. reflexivity.
    + exists (set_participants updatedParticipants classData).
      split; [apply str_eqb_eq; exact Hid_data|].
      split; [apply includes_iff; exact Hjoined|].
      unfold getClasses. apply filter_In. split.
      * apply In_orderBy_desc. apply in_map_iff. exists classData.
        split; [|exact Hin_data]. unfold update. rewrite Hid_data.
        reflexivity.
      * cbn [set_participants Class.participants or_empty].
        rewrite Hjoined. apply orb_true_r.
  - intros cls Hin Hid. apply in_map_iff. exists cls.
    split; [|exact Hin]. unfold update.
    apply str_eqb_neq in Hid. rewrite Hid. reflexivity.
  - intros Hkey cls other Hin Hp. exists (update cls).
    split; [apply in_map; exact Hin|]. unfold update.
    destruct (str_eqb (Class.id cls) classId) eqn:E; [|auto].
    split; [reflexivity|].
    unfold participates. cbn [set_participants Class.participants or_empty].
    unfold updatedParticipants. apply in_or_app. left.
    apply str_eqb_eq in E. apply str_eqb_eq in Hid_data.
    rewrite <- (NoDup_map_key Class.id _ Hkey cls classData Hin Hin_data);
      [exact Hp|congruence].
Qed.

(** ** The grade points *)

Lemma number_ge_trans (a b : number) (k : Z) :
  QArith_base.Qle a b ->
  number_ge a (of_int k) = true -> number_ge b (of_int k) = true.
Proof.
  unfold number_ge. rewrite !QArith_base.Qle_bool_iff. intros Hab Hk.
  exact (QArith_base.Qle_trans _ _ _ Hk Hab).
Qed.

(** The grade points never decrease when the marks increase, they are 0
    to 4, and the label the client shows next to the marks names the
    grade points the server stores for them.  The subjects the semester
    form sends all pass the marks check of POST /api/gpa/semester, and
    each has a name that is not blank and a positive number of credit
    hours. *)
Theorem semester_marks_and_grade_points :
  (forall marks marks' : number,
      QArith_base.Qle marks marks' ->
      (calculateSubjectGPA marks <= calculateSubjectGPA marks')%Z)
  /\ (forall marks : number, (0 <= calculateSubjectGPA marks <= 4)%Z)
  /\ (forall marks : number,
        getGradeFromMarks marks = grade_label (calculateSubjectGPA marks))
  /\ (forall subjects : list Subject.t,
        marks_refused (validSubjects subjects) = false)
  /\ (forall (subjects : list Subject.t) (s : Subject.t),
        In s (validSubjects subjects) ->
        In s subjects
        /\ (exists c, In c (Subject.name s) /\ is_space c = false)
        /\ QArith_base.Qlt (of_int 0) (Subject.creditHours s)).
Proof.
  split; [|split; [|split; [|split]]].
  - intros marks marks' Hle. unfold calculateSubjectGPA.
    pose proof (@number_ge_trans marks marks' 80 Hle) as H80.
    pose proof (@number_ge_trans marks marks' 70 Hle) as H70.
    pose proof (@number_ge_trans marks marks' 60 Hle) as H60.
    pose proof (@number_ge_trans marks marks' 50 Hle) as H50.
    destruct (number_ge marks (of_int 80));
      [rewrite (H80 eq_refl); lia|].
    destruct (number_ge marks (of_int 70));
      [rewrite (H70 eq_refl); destruct (number_ge marks' (of_int 80)); lia|].
    destruct (number_ge marks (of_int 60));
      [rewrite (H60 eq_refl);
       destruct (number_ge marks' (of_int 80)),
         (number_ge marks' (of_int 70)); lia|].
    destruct (number_ge marks (of_int 50));
      [rewrite (H50 eq_refl)|];
      destruct (number_ge marks' (of_int 80)),
        (number_ge marks' (of_int 70)), (number_ge marks' (of_int 60));
      try destruct (number_ge marks' (of_int 50)); lia.
  - intros marks. unfold calculateSubjectGPA.
    destruct (number_ge marks (of_int 80)), (number_ge marks (of_int 70)),
      (number_ge marks (of_int 60)), (number_ge marks (of_int 50)); lia.
  - intros marks. unfold getGradeFromMarks, calculateSubjectGPA.
    destruct (number_ge marks (of_int 80)), (number_ge marks (of_int 70)),
      (number_ge marks (of_int 60)), (number_ge marks (of_int 50));
      reflexivity.
  - intros subjects. unfold marks_refused, validSubjects.
    destruct (existsb _ _) eqn:E; [|reflexivity].
    apply existsb_exists in E. destruct E as (s & Hin & Hs).
    apply filter_In in Hin. destruct Hin as [_ Hv].
    rewrite !andb_true_iff in Hv. destruct Hv as (((_ & H0) & H100) & _).
    rewrite H0, H100 in Hs. discriminate.
  - intros subjects s Hin. apply filter_In in Hin. destruct Hin as [Hin Hv].
    rewrite !andb_true_iff in Hv. destruct Hv as (((Hn & _) & _) & Hc).
    split; [exact Hin|]. split.
    + unfold trimmed_nonempty in Hn. apply existsb_exists in Hn.
      destruct Hn as (c & Hc' & Hs). exists c. split; [exact Hc'|].
      apply negb_true_iff. exact Hs.
    + apply negb_true_iff in Hc. unfold number_ge in Hc.
      apply QArith_base.Qnot_le_lt. intros Hle.
      apply QArith_base.Qle_bool_iff in Hle. congruence.
Qed.

(** ** The client's form state *)

Lemma includes_false_iff (x : jsstring) (array : list jsstring) :
  includes x array = false <-> ~ In x array.
Proof.
  rewrite <- includes_iff. destruct (includes x array); split; congruence.
Qed.

Lemma filter_all {A} (p : A -> bool) (l : list A) :
  (forall x, In x l -> p x = true) -> List.filter p l = l.
Proof.
  induction l as [|x l IH]; intros H; [reflexivity|]. cbn [List.filter].
  rewrite (H x (or_introl eq_refl)), IH; [reflexivity|].
  intros y Hy. apply H. right. exact Hy.
Qed.

(** [toggleInterest] flips whether the interest is selected and leaves
    every other interest as it was; it keeps a selection without
    duplicates so, and toggling an interest that was not selected twice
    gives the selection back. *)
Theorem toggleInterest_flips_one (interest : jsstring)
  (prev : list jsstring) :
  includes interest (toggleInterest interest prev)
  = negb (includes interest prev)
  /\ (forall other, other <> interest ->
        includes other (toggleInterest interest prev) = includes other prev)
  /\ (NoDup prev -> NoDup (toggleInterest interest prev))
  /\ (~ In interest prev ->
      toggleInterest interest (toggleInterest interest prev) = prev).
Proof.
  unfold toggleInterest.
  destruct (includes interest prev) eqn:Hinc.
  - split; [|split; [|split]].
    + cbn [negb]. apply includes_false_iff. intros Hin.
      apply filter_In in Hin. destruct Hin as [_ H].
      rewrite str_eqb_refl in H. discriminate.
    + intros other Hother.
      destruct (includes other prev) eqn:Ho.
      * apply includes_iff. apply filter_In.
        split; [apply includes_iff; exact Ho|].
        apply negb_true_iff. apply str_eqb_neq. exact Hother.
      * apply includes_false_iff. intros Hin. apply filter_In in Hin.
        apply includes_false_iff in Ho. exact (Ho (proj1 Hin)).
    + apply NoDup_filter.
    + intros Hnot. apply includes_iff in Hinc. contradiction.
  - apply includes_false_iff in Hinc. split; [|split; [|split]].
    + cbn [negb]. apply includes_iff. apply in_or_app. right. left.
      reflexivity.
    + intros other Hother.
      destruct (includes other prev) eqn:Ho.
      * apply includes_iff. apply in_or_app. left. apply includes_iff.
        exact Ho.
      * apply includes_false_iff. intros Hin. apply in_app_or in Hin.
        apply includes_false_iff in Ho.
        destruct Hin as [Hin|[E|[]]]; [exact (Ho Hin)|].
        apply Hother. symmetry. exact E.
    + intros Hnd. apply NoDup_app; [exact Hnd|repeat constructor; intros []|].
      intros a Ha [<-|[]]. exact (Hinc Ha).
    + intros _.
      assert (Hin : includes interest (prev ++ [interest]) = true).
      { apply includes_iff. apply in_or_app. right. left. reflexivity. }
      rewrite Hin, filter_app. cbn [List.filter].
      rewrite str_eqb_refl. cbn [negb]. rewrite app_nil_r.
      apply filter_all. intros x Hx. apply negb_true_iff.
      apply str_eqb_neq. intros ->. exact (Hinc Hx).
Qed.

Lemma length_remove_at {A} (index : nat) (l : list A) :
  length (remove_at index l)
  = if index <? length l then length l - 1 else length l.
Proof.
  revert index. induction l as [|x l IH]; intros index; [reflexivity|].
  destruct index as [|i]; cbn [remove_at length].
  - change (0 <? S (length l)) with true. cbv iota. lia.
  - rewrite IH. change (S i <? S (length l)) with (i <? length l).
    destruct (Nat.ltb_spec i (length l)); lia.
Qed.

Lemma length_map_at {A} (index : nat) (f : A -> A) (l : list A) :
  length (map_at index f l) = length l.
Proof.
  revert index. induction l as [|x l IH]; intros [|i]; cbn [map_at length];
    try reflexivity. rewrite IH. reflexivity.
Qed.

(** The semester form always shows at least one subject row:
    [removeSubject] removes the row at the index when there are two rows
    or more, and nothing otherwise; [addSubject] adds one row and
    [updateSubject] keeps the number of rows. *)
Theorem subject_rows_never_empty :
  (forall subjects, form_state subjects -> 1 <= length subjects)
  /\ (forall index subjects,
        length (removeSubject index subjects)
        = if (1 <? length subjects) && (index <? length subjects)
          then length subjects - 1 else length subjects)
  /\ (forall subjects, length (addSubject subjects) = S (length subjects))
  /\ (forall index set_field subjects,
        length (updateSubject index set_field subjects) = length subjects).
Proof.
  assert (Hremove : forall index (subjects : list Subject.t),
    length (removeSubject index subjects)
    = if (1 <? length subjects) && (index <? length subjects)
      then length subjects - 1 else length subjects).
  { intros index subjects. unfold removeSubject.
    destruct (1 <? length subjects); cbn [andb]; [|reflexivity].
    apply length_remove_at. }
  assert (Hadd : forall subjects : list Subject.t,
    length (addSubject subjects) = S (length subjects)).
  { intros subjects. unfold addSubject. rewrite length_app. cbn. lia. }
  split; [|split; [exact Hremove|split; [exact Hadd|]]].
  - induction 1 as [|subjects _ IH|index subjects _ IH
                    |index set_field subjects _ IH].
    + cbn. lia.
    + rewrite Hadd. lia.
    + rewrite Hremove.
      destruct (Nat.ltb_spec 1 (length subjects)); cbn [andb]; [|exact IH].
      destruct (index <? length subjects); lia.
    + unfold updateSubject. rewrite length_map_at. exact IH.
  - intros index set_field subjects. apply length_map_at.
Qed.

(** ** The study assistant *)

Lemma slice_last_spec {A} (n : nat) (array : list A) :
  length (slice_last n array) = Nat.min n (length array)
  /\ exists earlier, array = earlier ++ slice_last n array.
Proof.
  unfold slice_last. split.
  - rewrite length_skipn.
    destruct (Nat.min_spec n (length array)) as [[H ->]|[H ->]]; lia.
  - exists (firstn (length array - n) array). symmetry.
    apply firstn_skipn.
Qed.

Lemma chatTitle_spec (message : jsstring) :
  length (chatTitle message) <= 53
  /\ (length message <= 50 -> chatTitle message = message)
  /\ (50 < length message ->
      chatTitle message = firstn 50 message ++ js "...").
Proof.
  unfold chatTitle. destruct (Nat.ltb_spec 50 (length message)) as [H|H].
  - split; [|split]; [|lia|reflexivity].
    rewrite length_app, length_firstn. change (length (js "...")) with 3.
    pose proof (Nat.le_min_l 50 (length message)). lia.
  - rewrite app_nil_r. split; [|split]; [| |lia].
    + rewrite length_firstn.
      pose proof (Nat.le_min_l 50 (length message)). lia.
    + intros _. apply firstn_all2. exact H.
Qed.

Lemma map_unmatched {A} (test : A -> bool) (update : A -> A)
  (l : list A) :
  (forall x, In x l -> test x = false) ->
  map (fun x => if test x then update x else x) l = l.
Proof.
  intros H. induction l as [|x l IH]; [reflexivity|].
  cbn [map]. rewrite (H x (or_introl eq_refl)), IH; [reflexivity|].
  intros y Hy. apply H. right. exact Hy.
Qed.

(** POST /api/ai/chat.  Without a message it answers 400.  With the id
    of a session that is not a session of the user it answers 404 and
    writes nothing.  With the id of a session of the user it sends the
    model the last ten stored messages at most, and appends to the
    session the message and the reply, in this order, leaving every other
    row as it was.  Without a session id it creates a session titled with
    the first 50 code units of the message, followed by "..." when the
    message is longer, and stores the two messages in it. *)
Theorem chat_appends_to_own_session
  (getChatResponse : jsstring -> list ChatMessage.t -> jsstring)
  (newId : jsstring) (toISOString : Z -> jsstring) (now : Z)
  (userId : jsstring) (body : list (string * jsstring))
  (chatSessions : list ChatSession.t) :
  let answer :=
    post_api_ai_chat getChatResponse newId toISOString now userId body
                     chatSessions in
  let exchange := fun message history =>
    [{| ChatMessage.role := role_user;
        ChatMessage.content := message;
        ChatMessage.timestamp := toISOString now |};
     {| ChatMessage.role := role_assistant;
        ChatMessage.content := getChatResponse message history;
        ChatMessage.timestamp := toISOString now |}] in
  (truthy (body_field "message" body) = false ->
   answer = (message_response 400 "Message is required", chatSessions))
  /\ (forall message sessionId,
        body_field "message" body = Some message ->
        truthy (Some message) = true ->
        body_field "sessionId" body = Some sessionId ->
        truthy (Some sessionId) = true ->
        ((forall row, In row chatSessions ->
            ChatSession.id row = sessionId ->
            ChatSession.userId row <> userId) ->
         answer = (message_response 404 "Chat session not found",
                   chatSessions))
        /\ (forall session,
              getChatSession sessionId userId chatSessions = Some session ->
              let history := slice_last 10 (ChatSession.messages session) in
              status (fst answer) = 200
              /\ length history <= 10
              /\ (exists earlier,
                    ChatSession.messages session = earlier ++ history)
              /\ (exists session',
                    getChatSession sessionId userId (snd answer)
                    = Some session'
                    /\ ChatSession.messages session'
                       = ChatSession.messages session
                         ++ exchange message history)
              /\ (forall row, In row chatSessions ->
                    ChatSession.id row <> sessionId
                    \/ ChatSession.userId row <> userId ->
                    In row (snd answer))))
  /\ (forall message,
        body_field "message" body = Some message ->
        truthy (Some message) = true ->
        truthy (body_field "sessionId" body) = false ->
        (forall row, In row chatSessions -> ChatSession.id row <> newId) ->
        status (fst answer) = 200
        /\ length (chatTitle message) <= 53
        /\ snd answer
           = chatSessions
             ++ [{| ChatSession.id := newId;
                    ChatSession.userId := userId;
                    ChatSession.title := chatTitle message;
                    ChatSession.messages := exchange message [];
                    ChatSession.updatedAt := now |}]).
Proof.
  intros answer exchange. unfold answer, post_api_ai_chat. cbv zeta.
  split; [|split].
  - intros Hm. destruct (body_field "message" body) as [[|c m]|];
      try reflexivity. discriminate.
  - intros message sessionId Hm Hmt Hs Hst. rewrite Hm, Hs.
    destruct message as [|c m]; [discriminate|].
    destruct sessionId as [|c' s]; [discriminate|].
    split.
    + intros Hother.
      destruct (getChatSession (c' :: s) userId chatSessions) as [row|] eqn:E;
        [|reflexivity].
      exfalso. apply find_some in E. destruct E as [Hin Hmatch].
      unfold sessionMatches in Hmatch. apply andb_true_iff in Hmatch.
      destruct Hmatch as [Hid Hu].
      apply str_eqb_eq in Hid. apply str_eqb_eq in Hu.
      exact (Hother row Hin Hid Hu).
    + intros session Hfound. rewrite Hfound.
      set (history := slice_last 10 (ChatSession.messages session)).
      pose proof (find_some _ _ Hfound) as [Hin Hmatch].
      assert (Hid : ChatSession.id session = c' :: s).
      { unfold sessionMatches in Hmatch. apply andb_true_iff in Hmatch.
        apply str_eqb_eq. exact (proj1 Hmatch). }
      cbn [fst snd status]. rewrite Hid.
      destruct (slice_last_spec 10 (ChatSession.messages session))
        as [Hlen Hsuffix].
      split; [reflexivity|]. split; [unfold history; lia|].
      split; [exact Hsuffix|]. split.
      * unfold getChatSession, updateChatSession.
        rewrite (find_map_update (sessionMatches (c' :: s) userId)
                   (fun row =>
                      {| ChatSession.id := ChatSession.id row;
                         ChatSession.userId := ChatSession.userId row;
                         ChatSession.title := ChatSession.title row;
                         ChatSession.messages :=
                           ChatSession.messages session
                           ++ exchange (c :: m) history;
                         ChatSession.updatedAt := now |}));
          [|reflexivity].
        unfold getChatSession in Hfound. rewrite Hfound.
        eexists. split; reflexivity.
      * intros row Hrow Hneq. unfold updateChatSession.
        apply in_map_iff. exists row. split; [|exact Hrow].
        assert (E : sessionMatches (c' :: s) userId row = false).
        { unfold sessionMatches. apply andb_false_iff.
          destruct Hneq as [H|H]; [left|right]; apply str_eqb_neq;
            exact H. }
        rewrite E. reflexivity.
  - intros message Hm Hmt Hs Hfresh. rewrite Hm.
    destruct message as [|c m]; [discriminate|].
    assert (Hnew : match body_field "sessionId" body with
                   | Some ((_ :: _) as sessionId) =>
                       match getChatSession sessionId userId chatSessions
                       with
                       | Some session => Some (session, chatSessions)
                       | None => None
                       end
                   | _ => Some (createChatSession newId now userId
                                  (chatTitle (c :: m)) [] chatSessions)
                   end
                   = Some (createChatSession newId now userId
                             (chatTitle (c :: m)) [] chatSessions)).
    { destruct (body_field "sessionId" body) as [[|c' s]|];
        try reflexivity. discriminate. }
    rewrite Hnew. unfold createChatSession.
    cbn [fst snd status ChatSession.id ChatSession.messages app].
    split; [reflexivity|].
    split; [exact (proj1 (chatTitle_spec (c :: m)))|].
    unfold updateChatSession. rewrite map_app.
    rewrite (map_unmatched (sessionMatches newId userId)).
    + cbn [map]. unfold sessionMatches.
      cbn [ChatSession.id ChatSession.userId ChatSession.title].
      rewrite !str_eqb_refl. reflexivity.
    + intros row Hrow. unfold sessionMatches. apply andb_false_iff. left.
      apply str_eqb_neq. exact (Hfresh row Hrow).
Qed.

End Server.

(** ** The model on examples

    The properties above, applied with the stand-ins of [Toy]. *)

Lemma toy_scrypt_length (password salt : jsstring) (keylen : nat) :
  length (Toy.scrypt password salt keylen) = keylen.
Proof. unfold Toy.scrypt. rewrite length_map, length_seq. reflexivity. Qed.

Lemma refresh_token_single_use_witness :
  verifyRefreshToken Toy.jwt_open_refresh 2000000 Toy.ada_refresh_token
                     Toy.ada_db
  = Some Toy.ada_refresh
  /\ verifyRefreshToken Toy.jwt_open_refresh 3000000 Toy.ada_refresh_token
       (revokeRefreshToken (js "c0ffee") (js "user-") Toy.ada_db)
     = None.
Proof.
  assert (H : verifyRefreshToken Toy.jwt_open_refresh 2000000
                Toy.ada_refresh_token Toy.ada_db = Some Toy.ada_refresh)
    by (vm_compute; reflexivity).
  split; [exact H|].
  exact (proj2 (@refresh_token_single_use Toy.jwt_open_refresh 2000000
                  3000000 Toy.ada_refresh_token Toy.ada_refresh Toy.ada_db
                  H)).
Defined.

(** C2 fails on the code: a stored string without "." and one whose first
    part decodes to two bytes both make [comparePasswords] throw. *)
Lemma comparePasswords_throws_on_malformed :
  comparePasswords Toy.scrypt (js "Str0ng!Pass9") (js "c0ffee")
  = Throw TypeError
  /\ comparePasswords Toy.scrypt (js "Str0ng!Pass9") (js "c0ff.ee00")
     = Throw RangeError
  /\ comparePasswords Toy.scrypt (js "Str0ng!Pass9") (js "c0ffee")
     <> Ok false.
Proof.
  split; [vm_compute; reflexivity|].
  split; [vm_compute; reflexivity|]. vm_compute. discriminate.
Qed.

Lemma comparePasswords_malformed_throws_witness :
  comparePasswords Toy.scrypt (js "Str0ng!Pass9") (js "c0ffee")
  = Throw TypeError
  /\ comparePasswords Toy.scrypt (js "Str0ng!Pass9") (js "c0ff.ee00")
     = Throw RangeError
  /\ comparePasswords Toy.scrypt (js "Wr0ng!Pass9") Toy.ada_stored
     = Ok false.
Proof.
  split; [|split].
  3: {
    rewrite (proj2 (proj2 (comparePasswords_malformed_throws Toy.scrypt
                             toy_scrypt_length (js "Wr0ng!Pass9")
                             Toy.ada_stored))
               (toHex (Toy.scrypt (js "Str0ng!Pass9") Toy.ada_salt 64))
               Toy.ada_salt eq_refl (@toHex_no_dot _)).
    - vm_compute. reflexivity.
    - vm_compute. reflexivity. }
  - apply (proj1 (comparePasswords_malformed_throws Toy.scrypt
                    toy_scrypt_length (js "Str0ng!Pass9") (js "c0ffee"))).
    vm_compute. intros H.
    repeat (destruct H as [H|H]; [discriminate H|]). exact H.
  - apply (proj1 (proj2 (comparePasswords_malformed_throws Toy.scrypt
                           toy_scrypt_length (js "Str0ng!Pass9")
                           (js "c0ff.ee00")))
             (js "c0ff") (js "ee00")).
    + reflexivity.
    + vm_compute. intros H.
      repeat (destruct H as [H|H]; [discriminate H|]). exact H.
    + vm_compute. discriminate.
Defined.

Lemma blacklist_checked_before_verification_witness :
  verifyAccessToken Toy.jwt_open_access 1000000 Toy.ada_access_token
  = Some Toy.ada_access
  /\ authenticateToken Toy.jwt_open_access 1000000
       (Toy.with_bearer Toy.ada_access_token) Toy.revoked_db
     = Reject (error_response 401 "Token has been revoked" "TOKEN_REVOKED").
Proof.
  split; [vm_compute; reflexivity|].
  apply (proj1 (blacklist_checked_before_verification Toy.jwt_open_access
                  1000000 (Toy.with_bearer Toy.ada_access_token)
                  Toy.revoked_db) Toy.ada_access_token);
    vm_compute; reflexivity.
Defined.



Lemma toy_revoked_db_written_by_server :
  blacklist_written_by_server Toy.jwt_open_access Toy.revoked_db.
Proof.
  intros row [<-|[]]. exists Toy.ada_access, 1900%Z.
  repeat split; vm_compute; reflexivity.
Defined.

Lemma expired_rows_are_dead_witness :
  verifyRefreshToken Toy.jwt_open_refresh 650000000 Toy.ada_refresh_token
                     Toy.ada_db = None
  /\ verifyAccessToken Toy.jwt_open_access 2000000 Toy.ada_access_token
     = None
  /\ accepted (authenticateToken Toy.jwt_open_access 2000000
                 (Toy.with_bearer Toy.ada_access_token)
                 (cleanupExpiredTokens 2000000 Toy.revoked_db))
     = accepted (authenticateToken Toy.jwt_open_access 2000000
                   (Toy.with_bearer Toy.ada_access_token) Toy.revoked_db).
Proof.
  split; [|split].
  - refine (proj2 (proj1 (expired_rows_are_dead Toy.jwt_open_access
                            Toy.jwt_open_refresh 650000000 Toy.ada_db)
                     Toy.ada_refresh_token Toy.ada_refresh
                     {| RefreshToken.userId := js "user-";
                        RefreshToken.token := js "c0ffee";
                        RefreshToken.expiresAt := 605800000 |} _ _ _));
      vm_compute; reflexivity.
  - refine (proj1 (proj2 (expired_rows_are_dead Toy.jwt_open_access
                            Toy.jwt_open_refresh 2000000 Toy.revoked_db)
                     toy_revoked_db_written_by_server)
              {| BlacklistedToken.token := Toy.ada_access_token;
                 BlacklistedToken.expiresAt := 1900000 |} _ _).
    + left. reflexivity.
    + vm_compute. reflexivity.
  - exact (proj2 (proj2 (expired_rows_are_dead Toy.jwt_open_access
                           Toy.jwt_open_refresh 2000000 Toy.revoked_db)
                    toy_revoked_db_written_by_server)
             (Toy.with_bearer Toy.ada_access_token)).
Defined.

Lemma hash_then_compare_witness :
  exists stored,
    hashPassword Toy.scrypt Toy.entropy (js "Str0ng!Pass9") = Ok stored
    /\ comparePasswords Toy.scrypt (js "Str0ng!Pass9") stored = Ok true
    /\ comparePasswords Toy.scrypt (js "Wr0ng!Pass9") stored = Ok false.
Proof.
  destruct (hash_then_compare Toy.scrypt toy_scrypt_length Toy.entropy
              (js "Str0ng!Pass9"))
    as (salt & key & -> & _ & -> & _ & Hhash & Hsame & Hany).
  eexists. split; [exact Hhash|]. split; [exact Hsame|].
  rewrite (proj1 (Hany (js "Wr0ng!Pass9"))). vm_compute. reflexivity.
Defined.

Lemma login_failures_indistinguishable_witness :
  fst (post_api_login Toy.jwt_sign_access Toy.jwt_sign_refresh Toy.scrypt
         Toy.zod_email Toy.sevenDaysLater Toy.entropy 1000000
         (Toy.login_request "ada@example.com" "Wr0ng!Pass9") Toy.empty_db)
  = fst (post_api_login Toy.jwt_sign_access Toy.jwt_sign_refresh Toy.scrypt
           Toy.zod_email Toy.sevenDaysLater Toy.entropy 1000000
           (Toy.login_request "ada@example.com" "Wr0ng!Pass9") Toy.ada_db).
Proof.
  refine (proj2 (proj2
    (@login_failures_indistinguishable Toy.jwt_sign_access
       Toy.jwt_sign_refresh Toy.scrypt Toy.zod_email Toy.sevenDaysLater Toy.entropy Toy.entropy
       1000000 1000000 (Toy.login_request "ada@example.com" "Wr0ng!Pass9")
       Toy.empty_db Toy.ada_db
       {| login_email := js "ada@example.com";
          login_password := js "Wr0ng!Pass9" |}
       Toy.ada _ _ _ _))); vm_compute; reflexivity.
Defined.

Lemma accepted_password_is_good_or_strong_witness :
  7 <= score (calculatePasswordStrength (js "Passw0rd!"))
  /\ (strength (calculatePasswordStrength (js "Passw0rd!")) = good
      \/ strength (calculatePasswordStrength (js "Passw0rd!")) = strong).
Proof.
  apply (proj1 (accepted_password_is_good_or_strong Toy.jwt_sign_access
                  Toy.jwt_sign_refresh Toy.scrypt Toy.zod_email
                  Toy.newUserId Toy.sevenDaysLater) (js "Passw0rd!")).
  vm_compute. reflexivity.
Defined.

Lemma rotation_consumes_refresh_token_witness :
  status (fst (post_api_refresh Toy.jwt_open_refresh Toy.jwt_sign_access
                 Toy.jwt_sign_refresh Toy.sevenDaysLater Toy.entropy 2000000
                 Toy.refresh_request Toy.ada_db)) = 200
  /\ verifyRefreshToken Toy.jwt_open_refresh 3000000 Toy.ada_refresh_token
       (snd (post_api_refresh Toy.jwt_open_refresh Toy.jwt_sign_access
               Toy.jwt_sign_refresh Toy.sevenDaysLater Toy.entropy 2000000
               Toy.refresh_request Toy.ada_db))
     = None.
Proof.
  split; [vm_compute; reflexivity|].
  refine (@rotation_consumes_refresh_token Toy.jwt_open_refresh
            Toy.jwt_sign_access Toy.jwt_sign_refresh Toy.sevenDaysLater Toy.entropy 2000000
            3000000 Toy.refresh_request Toy.ada_db _ _ Toy.ada_refresh_token
            _ (surjective_pairing _) _ _).
  - vm_compute. reflexivity.
  - vm_compute. reflexivity.
  - intros payload H. vm_compute in H. injection H as <-.
    vm_compute. discriminate.
Defined.

Lemma gate_meets_spec_without_line_terminators_witness :
  spec_accepts (js "Passw0rd!").
Proof.
  apply (proj1 (@gate_meets_spec_without_line_terminators (js "Passw0rd!")
                  eq_refl)).
  vm_compute. reflexivity.
Defined.

Lemma login_throwing_credential_witness :
  post_api_login Toy.jwt_sign_access Toy.jwt_sign_refresh Toy.scrypt
    Toy.zod_email Toy.sevenDaysLater Toy.entropy 1000000
    (Toy.login_request "ada@example.com" "Str0ng!Pass9")
    {| users := [{| User.id := js "user-";
                    User.name := js "Ada Lovelace";
                    User.email := js "ada@example.com";
                    User.password := js "c0ffee";
                    User.role := js "student" |}];
       refreshTokens := [];
       blacklistedTokens := [] |}
  = (error_response 500 "Internal server error" "LOGIN_ERROR",
     {| users := [{| User.id := js "user-";
                     User.name := js "Ada Lovelace";
                     User.email := js "ada@example.com";
                     User.password := js "c0ffee";
                     User.role := js "student" |}];
        refreshTokens := [];
        blacklistedTokens := [] |}).
Proof.
  refine (@login_throwing_credential Toy.jwt_sign_access
            Toy.jwt_sign_refresh Toy.scrypt Toy.zod_email Toy.sevenDaysLater Toy.entropy
            1000000 (Toy.login_request "ada@example.com" "Str0ng!Pass9") _
            {| login_email := js "ada@example.com";
               login_password := js "Str0ng!Pass9" |}
            _ TypeError _ _ _); vm_compute; reflexivity.
Defined.

Lemma sweep_keeps_acceptance_witness :
  accepted
    (authenticateToken Toy.jwt_open_access 2000000
       (Toy.with_bearer Toy.ada_access_token)
       (cleanupExpiredTokens 2000000
          (snd (post_api_logout Toy.jwt_open_access Toy.jwt_open_refresh
                  1000000 (Toy.with_bearer Toy.ada_access_token)
                  {| users := [Toy.ada]; refreshTokens := [];
                     blacklistedTokens := [] |}))))
  = accepted
      (authenticateToken Toy.jwt_open_access 2000000
         (Toy.with_bearer Toy.ada_access_token)
         (snd (post_api_logout Toy.jwt_open_access Toy.jwt_open_refresh
                 1000000 (Toy.with_bearer Toy.ada_access_token)
                 {| users := [Toy.ada]; refreshTokens := [];
                    blacklistedTokens := [] |}))).
Proof.
  apply (@sweep_keeps_acceptance Toy.jwt_open_access Toy.jwt_open_refresh
           Toy.jwt_sign_access Toy.jwt_sign_refresh Toy.scrypt
           Toy.zod_email Toy.newUserId Toy.sevenDaysLater).
  apply reachable_logout. apply reachable_initial; reflexivity.
Defined.

(** The end-to-end scenario: registering Ada answers 201 with a user
    object without password and the two token cookies, and the issued
    access token resolves to the same user. *)
Example register_then_current_user :
  let result :=
    post_api_register Toy.jwt_sign_access Toy.jwt_sign_refresh Toy.scrypt
      Toy.zod_email Toy.newUserId Toy.sevenDaysLater Toy.entropy 1000000 Toy.register_request
      Toy.empty_db in
  fst result
  = {| status := 201;
       json := JObject
                 [("user"%string,
                   JObject [("id"%string, JString (js "user-"));
                            ("name"%string, JString (js "Ada Lovelace"));
                            ("email"%string, JString (js "ada@example.com"));
                            ("role"%string, JString (js "student"))]);
                  ("message"%string,
                   JString (js "Account created successfully"))];
       setCookies :=
         setTokenCookies Toy.ada_access_token
           (Toy.jwt_sign_refresh
              {| RefreshTokenPayload.userId := js "user-";
                 RefreshTokenPayload.tokenId :=
                   toHex (randomBytes (drawn 16 Toy.entropy) 32);
                 RefreshTokenPayload.iat := Some 1000%Z;
                 RefreshTokenPayload.exp := Some 605800%Z |}) |}
  /\ accepted (authenticateToken Toy.jwt_open_access 1000000
                 (Toy.with_bearer Toy.ada_access_token) (snd result))
     = Some Toy.ada.
Proof. split; vm_compute; reflexivity. Qed.

(** The access token over its life: accepted when minted, refused once
    expired, refused as revoked after logout although it still verifies. *)
Example access_token_life :
  accepted (authenticateToken Toy.jwt_open_access 1000000
              (Toy.with_bearer Toy.ada_access_token) Toy.ada_db)
  = Some Toy.ada
  /\ authenticateToken Toy.jwt_open_access 1900000
       (Toy.with_bearer Toy.ada_access_token) Toy.ada_db
     = Reject (error_response 401 "Invalid or expired token" "TOKEN_INVALID")
  /\ snd (post_api_logout Toy.jwt_open_access Toy.jwt_open_refresh 1000000
            (Toy.with_bearer Toy.ada_access_token) Toy.ada_db)
     = Toy.revoked_db
  /\ verifyAccessToken Toy.jwt_open_access 1000001 Toy.ada_access_token
     = Some Toy.ada_access
  /\ authenticateToken Toy.jwt_open_access 1000001
       (Toy.with_bearer Toy.ada_access_token) Toy.revoked_db
     = Reject (error_response 401 "Token has been revoked" "TOKEN_REVOKED").
Proof. repeat split; vm_compute; reflexivity. Qed.

(** Validation rejections of the specification: a confirmation that
    differs is reported on the confirmation field, and an e-mail with two
    dots in a row in the local part is refused. *)
Example registration_rejections :
  registrationValidationSchema Toy.zod_email
    [("name"%string, js "Ada Lovelace");
     ("email"%string, js "ada@example.com");
     ("password"%string, js "Str0ng!Pass9");
     ("confirmPassword"%string, js "Str0ng!Pass8")]
  = ParseFailure [("confirmPassword"%string,
                   "Passwords do not match"%string)]
  /\ emailValidationSchema Toy.zod_email (js "a..b@example.com")
     = ["Email format is not valid"%string].
Proof. split; vm_compute; reflexivity. Qed.

Lemma revoke_all_refuses_user_tokens_witness :
  verifyRefreshToken Toy.jwt_open_refresh 2000000 Toy.ada_refresh_token
    (revokeAllRefreshTokens (js "user-") Toy.ada_db)
  = None.
Proof.
  apply (@revoke_all_refuses_user_tokens Toy.jwt_open_refresh 2000000
           Toy.ada_refresh_token Toy.ada_refresh Toy.ada_db).
  vm_compute. reflexivity.
Defined.

Lemma hash_salts_differ_witness :
  exists stored stored',
    hashPassword Toy.scrypt Toy.entropy (js "Str0ng!Pass9") = Ok stored
    /\ hashPassword Toy.scrypt (drawn 16 Toy.entropy) (js "Str0ng!Pass9")
       = Ok stored'
    /\ stored <> stored'.
Proof.
  eexists. eexists. split; [reflexivity|]. split; [reflexivity|].
  apply (@hash_salts_differ Toy.scrypt Toy.entropy (drawn 16 Toy.entropy)
           (js "Str0ng!Pass9")).
  - vm_compute. discriminate.
  - reflexivity.
  - reflexivity.
Defined.

(** ** More examples *)

Lemma blacklistToken_revokes_verified_token_witness :
  isTokenBlacklisted Toy.ada_access_token
    (blacklistToken Toy.jwt_open_access 1000000 Toy.ada_access_token
                    Toy.ada_db)
  = true
  /\ authenticateToken Toy.jwt_open_access 1500000
       (Toy.with_bearer Toy.ada_access_token)
       (blacklistToken Toy.jwt_open_access 1000000 Toy.ada_access_token
                       Toy.ada_db)
     = Reject (error_response 401 "Token has been revoked" "TOKEN_REVOKED")
  /\ blacklistToken Toy.jwt_open_access 1000000 (js "garbage") Toy.ada_db
     = Toy.ada_db.
Proof.
  destruct (proj1 (blacklistToken_revokes_verified_token
                     Toy.jwt_open_access 1000000 1500000
                     Toy.ada_access_token Toy.ada_db)
              Toy.ada_access 1900%Z) as [Hb Hreq];
    [vm_compute; reflexivity | reflexivity | discriminate |].
  split; [exact Hb|]. split; [apply Hreq; vm_compute; reflexivity|].
  apply (proj1 (proj2 (blacklistToken_revokes_verified_token
                         Toy.jwt_open_access 1000000 1500000 (js "garbage")
                         Toy.ada_db))).
  vm_compute. reflexivity.
Defined.

Lemma logout_revokes_presented_token_witness :
  authenticateToken Toy.jwt_open_access 1500000
    (Toy.with_bearer Toy.ada_access_token)
    (snd (post_api_logout Toy.jwt_open_access Toy.jwt_open_refresh 1000000
            (Toy.with_bearer Toy.ada_access_token) Toy.ada_db))
  = Reject (error_response 401 "Token has been revoked" "TOKEN_REVOKED").
Proof.
  apply (@logout_revokes_presented_token Toy.jwt_open_access
           Toy.jwt_open_refresh 1000000 1500000
           (Toy.with_bearer Toy.ada_access_token) Toy.ada_db Toy.ada).
  - vm_compute. reflexivity.
  - reflexivity.
  - intros token payload Hp Ho. vm_compute in Hp. injection Hp as <-.
    vm_compute in Ho. injection Ho as <-. exists 1900%Z.
    split; [reflexivity|discriminate].
Defined.

Lemma logout_blacklists_cookie_not_header_witness :
  status (fst (post_api_logout Toy.jwt_open_access Toy.jwt_open_refresh
                 1000000 Toy.logout_request Toy.ada_db)) = 200
  /\ isTokenBlacklisted Toy.ada_access_token
       (snd (post_api_logout Toy.jwt_open_access Toy.jwt_open_refresh
               1000000 Toy.logout_request Toy.ada_db))
     = false
  /\ authenticateToken Toy.jwt_open_access 1000000 Toy.logout_request
       (snd (post_api_logout Toy.jwt_open_access Toy.jwt_open_refresh
               1000000 Toy.logout_request Toy.ada_db))
     = Next Toy.ada.
Proof.
  apply (@logout_blacklists_cookie_not_header Toy.jwt_open_access
           Toy.jwt_open_refresh 1000000 Toy.logout_request Toy.ada_db
           Toy.ada Toy.ada_access_token (js "stale"));
    vm_compute; try reflexivity; discriminate.
Defined.

Lemma revocation_keeps_other_sessions_witness :
  verifyRefreshToken Toy.jwt_open_refresh 2000000 Toy.ada_refresh_token
    (revokeRefreshToken (js "beef") (js "user-") Toy.ada_db)
  = verifyRefreshToken Toy.jwt_open_refresh 2000000 Toy.ada_refresh_token
      Toy.ada_db.
Proof.
  apply (proj1 (revocation_keeps_other_sessions Toy.jwt_open_access
                  Toy.jwt_open_refresh 1000000 2000000
                  Toy.ada_refresh_token Toy.ada_db)).
  intros payload Ho. vm_compute in Ho. injection Ho as <-.
  left. vm_compute. discriminate.
Defined.

Lemma sweep_keeps_refresh_verification_witness :
  verifyRefreshToken Toy.jwt_open_refresh 650000000 Toy.ada_refresh_token
    (cleanupExpiredTokens 650000000 Toy.ada_db)
  = verifyRefreshToken Toy.jwt_open_refresh 650000000
      Toy.ada_refresh_token Toy.ada_db.
Proof.
  apply (@sweep_keeps_refresh_verification Toy.jwt_open_refresh 650000000
           Toy.ada_refresh_token Toy.ada_db).
  unfold refresh_tokens_unique. cbn [Toy.ada_db refreshTokens map].
  constructor; [intros []|constructor].
Defined.

Lemma logout_all_ends_refresh_sessions_only_witness :
  verifyRefreshToken Toy.jwt_open_refresh 2000000 Toy.ada_refresh_token
    (snd (post_api_logout_all Toy.jwt_open_access 1000000
            (Toy.with_bearer Toy.ada_access_token) Toy.ada_db))
  = None
  /\ authenticateToken Toy.jwt_open_access 1500000
       (Toy.with_bearer Toy.ada_access_token)
       (snd (post_api_logout_all Toy.jwt_open_access 1000000
               (Toy.with_bearer Toy.ada_access_token) Toy.ada_db))
     = authenticateToken Toy.jwt_open_access 1500000
         (Toy.with_bearer Toy.ada_access_token) Toy.ada_db.
Proof.
  assert (Hnext : authenticateToken Toy.jwt_open_access 1000000
                    (Toy.with_bearer Toy.ada_access_token) Toy.ada_db
                  = Next Toy.ada) by (vm_compute; reflexivity).
  destruct (@logout_all_ends_refresh_sessions_only Toy.jwt_open_access
              Toy.jwt_open_refresh 1000000 2000000
              (Toy.with_bearer Toy.ada_access_token) Toy.ada_db Toy.ada
              Hnext) as (Hown & _ & Haccess).
  split; [|apply Haccess].
  apply (Hown Toy.ada_refresh_token Toy.ada_refresh); vm_compute;
    reflexivity.
Defined.

Lemma access_token_lives_fifteen_minutes_witness :
  verifyAccessToken Toy.jwt_open_access 1899000
    (generateAccessToken Toy.jwt_sign_access 1000000 Toy.ada)
  = Some (accessTokenClaims 1000000 Toy.ada)
  /\ verifyAccessToken Toy.jwt_open_access 1900000
       (generateAccessToken Toy.jwt_sign_access 1000000 Toy.ada)
     = None.
Proof.
  assert (Hopen : Toy.jwt_open_access
                    (generateAccessToken Toy.jwt_sign_access 1000000 Toy.ada)
                  = Some (accessTokenClaims 1000000 Toy.ada))
    by (vm_compute; reflexivity).
  split.
  - apply (proj1 (@access_token_lives_fifteen_minutes Toy.jwt_open_access
                    Toy.jwt_sign_access 1000000 1899000 Toy.ada Hopen)).
    vm_compute. discriminate.
  - apply (proj2 (@access_token_lives_fifteen_minutes Toy.jwt_open_access
                    Toy.jwt_sign_access 1000000 1900000 Toy.ada Hopen)).
    vm_compute. discriminate.
Defined.

Lemma refresh_token_lives_seven_days_witness :
  verifyRefreshToken Sample.open_minted_refresh 605799000
    (fst (fst (generateRefreshToken Toy.jwt_sign_refresh Toy.sevenDaysLater
                 Toy.entropy 1000000 (js "user-") Toy.empty_db)))
    (snd (generateRefreshToken Toy.jwt_sign_refresh Toy.sevenDaysLater
            Toy.entropy 1000000 (js "user-") Toy.empty_db))
  = Some Sample.minted_refresh
  /\ verifyRefreshToken Sample.open_minted_refresh 605800000
       (fst (fst (generateRefreshToken Toy.jwt_sign_refresh
                    Toy.sevenDaysLater Toy.entropy 1000000 (js "user-")
                    Toy.empty_db)))
       (snd (generateRefreshToken Toy.jwt_sign_refresh Toy.sevenDaysLater
               Toy.entropy 1000000 (js "user-") Toy.empty_db))
     = None
  /\ verifyRefreshToken Sample.open_minted_refresh 605799000
       (fst (fst (generateRefreshToken Toy.jwt_sign_refresh
                    Sample.short_week Toy.entropy 1000000 (js "user-")
                    Toy.empty_db)))
       (snd (generateRefreshToken Toy.jwt_sign_refresh Sample.short_week
               Toy.entropy 1000000 (js "user-") Toy.empty_db))
     = None.
Proof.
  split; [|split].
  - apply (proj1 (@refresh_token_lives_seven_days Sample.open_minted_refresh
                    Toy.jwt_sign_refresh Toy.sevenDaysLater Toy.entropy
                    1000000 605799000 (js "user-") Toy.empty_db
                    ltac:(vm_compute; reflexivity))).
    + intros row [].
    + vm_compute. discriminate.
    + vm_compute. discriminate.
  - apply (proj1 (proj2 (@refresh_token_lives_seven_days
                           Sample.open_minted_refresh Toy.jwt_sign_refresh
                           Toy.sevenDaysLater Toy.entropy 1000000 605800000
                           (js "user-") Toy.empty_db
                           ltac:(vm_compute; reflexivity)))).
    vm_compute. discriminate.
  - apply (proj1 (proj2 (proj2 (@refresh_token_lives_seven_days
                                  Sample.open_minted_refresh
                                  Toy.jwt_sign_refresh Sample.short_week
                                  Toy.entropy 1000000 605799000
                                  (js "user-") Toy.empty_db
                                  ltac:(vm_compute; reflexivity))))).
    + intros row [].
    + vm_compute. reflexivity.
Defined.

Lemma login_after_register_witness :
  status
    (fst (post_api_login Toy.jwt_sign_access Toy.jwt_sign_refresh Toy.scrypt
            Toy.zod_email Toy.sevenDaysLater (drawn 48 Toy.entropy) 2000000
            (Toy.login_request "ada@example.com" "Str0ng!Pass9")
            (snd (post_api_register Toy.jwt_sign_access Toy.jwt_sign_refresh
                    Toy.scrypt Toy.zod_email Toy.newUserId Toy.sevenDaysLater Toy.entropy
                    1000000 Toy.register_request Toy.empty_db))))
  = 200.
Proof.
  destruct (@login_after_register Toy.jwt_sign_access Toy.jwt_sign_refresh
              Toy.scrypt toy_scrypt_length Toy.zod_email Toy.newUserId Toy.sevenDaysLater
              Toy.entropy (drawn 48 Toy.entropy) 1000000%Z 2000000%Z
              Toy.register_request
              (Toy.login_request "ada@example.com" "Str0ng!Pass9")
              Toy.empty_db)
    as (user & _ & _ & H & _);
    [vm_compute; reflexivity | reflexivity | reflexivity | | exact H].
  intros row Hin. vm_compute in Hin. destruct Hin as [<-|[]].
  vm_compute. discriminate.
Defined.

Lemma registration_keeps_emails_unique_witness :
  post_api_register Toy.jwt_sign_access Toy.jwt_sign_refresh Toy.scrypt
    Toy.zod_email Toy.newUserId Toy.sevenDaysLater (drawn 48 Toy.entropy) 2000000
    Toy.register_request
    (snd (post_api_register Toy.jwt_sign_access Toy.jwt_sign_refresh
            Toy.scrypt Toy.zod_email Toy.newUserId Toy.sevenDaysLater Toy.entropy 1000000
            Toy.register_request Toy.empty_db))
  = (error_response 409 "Email already registered" "EMAIL_EXISTS",
     snd (post_api_register Toy.jwt_sign_access Toy.jwt_sign_refresh
            Toy.scrypt Toy.zod_email Toy.newUserId Toy.sevenDaysLater Toy.entropy 1000000
            Toy.register_request Toy.empty_db)).
Proof.
  apply (proj1 (registration_keeps_emails_unique Toy.jwt_open_access
                  Toy.jwt_open_refresh Toy.jwt_sign_access
                  Toy.jwt_sign_refresh Toy.scrypt Toy.zod_email
                  Toy.newUserId Toy.sevenDaysLater Toy.entropy 1000000 Toy.register_request
                  Toy.empty_db)
           (drawn 48 Toy.entropy) 2000000%Z Toy.register_request
           {| reg_name := js "Ada Lovelace";
              reg_email := js "ada@example.com";
              reg_password := js "Str0ng!Pass9";
              reg_confirmPassword := js "Str0ng!Pass9" |});
    vm_compute; reflexivity.
Defined.

Lemma registration_mismatch_reported_witness :
  status (fst (post_api_register Toy.jwt_sign_access Toy.jwt_sign_refresh
                 Toy.scrypt Toy.zod_email Toy.newUserId Toy.sevenDaysLater Toy.entropy 1000000
                 Sample.mismatch_request Toy.empty_db)) = 400
  /\ snd (post_api_register Toy.jwt_sign_access Toy.jwt_sign_refresh
            Toy.scrypt Toy.zod_email Toy.newUserId Toy.sevenDaysLater Toy.entropy 1000000
            Sample.mismatch_request Toy.empty_db) = Toy.empty_db.
Proof.
  destruct (@registration_mismatch_reported Toy.jwt_sign_access
              Toy.jwt_sign_refresh Toy.scrypt Toy.zod_email Toy.newUserId Toy.sevenDaysLater
              Toy.entropy 1000000 Sample.mismatch_request Toy.empty_db
              (js "Ada Lovelace") (js "ada@example.com")
              (js "Str0ng!Pass9") (js "Str0ng!Pass8")
              eq_refl eq_refl eq_refl eq_refl)
    as [_ H]; [vm_compute; discriminate|].
  rewrite H. split; reflexivity.
Defined.

Lemma getTasks_rows_witness :
  ~ In Sample.undecided
       (getTasks (js "u1") (Some (js "pending")) Sample.tasks)
  /\ ~ In Sample.undecided
         (getTasks (js "u1") (Some (js "completed")) Sample.tasks).
Proof.
  apply (proj2 (proj2 (proj2 (proj2
           (getTasks_rows (js "u1") None Sample.tasks))))
           Sample.undecided).
  reflexivity.
Defined.

Lemma client_and_server_task_filters_witness :
  filteredTasks (js "completed") (getTasks (js "u1") None Sample.tasks)
  = getTasks (js "u1") (Some (js "completed")) Sample.tasks
  /\ In Sample.undecided
        (filteredTasks (js "pending")
           (getTasks (js "u1") None Sample.tasks))
  /\ ~ In Sample.undecided
         (getTasks (js "u1") (Some (js "pending")) Sample.tasks).
Proof.
  destruct (@client_and_server_task_filters (js "u1") Sample.tasks
              (getTasks (js "u1") None Sample.tasks)
              (getTasks_may_answer (js "u1") None Sample.tasks))
    as (Hcompleted & _ & Hnull).
  split.
  - apply (Hcompleted _ (getTasks_may_answer (js "u1")
                           (Some (js "completed")) Sample.tasks)).
    vm_compute.
    repeat (constructor;
            [intros H; repeat (destruct H as [H|H]; [discriminate H|]);
             exact H|]).
    constructor.
  - destruct (Hnull Sample.undecided) as [Hin Hout].
    + right. right. left. reflexivity.
    + reflexivity.
    + reflexivity.
    + split; [exact Hin|].
      apply (Hout _ (getTasks_may_answer (js "u1") (Some (js "pending"))
                       Sample.tasks)).
Defined.

Lemma deleteTask_owner_only_witness :
  snd (deleteTask (js "t1") (js "u2") Sample.tasks) = Sample.tasks.
Proof.
  apply (proj1 (proj2 (proj2 (deleteTask_owner_only (js "t1") (js "u2")
                                Sample.tasks)))).
  vm_compute. reflexivity.
Defined.

Lemma joinClass_once_witness :
  joinClass (js "c1") (js "u2")
    (snd (joinClass (js "c1") (js "u2") Sample.classes))
  = (false, snd (joinClass (js "c1") (js "u2") Sample.classes)).
Proof.
  apply (proj1 (proj2 (joinClass_once (js "c1") (js "u2") Sample.classes))).
  vm_compute. reflexivity.
Defined.

Lemma semester_marks_and_grade_points_witness :
  (calculateSubjectGPA (of_int 75) <= calculateSubjectGPA (of_int 85))%Z.
Proof.
  apply (proj1 semester_marks_and_grade_points (of_int 75) (of_int 85)).
  vm_compute. discriminate.
Defined.

Lemma toggleInterest_flips_one_witness :
  toggleInterest (js "Web Development")
    (toggleInterest (js "Web Development") [js "AI & ML"])
  = [js "AI & ML"].
Proof.
  apply (proj2 (proj2 (proj2 (toggleInterest_flips_one
                                (js "Web Development") [js "AI & ML"])))).
  intros [H|[]]. discriminate H.
Defined.

Lemma subject_rows_never_empty_witness :
  1 <= length (removeSubject 0 (removeSubject 0 (addSubject [blank_subject]))).
Proof.
  apply (proj1 subject_rows_never_empty).
  apply form_remove. apply form_remove. apply form_add. apply form_initial.
Defined.

Lemma chat_appends_to_own_session_witness :
  post_api_ai_chat Sample.getChatResponse (js "s2") Sample.toISOString
    1000000 (js "u2")
    [("sessionId"%string, js "s1"); ("message"%string, js "hi")]
    Sample.chatSessions
  = (message_response 404 "Chat session not found", Sample.chatSessions).
Proof.
  apply (proj1 (proj1 (proj2 (chat_appends_to_own_session
                                Sample.getChatResponse (js "s2")
                                Sample.toISOString 1000000 (js "u2")
                                [("sessionId"%string, js "s1");
                                 ("message"%string, js "hi")]
                                Sample.chatSessions))
                  (js "hi") (js "s1") eq_refl eq_refl eq_refl eq_refl)).
  intros row [<-|[]] _. vm_compute. discriminate.
Defined.
